(** * Android_to_Markdown: the exclusion matcher and the tree walkers

    A shallow embedding of [src/core/markdown_generator.py].

    Python [str] values are sequences of code points; they are modelled
    as lists of [N].  The program runs on POSIX: [os.path] is
    [posixpath], [os.path.normcase] is the identity.  Calls to [print]
    only write to the console and are left out.  The functions of the
    standard library the program calls ([posixpath], [fnmatch], the
    UTF-8 codec, [os.walk], [os.makedirs]) are modelled after CPython
    3.11.  An exception is a result [Raise e]; the file system is a
    value that the writing functions return changed. *)

From Stdlib Require Import String Ascii.
From Stdlib Require Import List NArith Bool Arith Lia Permutation Sorted.
Import ListNotations.

(** ** Python strings *)

Module Str.

Definition char := N.
Definition str := list char.

(** A literal of the source. *)
Definition lit (s : String.string) : str :=
  List.map Ascii.N_of_ascii (String.list_ascii_of_string s).
Arguments lit s%_string.

Definition SLASH : char := 47%N.
Definition BACKSLASH : char := 92%N.
Definition NEWLINE : char := 10%N.
Definition RETURN : char := 13%N.

Fixpoint eqb (a b : str) : bool :=
  match a, b with
  | [], [] => true
  | x :: a', y :: b' => N.eqb x y && eqb a' b'
  | _, _ => false
  end.

Definition is_empty (s : str) : bool :=
  match s with [] => true | _ => false end.

(** [s.startswith(p)] *)
Fixpoint startswith (s p : str) : bool :=
  match p, s with
  | [], _ => true
  | y :: p', x :: s' => N.eqb x y && startswith s' p'
  | _ :: _, [] => false
  end.

(** [s.endswith(p)] *)
Definition endswith (s p : str) : bool := startswith (rev s) (rev p).

(** [s.rstrip(c)] for a one-character set. *)
Fixpoint rstrip (c : char) (s : str) : str :=
  match s with
  | [] => []
  | x :: s' =>
      match rstrip c s' with
      | [] => if N.eqb x c then [] else [x]
      | r => x :: r
      end
  end.

(** [s.lstrip()] and [s.strip()] take a predicate for the stripped set. *)
Fixpoint lstrip_by (p : char -> bool) (s : str) : str :=
  match s with
  | [] => []
  | x :: s' => if p x then lstrip_by p s' else s
  end.

Definition strip_by (p : char -> bool) (s : str) : str :=
  rev (lstrip_by p (rev (lstrip_by p s))).

(** [s.split(sep)] for a one-character separator: never the empty list. *)
Fixpoint split (sep : char) (s : str) : list str :=
  match s with
  | [] => [[]]
  | c :: s' =>
      if N.eqb c sep then [] :: split sep s'
      else match split sep s' with
           | w :: ws => (c :: w) :: ws
           | [] => [[c]]
           end
  end.

(** [sep.join(l)] *)
Fixpoint join (sep : str) (l : list str) : str :=
  match l with
  | [] => []
  | [x] => x
  | x :: rest => x ++ sep ++ join sep rest
  end.

(** [s.replace(a, b)] for one-character [a] and [b]. *)
Definition replace (a b : char) (s : str) : str :=
  List.map (fun c => if N.eqb c a then b else c) s.

(** [x in l] for a list of strings. *)
Definition mem (x : str) (l : list str) : bool := existsb (eqb x) l.

(** [a <= b] on strings: lexicographic on code points. *)
Fixpoint leb (a b : str) : bool :=
  match a, b with
  | [], _ => true
  | _ :: _, [] => false
  | x :: a', y :: b' =>
      if N.ltb x y then true
      else if N.ltb y x then false
      else leb a' b'
  end.

End Str.

Import Str.

(** ** Exceptions *)

Inductive error : Set :=
| ValueError
| UnicodeDecodeError
| UnicodeEncodeError
| FileNotFoundError
| NotADirectoryError
| IsADirectoryError
| FileExistsError.

Inductive result (A : Type) : Type :=
| Ok (a : A)
| Raise (e : error).
Arguments Ok {A} a.
Arguments Raise {A} e.

Definition bind {A B : Type} (r : result A) (k : A -> result B) : result B :=
  match r with
  | Ok a => k a
  | Raise e => Raise e
  end.

Notation "x <- r ;; k" := (bind r (fun x => k))
  (at level 61, r at next level, right associativity).

(** ** posixpath *)

Module PosixPath.

Definition isabs (p : str) : bool := startswith p [SLASH].

(** [os.path.join(a, b)] *)
Definition join2 (a b : str) : str :=
  if startswith b [SLASH] then b
  else if is_empty a || endswith a [SLASH] then a ++ b
  else a ++ [SLASH] ++ b.

(** [os.path.join(a, *p)] *)
Definition join_all (a : str) (p : list str) : str := fold_left join2 p a.

(** The number of leading slashes [normpath] keeps: 0, 1 or 2. *)
Definition initial_slashes (path : str) : nat :=
  if startswith path [SLASH] then
    if startswith path [SLASH; SLASH] && negb (startswith path [SLASH; SLASH; SLASH])
    then 2 else 1
  else 0.

(** One turn of the loop of [normpath] over the components. *)
Definition normpath_step (slashes : nat) (new_comps : list str) (comp : str)
  : list str :=
  if eqb comp [] || eqb comp (lit ".") then new_comps
  else if negb (eqb comp (lit ".."))
          || (Nat.eqb slashes 0 && match new_comps with [] => true | _ => false end)
          || (match new_comps with [] => false | _ => eqb (last new_comps []) (lit "..") end)
       then new_comps ++ [comp]
       else removelast new_comps.

Definition normpath_comps (path : str) : list str :=
  fold_left (normpath_step (initial_slashes path)) (split SLASH path) [].

(** [os.path.normpath(path)] *)
Definition normpath (path : str) : str :=
  if is_empty path then lit "."
  else
    let p := repeat SLASH (initial_slashes path)
             ++ Str.join [SLASH] (normpath_comps path) in
    if is_empty p then lit "." else p.

Section Cwd.

(** The working directory of the process, what [os.getcwd()] returns. *)
Variable cwd : str.

(** [os.path.abspath(path)] *)
Definition abspath (path : str) : str :=
  normpath (if isabs path then path else join2 cwd path).

Definition nonempty (s : str) : bool := negb (is_empty s).

(** [os.path.commonprefix([l1, l2])] on two lists of components. *)
Fixpoint commonprefix (l1 l2 : list str) : list str :=
  match l1, l2 with
  | x :: l1', y :: l2' => if eqb x y then x :: commonprefix l1' l2' else []
  | _, _ => []
  end.

(** [os.path.relpath(path, start)]; an empty [path] raises. *)
Definition relpath (path start : str) : result str :=
  if is_empty path then Raise ValueError
  else
    let start_list := filter nonempty (split SLASH (abspath start)) in
    let path_list := filter nonempty (split SLASH (abspath path)) in
    let i := length (commonprefix start_list path_list) in
    let rel_list := repeat (lit "..") (length start_list - i) ++ skipn i path_list in
    match rel_list with
    | [] => Ok (lit ".")
    | c :: cs => Ok (join_all c cs)
    end.

End Cwd.

(** [os.path.dirname(p)] *)
Definition dirname (p : str) : str :=
  let head := rev (lstrip_by (fun c => negb (N.eqb c SLASH)) (rev p)) in
  if negb (is_empty head) && negb (forallb (N.eqb SLASH) head)
  then rstrip SLASH head else head.

End PosixPath.

Import PosixPath.

(** ** fnmatch

    [fnmatch.fnmatch(name, pat)] compiles [pat] to a regular expression
    with [fnmatch.translate] and matches the whole of [name] against it.
    The regular expression is kept as a list of tokens; [translate] is
    the loop of the library with the index [i] replaced by the number
    of characters still to skip. *)

Module Fnmatch.

Definition C_STAR : char := 42%N.
Definition C_QMARK : char := 63%N.
Definition C_LBRACKET : char := 91%N.
Definition C_RBRACKET : char := 93%N.
Definition C_BANG : char := 33%N.
Definition C_DASH : char := 45%N.

Inductive tok : Type :=
| STAR                                  (* [.*] *)
| ANY                                   (* [.] *)
| NEVER                                 (* [(?!)] *)
| LITERAL (c : char)
| SET (negated : bool) (chunks : list str).

Definition is_star (t : tok) : bool :=
  match t with STAR => true | _ => false end.

(** Index of the first [c] in [s]. *)
Fixpoint find (c : char) (s : str) : option nat :=
  match s with
  | [] => None
  | x :: s' => if N.eqb x c then Some 0
               else match find c s' with Some k => Some (S k) | None => None end
  end.

(** With [rest = pat[i:]] just after a [[]: [j - i] for the [j] of the
    closing bracket, when there is one. *)
Definition bracket_end (rest : str) : option nat :=
  let '(n1, r1) := match rest with
                   | c :: r => if N.eqb c C_BANG then (1, r) else (0, rest)
                   | [] => (0, rest)
                   end in
  let '(n2, r2) := match r1 with
                   | c :: r => if N.eqb c C_RBRACKET then (S n1, r) else (n1, r1)
                   | [] => (n1, r1)
                   end in
  match find C_RBRACKET r2 with
  | Some k => Some (n2 + k)
  | None => None
  end.

(** The [while True] loop that cuts [stuff] at its range hyphens: a
    hyphen is looked for from [k] on, past the [protect] first
    characters of the chunk. The last chunk may come out empty. *)
Fixpoint cut_chunks (protect : nat) (cur s : str) : list str :=
  match s with
  | [] => [cur]
  | c :: s' =>
      match protect with
      | S p => cut_chunks p (cur ++ [c]) s'
      | O => if N.eqb c C_DASH then cur :: cut_chunks 2 [] s'
             else cut_chunks 0 (cur ++ [c]) s'
      end
  end.

(** [if chunk: chunks.append(chunk) else: chunks[-1] += '-'] *)
Fixpoint close_chunks (chunks : list str) : list str :=
  match chunks with
  | [] => []
  | [c] => [c]
  | [c; []] => [c ++ [C_DASH]]
  | c :: rest => c :: close_chunks rest
  end.

(** The loop [for k in range(len(chunks)-1, 0, -1)] dropping the empty
    ranges.  No chunk is empty where the library indexes it. *)
Fixpoint remove_empty_ranges (chunks : list str) : list str :=
  match chunks with
  | [] => []
  | a :: rest =>
      match remove_empty_ranges rest with
      | [] => [a]
      | b :: rest' =>
          if N.ltb (hd 0%N b) (last a 0%N)
          then (removelast a ++ tl b) :: rest'
          else a :: b :: rest'
      end
  end.

Definition chunks_of (stuff : str) : list str :=
  if negb (existsb (N.eqb C_DASH) stuff) then [stuff]
  else
    let protect := match stuff with
                   | c :: _ => if N.eqb c C_BANG then 2 else 1
                   | [] => 1
                   end in
    remove_empty_ranges (close_chunks (cut_chunks protect [] stuff)).

(** The token of a bracket expression whose inside is [stuff]. The
    escapes the library adds only protect characters from the syntax of
    regular expressions. *)
Definition set_tok (stuff : str) : tok :=
  let chunks := chunks_of stuff in
  let joined := Str.join [C_DASH] chunks in
  if is_empty joined then NEVER
  else if Str.eqb joined [C_BANG] then ANY
  else match chunks with
       | (c :: first) :: others =>
           if N.eqb c C_BANG then SET true (first :: others)
           else SET false chunks
       | _ => SET false chunks
       end.

Definition add_star (res : list tok) : list tok :=
  match res with
  | [] => [STAR]
  | _ => if is_star (last res ANY) then res else res ++ [STAR]
  end.

(** [translate(pat)]: [skip] characters of [pat] belong to a bracket
    expression already translated. *)
Fixpoint translate_loop (skip : nat) (res : list tok) (pat : str) : list tok :=
  match pat with
  | [] => res
  | c :: rest =>
      match skip with
      | S k => translate_loop k res rest
      | O =>
          if N.eqb c C_STAR then translate_loop 0 (add_star res) rest
          else if N.eqb c C_QMARK then translate_loop 0 (res ++ [ANY]) rest
          else if N.eqb c C_LBRACKET then
            match bracket_end rest with
            | None => translate_loop 0 (res ++ [LITERAL C_LBRACKET]) rest
            | Some n =>
                translate_loop (S n) (res ++ [set_tok (firstn n rest)]) rest
            end
          else translate_loop 0 (res ++ [LITERAL c]) rest
      end
  end.

Definition translate (pat : str) : list tok := translate_loop 0 [] pat.

(** Members of the set written by [chunks]: the characters of each
    chunk, and the range from the last character of a chunk to the
    first of the next.  After an empty chunk, which only the [!] of a
    negation leaves, the hyphen opens the set and stands for itself. *)
Fixpoint in_chunks (c : char) (chunks : list str) : bool :=
  match chunks with
  | [] => false
  | a :: rest =>
      existsb (N.eqb c) a
      || match rest with
         | b :: _ => if is_empty a then N.eqb c C_DASH
                     else N.leb (last a 0%N) c && N.leb c (hd 0%N b)
         | [] => false
         end
      || in_chunks c rest
  end.

Definition tok_matches (t : tok) (c : char) : bool :=
  match t with
  | STAR => true
  | ANY => true
  | NEVER => false
  | LITERAL x => N.eqb c x
  | SET negated chunks => xorb negated (in_chunks c chunks)
  end.

(** [re.compile(translate(pat)).match(name) is not None]: the pattern
    is anchored at both ends and [.] matches every character. *)
Fixpoint matches (ts : list tok) (name : str) : bool :=
  match ts with
  | [] => is_empty name
  | STAR :: ts' =>
      (fix star (s : str) : bool :=
         matches ts' s || match s with [] => false | _ :: s' => star s' end) name
  | t :: ts' =>
      match name with
      | [] => false
      | c :: name' => tok_matches t c && matches ts' name'
      end
  end.

(** [fnmatch(name, pat)] *)
Definition fnmatch (name pat : str) : bool := matches (translate pat) name.

End Fnmatch.

Import Fnmatch.

(** ** UTF-8

    [open(..., encoding="utf-8")] decodes strictly and raises on the
    first ill-formed sequence; with [errors="ignore"] the bytes of an
    ill-formed sequence are dropped and decoding goes on. *)

Module Utf8.

Local Open Scope N_scope.

Definition is_cont (b : N) : bool := N.leb 128 b && N.leb b 191.

(** The range allowed for the second byte after the lead byte [b0]. *)
Definition second_ok (b0 b1 : N) : bool :=
  if N.eqb b0 224 then N.leb 160 b1 && N.leb b1 191
  else if N.eqb b0 237 then N.leb 128 b1 && N.leb b1 159
  else if N.eqb b0 240 then N.leb 144 b1 && N.leb b1 191
  else if N.eqb b0 244 then N.leb 128 b1 && N.leb b1 143
  else is_cont b1.

(** Length of the sequence a lead byte announces; 0 for a byte that
    cannot start one. *)
Definition width (b0 : N) : nat :=
  if N.ltb b0 128 then 1%nat
  else if N.ltb b0 194 then 0%nat
  else if N.ltb b0 224 then 2%nat
  else if N.ltb b0 240 then 3%nat
  else if N.ltb b0 245 then 4%nat
  else 0%nat.

Definition low6 (b : N) : N := N.land b 63.

Inductive errors : Set := Strict | Ignore.

Definition on_error (e : errors) (rest : result str) : result str :=
  match e with
  | Strict => Raise UnicodeDecodeError
  | Ignore => rest
  end.

Definition emit (c : char) (rest : result str) : result str :=
  s <- rest ;; Ok (c :: s).

Fixpoint decode (e : errors) (bs : list Byte.byte) : result str :=
  match bs with
  | [] => Ok []
  | x0 :: r0 =>
      let b0 := Byte.to_N x0 in
      match width b0 with
      | 1%nat => emit b0 (decode e r0)
      | 2%nat =>
          match r0 with
          | x1 :: r1 =>
              let b1 := Byte.to_N x1 in
              if second_ok b0 b1
              then emit (N.land b0 31 * 64 + low6 b1) (decode e r1)
              else on_error e (decode e r0)
          | _ => on_error e (decode e r0)
          end
      | 3%nat =>
          match r0 with
          | x1 :: x2 :: r2 =>
              let b1 := Byte.to_N x1 in
              let b2 := Byte.to_N x2 in
              if second_ok b0 b1 && is_cont b2
              then emit (N.land b0 15 * 4096 + low6 b1 * 64 + low6 b2)
                        (decode e r2)
              else on_error e (decode e r0)
          | _ => on_error e (decode e r0)
          end
      | 4%nat =>
          match r0 with
          | x1 :: x2 :: x3 :: r3 =>
              let b1 := Byte.to_N x1 in
              let b2 := Byte.to_N x2 in
              let b3 := Byte.to_N x3 in
              if second_ok b0 b1 && is_cont b2 && is_cont b3
              then emit (N.land b0 7 * 262144 + low6 b1 * 4096
                         + low6 b2 * 64 + low6 b3)
                        (decode e r3)
              else on_error e (decode e r0)
          | _ => on_error e (decode e r0)
          end
      | _ => on_error e (decode e r0)
      end
  end.

Definition byte_of (n : N) : Byte.byte :=
  match Byte.of_N n with Some b => b | None => Byte.x00 end.

(** The bytes of one code point; a surrogate cannot be encoded. *)
Definition encode_char (c : char) : result (list Byte.byte) :=
  if N.ltb c 128 then Ok [byte_of c]
  else if N.ltb c 2048 then
    Ok [byte_of (192 + c / 64); byte_of (128 + c mod 64)]
  else if N.leb 55296 c && N.leb c 57343 then Raise UnicodeEncodeError
  else if N.ltb c 65536 then
    Ok [byte_of (224 + c / 4096); byte_of (128 + (c / 64) mod 64);
        byte_of (128 + c mod 64)]
  else
    Ok [byte_of (240 + c / 262144); byte_of (128 + (c / 4096) mod 64);
        byte_of (128 + (c / 64) mod 64); byte_of (128 + c mod 64)].

Fixpoint encode (s : str) : result (list Byte.byte) :=
  match s with
  | [] => Ok []
  | c :: s' =>
      bs <- encode_char c ;;
      rest <- encode s' ;;
      Ok (bs ++ rest)
  end.

(** Reading in text mode turns [\r\n] and [\r] into [\n]. *)
Fixpoint universal_newlines (s : str) : str :=
  match s with
  | [] => []
  | c :: s' =>
      if N.eqb c RETURN then
        match s' with
        | d :: s'' => if N.eqb d NEWLINE then NEWLINE :: universal_newlines s''
                      else NEWLINE :: universal_newlines s'
        | [] => [NEWLINE]
        end
      else c :: universal_newlines s'
  end.

End Utf8.

Import Utf8.

(** ** The file system

    A tree of named nodes; the order of the children of a directory is
    the order in which the operating system lists them.  It holds
    directories and plain files that the process may list, read and
    write: there are no symbolic links and no permissions, so that no
    listing and no opening of what is there fails.  Where the program
    reads, a path is resolved from the root after [abspath], which
    removes [.] and [..] from the text of the path; where it writes,
    the path is followed as written (see below).  The two agree on the
    paths written without [.] and [..]. *)

#[warnings="-register-all"]
Inductive node : Type :=
| File (name : str) (content : list Byte.byte)
| Dir (name : str) (children : list node).

Definition node_name (n : node) : str :=
  match n with File nm _ => nm | Dir nm _ => nm end.

Definition is_dir (n : node) : bool :=
  match n with Dir _ _ => true | File _ _ => false end.

Fixpoint find_child (c : str) (children : list node) : option node :=
  match children with
  | [] => None
  | n :: rest => if eqb (node_name n) c then Some n else find_child c rest
  end.

Fixpoint lookup (n : node) (comps : list str) : option node :=
  match comps with
  | [] => Some n
  | c :: cs =>
      match n with
      | Dir _ children =>
          match find_child c children with
          | Some ch => lookup ch cs
          | None => None
          end
      | File _ _ => None
      end
  end.

Fixpoint replace_child (c : str) (new : node) (children : list node) : list node :=
  match children with
  | [] => []
  | n :: rest => if eqb (node_name n) c then new :: rest
                 else n :: replace_child c new rest
  end.

(** The tree with [new] in the place of the node found along [place];
    a place that is not there leaves the tree as it is. *)
Fixpoint graft (n : node) (place : list str) (new : node) : node :=
  match place with
  | [] => new
  | c :: cs =>
      match n with
      | Dir nm children =>
          match find_child c children with
          | Some ch => Dir nm (replace_child c (graft ch cs new) children)
          | None => n
          end
      | File _ _ => n
      end
  end.

(** *** Paths handed to the system

    [os.makedirs] and [open] hand the path to the system as it is
    written.  The system follows its names one by one, from the root
    for an absolute path and from the working directory otherwise: [.]
    stays, [..] steps back to the parent (the root is its own parent),
    any other name is looked up in the directory reached.  Nothing is
    cancelled in the text: a name before [..] has to be a directory
    that is there. *)

(** The names of a path as written; repeated and trailing separators
    leave empty names, which the system passes over. *)
Definition written (path : str) : list str :=
  filter nonempty (split SLASH path).

(** The place a path starts from. *)
Definition start (cwd path : str) : list str :=
  if isabs path then [] else written cwd.

(** One name followed from the place [here]. *)
Definition follow (fs : node) (here : list str) (c : str) : result (list str) :=
  match lookup fs here with
  | Some (Dir _ _) =>
      if eqb c (lit ".") then Ok here
      else if eqb c (lit "..") then Ok (removelast here)
      else Ok (here ++ [c])
  | Some (File _ _) => Raise NotADirectoryError
  | None => Raise FileNotFoundError
  end.

Fixpoint follow_all (fs : node) (here : list str) (names : list str)
  : result (list str) :=
  match names with
  | [] => Ok here
  | c :: cs => there <- follow fs here c ;; follow_all fs there cs
  end.

(** What a step that changes the file system ends with: the file system
    it leaves, and the exception when it raised. *)
Definition outcome : Type := (node * option error)%type.

(** [os.makedirs(.., exist_ok=True)] from the place [here] along the
    names of the path: a directory that is missing is made and entered,
    one that is there is entered.  A file in the way raises
    [FileExistsError] as the last name and [NotADirectoryError] before
    it.  What was made before an exception stays. *)
Fixpoint makedirs_along (fs : node) (here : list str) (names : list str)
  : outcome :=
  match names with
  | [] => (fs, None)
  | c :: cs =>
      match lookup fs here with
      | Some (Dir nm children) =>
          if eqb c (lit ".") then makedirs_along fs here cs
          else if eqb c (lit "..") then makedirs_along fs (removelast here) cs
          else
            match find_child c children with
            | Some (Dir _ _) => makedirs_along fs (here ++ [c]) cs
            | Some (File _ _) =>
                (fs, Some (match cs with
                           | [] => FileExistsError
                           | _ :: _ => NotADirectoryError
                           end))
            | None =>
                makedirs_along (graft fs here (Dir nm (children ++ [Dir c []])))
                  (here ++ [c]) cs
            end
      | Some (File _ _) => (fs, Some NotADirectoryError)
      | None => (fs, Some FileNotFoundError)
      end
  end.

(** [open(path, "w")]: the names before the last are followed to the
    directory that is to hold the file, and the last one has to name a
    file or nothing there yet.  The result is the place of that
    directory. *)
Definition open_w (fs : node) (here : list str) (names : list str)
    (trailing : bool) : result (list str) :=
  match names with
  | [] => Raise IsADirectoryError
  | _ :: _ =>
      let c := last names [] in
      parent <- follow_all fs here (removelast names) ;;
      match lookup fs parent with
      | Some (Dir _ children) =>
          if eqb c (lit ".") || eqb c (lit "..") || trailing
          then Raise IsADirectoryError
          else
            match find_child c children with
            | Some (Dir _ _) => Raise IsADirectoryError
            | _ => Ok parent
            end
      | Some (File _ _) => Raise NotADirectoryError
      | None => Raise FileNotFoundError
      end
  end.

(** The file system with [content] as the file [c] of the directory at
    [parent], in the place of the file of that name or as a new entry. *)
Definition with_file (fs : node) (parent : list str) (c : str)
    (content : list Byte.byte) : node :=
  match lookup fs parent with
  | Some (Dir nm children) =>
      graft fs parent
        (Dir nm (match find_child c children with
                 | Some _ => replace_child c (File c content) children
                 | None => children ++ [File c content]
                 end))
  | _ => fs
  end.

(** ** src/core/markdown_generator.py *)

Section Generator.

(** The working directory of the process. *)
Variable cwd : str.

(** The components of the absolute form of a path, by which the file
    system resolves it where the program reads.  [abspath] cancels
    [..] in the text and turns the empty path into the working
    directory, where the system follows [..] through the directories
    that are there and knows no file of the empty name: the statements
    below that need it ask for a path that is not empty. *)
Definition abs_comps (path : str) : list str :=
  filter nonempty (split SLASH (abspath cwd path)).

Definition resolve (fs : node) (path : str) : option node :=
  lookup fs (abs_comps path).

(** [os.path.isfile], [os.path.isdir] *)
Definition isfile (fs : node) (path : str) : bool :=
  match resolve fs path with Some (File _ _) => true | _ => false end.

Definition isdir (fs : node) (path : str) : bool :=
  match resolve fs path with Some (Dir _ _) => true | _ => false end.

(** [open(path, "r", encoding="utf-8", errors=e)] and [f.read()] *)
Definition read_bytes (e : errors) (content : list Byte.byte) : result str :=
  s <- decode e content ;; Ok (universal_newlines s).

Definition read_text (fs : node) (path : str) (e : errors) : result str :=
  match resolve fs path with
  | Some (File _ content) => read_bytes e content
  | Some (Dir _ _) => Raise IsADirectoryError
  | None => Raise FileNotFoundError
  end.

Definition standard_exclusions : list str :=
  [ lit ".git/"; lit ".venv/"; lit ".idea/"; lit ".DS_Store"; lit "Thumbs.db";
    lit "node_modules/"; lit "__pycache__";
    lit "build/"; lit "dist/"; lit ".env/"; lit ".eggs/"; lit "*.egg-info/";
    lit "*.log"; lit "generated/"; lit "outputs/"; lit "androidTest/";
    lit "test/" ].

(** [c.isspace()], the characters [str.strip()] removes. *)
Definition isspace (c : char) : bool :=
  (N.leb 9 c && N.leb c 13) || (N.leb 28 c && N.leb c 32)
  || N.eqb c 133 || N.eqb c 160 || N.eqb c 5760
  || (N.leb 8192 c && N.leb c 8202)
  || N.eqb c 8232 || N.eqb c 8233 || N.eqb c 8239 || N.eqb c 8287
  || N.eqb c 12288.

(** The body of [for line in f]: what the line appends, if anything. *)
Definition gitignore_line (line : str) : list str :=
  let line := strip_by isspace line in
  if negb (is_empty line) && negb (startswith line (lit "#")) then
    if startswith line (lit "/") then [tl line] else [line]
  else [].

Definition parse_gitignore (fs : node) (directory : str) : result (list str) :=
  let gitignore_path := join2 directory (lit ".gitignore") in
  let exclude_patterns := standard_exclusions in
  if isfile fs gitignore_path then
    text <- read_text fs gitignore_path Strict ;;
    Ok (exclude_patterns ++ flat_map gitignore_line (split NEWLINE text))
  else Ok exclude_patterns.

(** The test one pattern makes in the loop of [should_exclude]. *)
Definition pattern_matches (relative_path : str) (path_parts : list str)
    (pattern : str) : bool :=
  if endswith pattern (lit "/") then
    let dir_pattern := rstrip SLASH pattern in
    mem dir_pattern path_parts
  else fnmatch relative_path pattern.

Fixpoint exclude_loop (relative_path : str) (path_parts : list str)
    (exclude_patterns : list str) : bool :=
  match exclude_patterns with
  | [] => false
  | pattern :: rest =>
      if endswith pattern (lit "/") then
        let dir_pattern := rstrip SLASH pattern in
        if mem dir_pattern path_parts then true
        else exclude_loop relative_path path_parts rest
      else
        if fnmatch relative_path pattern then true
        else exclude_loop relative_path path_parts rest
  end.

Definition should_exclude (path : str) (exclude_patterns : list str)
    (root_dir : str) : result bool :=
  rel <- relpath cwd path root_dir ;;
  let relative_path := replace BACKSLASH SLASH rel in
  let path_parts := split SLASH relative_path in
  Ok (exclude_loop relative_path path_parts exclude_patterns).

(** *** generate_file_structure *)

(** Truth value of an optional string: [None] and [""] are false. *)
Definition truthy (s : option str) : bool :=
  match s with Some (_ :: _) => true | _ => false end.

(** An entry of [os.listdir(directory)] with what the loop asks about
    it: [os.path.isdir(item_path)] and, for a directory, the recursive
    call [generate_file_structure(item_path, indent, ...)] on it. *)
Record item : Type := {
  item_name : str;
  item_descend : option (str -> str -> result str)
}.

(** [sorted(...)] on the names: a stable sort. *)
Fixpoint insert_item (x : item) (l : list item) : list item :=
  match l with
  | [] => [x]
  | y :: l' => if leb (item_name x) (item_name y) then x :: l
               else y :: insert_item x l'
  end.

Fixpoint sorted (l : list item) : list item :=
  match l with
  | [] => []
  | x :: l' => insert_item x (sorted l')
  end.

Definition NL : str := [NEWLINE].

Section Listing.

Variable exclude_patterns : list str.
Variable root_dir : str.
Variable focus_subdir : option str.

Definition abs_focus : option str :=
  match focus_subdir with
  | Some f => if truthy focus_subdir then Some (abspath cwd (join2 root_dir f))
              else None
  | None => None
  end.

Definition in_focus (directory : str) : bool :=
  let abs_directory := abspath cwd directory in
  match abs_focus with
  | Some f => truthy focus_subdir && startswith abs_directory f
  | None => false
  end.

Definition is_abs_focus (abs_item_path : str) : bool :=
  match abs_focus with
  | Some f => eqb abs_item_path f
  | None => false
  end.

(** One turn of the loop over the entries, from [structure] to the new
    [structure]. *)
Definition list_item (directory indent : str) (it : item) (structure : str)
  : result str :=
  let inFocus := in_focus directory in
  let item_path := join2 directory (item_name it) in
  let abs_item_path := abspath cwd item_path in
  excluded <- should_exclude item_path exclude_patterns root_dir ;;
  if excluded then Ok structure
  else
    match item_descend it with
    | Some recurse =>
        if negb inFocus && truthy focus_subdir && is_abs_focus abs_item_path then
          sub <- recurse item_path (indent ++ lit "  ") ;;
          Ok (structure ++ (indent ++ lit "- " ++ item_name it ++ lit "/" ++ NL)
                        ++ sub)
        else if inFocus then
          sub <- recurse item_path (indent ++ lit "  ") ;;
          Ok (structure ++ (indent ++ lit "- " ++ item_name it ++ lit "/" ++ NL)
                        ++ sub)
        else
          Ok (structure ++ (indent ++ lit "- " ++ item_name it ++ lit "/" ++ NL))
    | None =>
        Ok (structure ++ (indent ++ lit "- " ++ item_name it ++ NL))
    end.

Fixpoint list_items (directory indent : str) (items : list item)
    (structure : str) : result str :=
  match items with
  | [] => Ok structure
  | it :: rest =>
      structure' <- list_item directory indent it structure ;;
      list_items directory indent rest structure'
  end.

(** The function on the directory [n] found at the path [directory];
    [os.listdir] raises on a file. *)
Fixpoint file_structure (n : node) (directory indent : str) {struct n}
  : result str :=
  match n with
  | File _ _ => Raise NotADirectoryError
  | Dir _ children =>
      let items :=
        map (fun c => {| item_name := node_name c;
                         item_descend :=
                           match c with
                           | Dir _ _ => Some (file_structure c)
                           | File _ _ => None
                           end |}) children in
      list_items directory indent (sorted items) []
  end.

End Listing.

(** [generate_file_structure(directory, indent, exclude_patterns,
    root_dir, focus_subdir)]; the callers pass every argument but
    [indent]. *)
Definition generate_file_structure (fs : node) (directory indent : str)
    (exclude_patterns : list str) (root_dir : str) (focus_subdir : option str)
  : result str :=
  match resolve fs directory with
  | Some n => file_structure exclude_patterns root_dir focus_subdir n directory indent
  | None => Raise FileNotFoundError
  end.

(** *** include_readme *)

Fixpoint readme_loop (fs : node) (directory : str) (names : list str)
  : result str :=
  match names with
  | [] => Ok []
  | readme_file :: rest =>
      let readme_path := join2 directory readme_file in
      if isfile fs readme_path then
        text <- read_text fs readme_path Strict ;;
        Ok (lit "### Project README" ++ NL ++ NL ++ text ++ NL ++ NL)
      else readme_loop fs directory rest
  end.

Definition include_readme (fs : node) (directory : str) : result str :=
  readme_loop fs directory [lit "README.md"; lit "README.txt"].

(** *** os.walk

    Top-down, without following links: a directory, the names of its
    sub-directories, and its files (a name and the bytes [open] finds
    there); then the walks of the sub-directories.  A path that is not
    a directory yields nothing. *)

Definition walk_entry : Type := (str * list str * list (str * list Byte.byte))%type.

Definition dir_names (children : list node) : list str :=
  flat_map (fun c => match c with Dir nm _ => [nm] | File _ _ => [] end) children.

Definition file_entries (children : list node) : list (str * list Byte.byte) :=
  flat_map (fun c => match c with File nm b => [(nm, b)] | Dir _ _ => [] end) children.

Fixpoint walk (top : str) (n : node) {struct n} : list walk_entry :=
  match n with
  | File _ _ => []
  | Dir _ children =>
      (top, dir_names children, file_entries children)
      :: flat_map (fun c => match c with
                            | Dir nm _ => walk (join2 top nm) c
                            | File _ _ => []
                            end) children
  end.

Definition os_walk (fs : node) (directory : str) : list walk_entry :=
  match resolve fs directory with
  | Some n => walk directory n
  | None => []
  end.

(** *** include_kotlin_files *)

Section Kotlin.

Variable directory : str.
Variable exclude_patterns : list str.
Variable root_dir : str.

Definition kotlin_block (relative_path file_content : str) : str :=
  lit "## File: " ++ relative_path ++ NL ++ NL ++ lit "```kotlin" ++ NL
  ++ file_content ++ NL ++ lit "```" ++ NL.

Fixpoint kotlin_files (root : str) (files : list (str * list Byte.byte))
    (content : str) : result str :=
  match files with
  | [] => Ok content
  | (file, bytes) :: rest =>
      let file_path := join2 root file in
      if endswith file (lit ".kt") then
        excluded <- should_exclude file_path exclude_patterns root_dir ;;
        if negb excluded then
          file_content <- read_bytes Ignore bytes ;;
          relative_path <- relpath cwd file_path directory ;;
          kotlin_files root rest (content ++ kotlin_block relative_path file_content)
        else kotlin_files root rest content
      else kotlin_files root rest content
  end.

Fixpoint kotlin_loop (entries : list walk_entry) (content : str) : result str :=
  match entries with
  | [] => Ok content
  | (root, _, files) :: rest =>
      excluded <- should_exclude root exclude_patterns root_dir ;;
      if excluded then kotlin_loop rest content
      else
        content' <- kotlin_files root files content ;;
        kotlin_loop rest content'
  end.

End Kotlin.

(** [include_kotlin_files(directory, exclude_patterns, root_dir)] *)
Definition include_kotlin_files (fs : node) (directory : str)
    (exclude_patterns : list str) (root_dir : str) : result str :=
  kotlin_loop directory exclude_patterns root_dir (os_walk fs directory) [].

(** *** include_gradle_and_toml_files *)

Section Gradle.

Variable directory : str.

Definition gradle_block (relative_path file_content : str) : str :=
  lit "### Gradle Script: " ++ relative_path ++ NL ++ NL ++ lit "```kotlin" ++ NL
  ++ file_content ++ NL ++ lit "```" ++ NL.

Definition toml_block (relative_path file_content : str) : str :=
  lit "### Version Catalog: " ++ relative_path ++ NL ++ NL ++ lit "```toml" ++ NL
  ++ file_content ++ NL ++ lit "```" ++ NL.

Fixpoint gradle_files (root : str) (files : list (str * list Byte.byte))
    (content : str) : result str :=
  match files with
  | [] => Ok content
  | (file, bytes) :: rest =>
      let file_path := join2 root file in
      if endswith file (lit ".gradle.kts") || eqb file (lit "libs.versions.toml") then
        file_content <- read_bytes Ignore bytes ;;
        relative_path <- relpath cwd file_path directory ;;
        if endswith file (lit ".gradle.kts") then
          gradle_files root rest (content ++ gradle_block relative_path file_content)
        else if eqb file (lit "libs.versions.toml") then
          gradle_files root rest (content ++ toml_block relative_path file_content)
        else gradle_files root rest content
      else gradle_files root rest content
  end.

Fixpoint gradle_loop (entries : list walk_entry) (content : str) : result str :=
  match entries with
  | [] => Ok content
  | (root, _, files) :: rest =>
      content' <- gradle_files root files content ;;
      gradle_loop rest content'
  end.

End Gradle.

Definition include_gradle_and_toml_files (fs : node) (directory : str)
  : result str :=
  gradle_loop directory (os_walk fs directory) [].

(** *** Writing the document *)

(** [os.makedirs(name, exist_ok=True)]; the empty name raises. *)
Definition makedirs (fs : node) (name : str) : outcome :=
  if is_empty name then (fs, Some FileNotFoundError)
  else makedirs_along fs (start cwd name) (written name).

(** [with open(path, "w", encoding="utf-8") as f: f.write(text)]: the
    file is opened, then the text is encoded and written; when the
    encoding fails the file stays, empty. *)
Definition write_file (fs : node) (path text : str) : outcome :=
  if is_empty path then (fs, Some FileNotFoundError)
  else
    let names := written path in
    match open_w fs (start cwd path) names (endswith path (lit "/")) with
    | Raise e => (fs, Some e)
    | Ok parent =>
        match encode text with
        | Ok bytes => (with_file fs parent (last names []) bytes, None)
        | Raise e => (with_file fs parent (last names []) [], Some e)
        end
    end.

(** *** generate_markdown *)

Section GenerateMarkdown.

(** [pathlib.Path(__file__).parent.resolve()]: where the module lies. *)
Variable script_dir : str.

Definition markdown_document (fs : node) (directory focus_subdir : str)
  : result str :=
  exclude_patterns <- parse_gitignore fs directory ;;
  let markdown_content := lit "# Android Project Overview" ++ NL ++ NL in
  let markdown_content := markdown_content ++ lit "## File Structure" ++ NL ++ NL in
  let markdown_content := markdown_content ++
    lit "This section provides an organized view of the project's directory and file structure, highlighting authored files."
    ++ NL ++ NL in
  structure <- generate_file_structure fs directory [] exclude_patterns directory
                 (Some focus_subdir) ;;
  let markdown_content := markdown_content ++ (structure ++ NL ++ NL) in
  let markdown_content := markdown_content ++ lit "## Project Documentation" ++ NL ++ NL in
  readme <- include_readme fs directory ;;
  let markdown_content := markdown_content ++ readme in
  let markdown_content := markdown_content ++ lit "## Extracted Kotlin Files" ++ NL ++ NL in
  let markdown_content := markdown_content ++
    lit "Below are the contents of Kotlin files in the project, organized by file paths."
    ++ NL ++ NL in
  kotlin <- include_kotlin_files fs directory exclude_patterns directory ;;
  let markdown_content := markdown_content ++ kotlin in
  let markdown_content := markdown_content ++ lit "## Configuration Files" ++ NL ++ NL in
  config <- include_gradle_and_toml_files fs directory ;;
  Ok (markdown_content ++ config).


End GenerateMarkdown.

(** *** generate_markdown_with_excludes *)

(** The pattern one user-excluded path becomes. *)
Definition user_pattern (fs : node) (directory abs_path : str) : result str :=
  rel <- relpath cwd abs_path directory ;;
  let rel_path := replace BACKSLASH SLASH rel in
  if isdir fs abs_path then Ok (rstrip SLASH rel_path ++ lit "/")
  else Ok rel_path.

Fixpoint user_patterns (fs : node) (directory : str)
    (user_excluded_paths : list str) (exclude_patterns : list str)
  : result (list str) :=
  match user_excluded_paths with
  | [] => Ok exclude_patterns
  | abs_path :: rest =>
      rel_path <- user_pattern fs directory abs_path ;;
      user_patterns fs directory rest (exclude_patterns ++ [rel_path])
  end.

(** Steps 1 and 2: the patterns the sections are built with. *)
Definition patterns_with_excludes (fs : node) (directory : str)
    (user_excluded_paths : list str) : result (list str) :=
  exclude_patterns <- parse_gitignore fs directory ;;
  user_patterns fs directory user_excluded_paths exclude_patterns.

Definition document_with_excludes (fs : node) (directory : str)
    (user_excluded_paths : list str) : result str :=
  exclude_patterns <- patterns_with_excludes fs directory user_excluded_paths ;;
  let markdown_content := lit "# Project Overview" ++ NL ++ NL in
  let markdown_content := markdown_content ++ lit "## File Structure" ++ NL ++ NL in
  let markdown_content := markdown_content ++
    lit "This section outlines the hierarchical structure of the project's files and directories."
    ++ NL ++ NL in
  structure <- generate_file_structure fs directory [] exclude_patterns directory
                 (Some (lit "app")) ;;
  let markdown_content := markdown_content ++ structure in
  let markdown_content := markdown_content ++ NL ++ NL in
  let markdown_content := markdown_content ++ lit "## Project Documentation" ++ NL ++ NL in
  readme <- include_readme fs directory ;;
  let markdown_content := markdown_content ++ readme in
  let markdown_content := markdown_content ++ lit "## Extracted Kotlin Files" ++ NL ++ NL in
  let markdown_content := markdown_content ++
    lit "Below are the contents of Kotlin files in the project, organized by file paths."
    ++ NL ++ NL in
  kotlin <- include_kotlin_files fs directory exclude_patterns directory ;;
  let markdown_content := markdown_content ++ kotlin in
  let markdown_content := markdown_content ++ lit "## Configuration Files" ++ NL ++ NL in
  config <- include_gradle_and_toml_files fs directory ;;
  Ok (markdown_content ++ config).

Definition generate_markdown_with_excludes (fs : node)
    (directory output_file_path : str) (user_excluded_paths : list str)
  : outcome :=
  match document_with_excludes fs directory user_excluded_paths with
  | Raise e => (fs, Some e)
  | Ok markdown_content =>
      let output_dir := dirname output_file_path in
      match makedirs fs output_dir with
      | (fs1, Some e) => (fs1, Some e)
      | (fs1, None) => write_file fs1 output_file_path markdown_content
      end
  end.

End Generator.

(** ** Vocabulary of the statements *)

(** A name a directory entry can bear: not empty, without a separator,
    and neither [.] nor [..]. *)
Definition regular (name : str) : bool :=
  negb (is_empty name) && negb (existsb (N.eqb SLASH) name)
  && negb (eqb name (lit ".")) && negb (eqb name (lit "..")).

Definition no_backslash (name : str) : bool :=
  negb (existsb (N.eqb BACKSLASH) name).

Definition has_separator (s : str) : bool := existsb (N.eqb SLASH) s.

(** A pattern none of whose characters [fnmatch] reads as a wildcard. *)
Definition wildcard_free (pattern : str) : bool :=
  forallb (fun c => negb (N.eqb c C_STAR || N.eqb c C_QMARK || N.eqb c C_LBRACKET))
          pattern.

(** [needle in hay] *)
Fixpoint contains (hay needle : str) : bool :=
  startswith hay needle
  || match hay with
     | [] => false
     | _ :: hay' => contains hay' needle
     end.

(** What [document_with_excludes] returns contains [needle]. *)
Definition document_contains (fs : node) (directory : str) (users : list str)
    (needle : str) : bool :=
  match document_with_excludes (lit "/") fs directory users with
  | Ok doc => contains doc needle
  | Raise _ => false
  end.

(** Every name in [n] is the name of a directory entry. *)
Fixpoint names_regular (n : node) : bool :=
  match n with
  | File nm _ => regular nm
  | Dir nm children => regular nm && forallb names_regular children
  end.

(** The directory without its entries called [name]. *)
Definition without (name : str) (children : list node) : list node :=
  filter (fun c => negb (eqb (node_name c) name)) children.

(** The file system without the entries called [name] of the directory
    at [comps]. *)
Fixpoint delete_at (n : node) (comps : list str) (name : str) : node :=
  match comps with
  | [] => match n with
          | Dir nm children => Dir nm (without name children)
          | File _ _ => n
          end
  | c :: cs =>
      match n with
      | Dir nm children =>
          match find_child c children with
          | Some ch => Dir nm (replace_child c (delete_at ch cs name) children)
          | None => n
          end
      | File _ _ => n
      end
  end.

(** Component-wise containment of absolute paths: [abs_path] is
    [abs_outer] or lies below it. *)
Fixpoint prefix_of (outer inner : list str) : bool :=
  match outer, inner with
  | [], _ => true
  | x :: outer', y :: inner' => eqb x y && prefix_of outer' inner'
  | _ :: _, [] => false
  end.

Definition path_inside (abs_path abs_outer : str) : bool :=
  prefix_of (filter nonempty (split SLASH abs_outer))
            (filter nonempty (split SLASH abs_path)).

(** The recursion policy in the words of the specification: (a) no
    focus subtree is configured, or (b) the directory being rendered is
    inside or equal to the focus subtree, or (c) the entry is the root
    of the focus subtree. *)
Definition spec_recurses (focus_subdir : option str) (inside is_root : bool)
  : bool :=
  negb (truthy focus_subdir) || inside || is_root.

(** The characters before the first separator. *)
Fixpoint until_slash (s : str) : str :=
  match s with
  | [] => []
  | c :: s' => if N.eqb c SLASH then [] else c :: until_slash s'
  end.

(** [os.path.basename(p)]: what follows the last separator. *)
Definition basename (p : str) : str := rev (until_slash (rev p)).


(** ** Notions of the proofs *)

(** The path [abspath] normalises. *)
Definition full (cwd path : str) : str :=
  if isabs path then path else join2 cwd path.

(** A component [normpath] keeps. *)
Definition clean (c : str) : Prop :=
  c <> [] /\ existsb (N.eqb SLASH) c = false.

(** A path that [os.path.join] extends with a separator. *)
Definition extensible (a : str) : Prop :=
  a <> [] /\ endswith a [SLASH] = false.

(** The relative path and the segments [should_exclude] computes for a
    path made of entry names below the root. *)
Definition rel_of (ns : list str) : str :=
  replace BACKSLASH SLASH (Str.join [SLASH] ns).

Definition parts_of (ns : list str) : list str :=
  flat_map (fun n => split SLASH (replace BACKSLASH SLASH n)) ns.

(** What [os.path.dirname] strips the separators of: the path up to
    its last separator. *)
Definition dir_head (p : str) : str :=
  rev (lstrip_by (fun c => negb (N.eqb c SLASH)) (rev p)).


(** The order [sorted] puts the entries in. *)
Definition item_le (x y : item) : Prop := leb (item_name x) (item_name y) = true.

(** Induction on the tree, with the hypothesis on every child. *)
Fixpoint node_induction (P : node -> Prop)
    (HF : forall nm b, P (File nm b))
    (HD : forall nm children, Forall P children -> P (Dir nm children))
    (n : node) {struct n} : P n :=
  match n with
  | File nm b => HF nm b
  | Dir nm children =>
      HD nm children
         ((fix all (l : list node) : Forall P l :=
             match l with
             | [] => Forall_nil P
             | c :: l' => Forall_cons c (node_induction P HF HD c) (all l')
             end) children)
  end.

(** ** Example projects *)

(** A project directory in which [build] is a plain file. *)
Definition fs_build_file : node :=
  Dir [] [Dir (lit "proj") [File (lit "build") []; File (lit "a.txt") []]].

(** A project with a library directory. *)
Definition fs_lib : node :=
  Dir [] [Dir (lit "proj")
            [Dir (lit "lib") [File (lit "x.kt") []]; File (lit "a.txt") []]].

(** The same project, and the directory of the tool beside it. *)
Definition fs_tool : node :=
  Dir [] [Dir (lit "opt") [Dir (lit "tool") []];
          Dir (lit "proj")
            [Dir (lit "lib") [File (lit "x.kt") []]; File (lit "a.txt") []]].



(** A project with a cache directory that has a sub-directory. *)
Definition fs_pycache : node :=
  Dir [] [Dir (lit "proj")
            [Dir (lit "__pycache__")
               [Dir (lit "sub")
                  [File (lit "a.kt") (list_byte_of_string "val leak = 1")]];
             Dir (lit "app")
               [File (lit "Main.kt") (list_byte_of_string "fun main(){}")]]].

(** A project whose [.gitignore] and [README.md] hold the byte 0xFF,
    which is not UTF-8, as do a source file and a build script. *)
Definition fs_undecodable : node :=
  Dir [] [Dir (lit "proj")
            [File (lit ".gitignore") [Byte.xff];
             File (lit "README.md") [Byte.xff];
             File (lit "Main.kt") [Byte.x61; Byte.xff; Byte.x62];
             File (lit "build.gradle.kts") [Byte.xff; Byte.x63]]].

(** A project with a library that holds a build script, and a nested
    directory of sources. *)
Definition fs_user : node :=
  Dir [] [Dir (lit "proj")
            [Dir (lit "app")
               [Dir (lit "sub")
                  [File (lit "file.kt") (list_byte_of_string "fun f(){}")];
                File (lit "Main.kt") (list_byte_of_string "fun main(){}")];
             Dir (lit "lib")
               [File (lit "x.kt") (list_byte_of_string "val x = 1");
                File (lit "build.gradle.kts") (list_byte_of_string "plugins {}")]]].

(** The entry [app] of a listing, with a stand-in for the recursive
    call. *)
Definition item_app : item :=
  {| item_name := lit "app";
     item_descend := Some (fun _ indent => Ok (indent ++ lit "- Main.kt" ++ NL)) |}.

(** ** Further vocabulary: the generation, the full listing, the sort *)

(** The file system [generate_markdown_with_excludes] leaves. *)
Definition after_generation (cwd : str) (fs : node) (directory output : str)
    (users : list str) : node :=
  fst (generate_markdown_with_excludes cwd fs directory output users).

(** The full listing in the words of the specification: every entry
    that is not excluded is one line, and every directory among them is
    followed by its own full listing, indented by two more spaces. *)
Definition full_item (cwd : str) (exclude_patterns : list str) (root_dir : str)
    (directory indent : str) (it : item) (structure : str) : result str :=
  excluded <- should_exclude cwd (join2 directory (item_name it))
                exclude_patterns root_dir ;;
  if excluded then Ok structure
  else
    match item_descend it with
    | Some recurse =>
        sub <- recurse (join2 directory (item_name it)) (indent ++ lit "  ") ;;
        Ok (structure ++ (indent ++ lit "- " ++ item_name it ++ lit "/" ++ NL) ++ sub)
    | None => Ok (structure ++ (indent ++ lit "- " ++ item_name it ++ NL))
    end.

Fixpoint full_items (cwd : str) (exclude_patterns : list str) (root_dir : str)
    (directory indent : str) (items : list item) (structure : str) : result str :=
  match items with
  | [] => Ok structure
  | it :: rest =>
      structure' <- full_item cwd exclude_patterns root_dir directory indent it
                      structure ;;
      full_items cwd exclude_patterns root_dir directory indent rest structure'
  end.

Fixpoint full_structure (cwd : str) (exclude_patterns : list str) (root_dir : str)
    (n : node) (directory indent : str) {struct n} : result str :=
  match n with
  | File _ _ => Raise NotADirectoryError
  | Dir _ children =>
      full_items cwd exclude_patterns root_dir directory indent
        (sorted (map (fun c => {| item_name := node_name c;
                                  item_descend :=
                                    match c with
                                    | Dir _ _ =>
                                        Some (full_structure cwd exclude_patterns
                                                root_dir c)
                                    | File _ _ => None
                                    end |}) children)) []
  end.

(** The sort of [sorted], on the entries themselves. *)
Fixpoint insert_node (x : node) (l : list node) : list node :=
  match l with
  | [] => [x]
  | y :: l' => if leb (node_name x) (node_name y) then x :: l
               else y :: insert_node x l'
  end.

Fixpoint sort_nodes (l : list node) : list node :=
  match l with
  | [] => []
  | x :: l' => insert_node x (sort_nodes l')
  end.

(** ** The application (src/gui/app.py) *)

(** A node of the [Treeview] together with what the two dictionaries of
    the application hold for its id: its path in [node_path_map] and its
    flag in [node_checked_map].  The ids, which [tree.insert] draws
    fresh, are the positions in the tree; the order of the dictionaries,
    that of insertion, is the preorder of the tree. *)
#[warnings="-register-all"]
Inductive tree_node : Type :=
| TreeNode (text : str) (path : str) (checked : bool) (children : list tree_node).

(** An entry of [os.listdir(directory)] with what a loop asks about it:
    [os.path.isdir(item_path)] and, for a directory, the recursive call
    on it. *)
Record entry (A : Type) : Type := {
  entry_name : str;
  entry_descend : option (str -> A)
}.

(** [sorted(...)] on the names, as [sorted] above. *)
Fixpoint insert_entry (A : Type) (x : entry A) (l : list (entry A))
  : list (entry A) :=
  match l with
  | [] => [x]
  | y :: l' => if leb (entry_name A x) (entry_name A y) then x :: l
               else y :: insert_entry A x l'
  end.

Fixpoint sorted_entries (A : Type) (l : list (entry A)) : list (entry A) :=
  match l with
  | [] => []
  | x :: l' => insert_entry A x (sorted_entries A l')
  end.

(** One turn of the loop of [_add_children]: the nodes it inserts below
    the parent. *)
Definition add_child (cwd : str) (exclude_patterns : list str) (directory : str)
    (it : entry (result (list tree_node))) : result (list tree_node) :=
  let item := entry_name _ it in
  let item_path := join2 directory item in
  excluded <- should_exclude cwd item_path exclude_patterns directory ;;
  if excluded then Ok []
  else
    match entry_descend _ it with
    | Some recurse =>
        below <- recurse item_path ;;
        Ok [TreeNode item item_path true below]
    | None => Ok [TreeNode item item_path true []]
    end.

Fixpoint add_children_loop (cwd : str) (exclude_patterns : list str)
    (directory : str) (items : list (entry (result (list tree_node))))
  : result (list tree_node) :=
  match items with
  | [] => Ok []
  | it :: rest =>
      nodes <- add_child cwd exclude_patterns directory it ;;
      more <- add_children_loop cwd exclude_patterns directory rest ;;
      Ok (nodes ++ more)
  end.

(** [_add_children(parent_node_id, directory, exclude_patterns)] on the
    directory [n] found at the path [directory]: the nodes inserted
    below the parent. *)
Fixpoint add_children (cwd : str) (exclude_patterns : list str) (n : node)
    (directory : str) {struct n} : result (list tree_node) :=
  match n with
  | File _ _ => Raise NotADirectoryError
  | Dir _ children =>
      let items :=
        map (fun c => {| entry_name := node_name c;
                         entry_descend :=
                           match c with
                           | Dir _ _ => Some (add_children cwd exclude_patterns c)
                           | File _ _ => None
                           end |}) children in
      add_children_loop cwd exclude_patterns directory (sorted_entries _ items)
  end.

(** [populate_treeview(directory)]: the tree it leaves. *)
Definition populate_treeview (cwd : str) (fs : node) (directory : str)
  : result tree_node :=
  exclude_patterns <- parse_gitignore cwd fs directory ;;
  match resolve cwd fs directory with
  | Some n =>
      below <- add_children cwd exclude_patterns n directory ;;
      Ok (TreeNode (basename directory) directory true below)
  | None => Raise FileNotFoundError
  end.

(** [get_unchecked_paths()] *)
Fixpoint get_unchecked_paths (t : tree_node) : list str :=
  match t with
  | TreeNode _ path checked children =>
      (if checked then [] else [path]) ++ flat_map get_unchecked_paths children
  end.

(** [set_node_state(item_id, new_state)] on the node [t]. *)
Fixpoint set_node_state (new_state : bool) (t : tree_node) : tree_node :=
  match t with
  | TreeNode text path _ children =>
      TreeNode text path new_state (map (set_node_state new_state) children)
  end.

(** The node at a position: the indices of the children to follow from
    the root. *)
Fixpoint node_at (pos : list nat) (t : tree_node) : option tree_node :=
  match pos, t with
  | [], _ => Some t
  | i :: pos', TreeNode _ _ _ children =>
      match nth_error children i with
      | Some c => node_at pos' c
      | None => None
      end
  end.

Fixpoint update_nth (A : Type) (i : nat) (f : A -> A) (l : list A) : list A :=
  match i, l with
  | _, [] => []
  | O, x :: l' => f x :: l'
  | S i', x :: l' => x :: update_nth A i' f l'
  end.

Fixpoint update_at (pos : list nat) (f : tree_node -> tree_node) (t : tree_node)
  : tree_node :=
  match pos, t with
  | [], _ => f t
  | i :: pos', TreeNode text path checked children =>
      TreeNode text path checked (update_nth _ i (update_at pos' f) children)
  end.

(** [on_item_double_click(event)] for a click in the tree region on the
    row of the node at [pos]; a click on no row changes nothing. *)
Definition on_item_double_click (pos : list nat) (t : tree_node) : tree_node :=
  match node_at pos t with
  | Some (TreeNode _ _ current_state _) =>
      update_at pos (set_node_state (negb current_state)) t
  | None => t
  end.

(** The paths of a node and of the nodes below it, in the order of
    insertion. *)
Fixpoint node_paths (t : tree_node) : list str :=
  match t with
  | TreeNode _ path _ children => path :: flat_map node_paths children
  end.

(** What [should_exclude] makes of an entry when the root is the
    directory the entry lies in: its relative path is its name. *)
Definition name_excluded (exclude_patterns : list str) (name : str) : bool :=
  let relative_path := replace BACKSLASH SLASH name in
  exclude_loop relative_path (split SLASH relative_path) exclude_patterns.

(** The preview in the words of the name alone: an entry is shown when
    the patterns do not exclude its name, a directory with the entries
    shown below it. *)
Definition shown_child (exclude_patterns : list str) (directory : str)
    (it : entry (list tree_node)) : list tree_node :=
  let item := entry_name _ it in
  let item_path := join2 directory item in
  if name_excluded exclude_patterns item then []
  else
    match entry_descend _ it with
    | Some below => [TreeNode item item_path true (below item_path)]
    | None => [TreeNode item item_path true []]
    end.

Fixpoint shown_by_name (exclude_patterns : list str) (n : node)
    (directory : str) {struct n} : list tree_node :=
  match n with
  | File _ _ => []
  | Dir _ children =>
      let items :=
        map (fun c => {| entry_name := node_name c;
                         entry_descend :=
                           match c with
                           | Dir _ _ => Some (shown_by_name exclude_patterns c)
                           | File _ _ => None
                           end |}) children in
      flat_map (shown_child exclude_patterns directory) (sorted_entries _ items)
  end.

(** Induction on the tree of the preview, with the hypothesis on every
    child. *)
Fixpoint tree_node_induction (P : tree_node -> Prop)
    (H : forall text path checked children,
        Forall P children -> P (TreeNode text path checked children))
    (t : tree_node) {struct t} : P t :=
  match t with
  | TreeNode text path checked children =>
      H text path checked children
        ((fix all (l : list tree_node) : Forall P l :=
            match l with
            | [] => Forall_nil P
            | c :: l' => Forall_cons c (tree_node_induction P H c) (all l')
            end) children)
  end.

(** * Facts about strings *)

Lemma str_eqb_refl (a : str) : eqb a a = true.
Proof.
  induction a as [|x a IH]; simpl; [reflexivity|].
  now rewrite N.eqb_refl, IH.
Qed.

Lemma str_eqb_eq (a b : str) : eqb a b = true <-> a = b.
Proof.
  split.
  - revert b. induction a as [|x a IH]; intros [|y b]; simpl; try discriminate; auto.
    intros H. apply andb_true_iff in H as [H1 H2].
    apply N.eqb_eq in H1. subst. f_equal. now apply IH.
  - intros ->. apply str_eqb_refl.
Qed.

Lemma str_eqb_neq (a b : str) : eqb a b = false <-> a <> b.
Proof.
  split.
  - intros H E. subst. rewrite str_eqb_refl in H. discriminate.
  - intros H. destruct (eqb a b) eqn:E; [|reflexivity].
    apply str_eqb_eq in E. contradiction.
Qed.

Lemma str_eqb_sym (a b : str) : eqb a b = eqb b a.
Proof.
  destruct (eqb a b) eqn:E.
  - apply str_eqb_eq in E. subst. now rewrite str_eqb_refl.
  - symmetry. apply str_eqb_neq. apply str_eqb_neq in E. congruence.
Qed.

Lemma mem_In (x : str) (l : list str) : mem x l = true <-> In x l.
Proof.
  unfold mem. rewrite existsb_exists. split.
  - intros [y [Hy E]]. apply str_eqb_eq in E. now subst.
  - intros H. exists x. split; [assumption|apply str_eqb_refl].
Qed.

Lemma split_not_nil (sep : char) (s : str) : split sep s <> [].
Proof.
  induction s as [|c s IH]; simpl; [discriminate|].
  destruct (N.eqb c sep); [discriminate|].
  destruct (split sep s); [contradiction|discriminate].
Qed.

Lemma split_app_sep (sep : char) (a b : str) :
  split sep (a ++ sep :: b) = split sep a ++ split sep b.
Proof.
  induction a as [|c a IH]; simpl.
  - now rewrite N.eqb_refl.
  - destruct (N.eqb c sep).
    + now rewrite IH.
    + rewrite IH. pose proof (split_not_nil sep a) as Hn.
      destruct (split sep a); [contradiction|reflexivity].
Qed.

Lemma split_nosep (sep : char) (a : str) :
  existsb (N.eqb sep) a = false -> split sep a = [a].
Proof.
  induction a as [|c a IH]; simpl; [reflexivity|].
  intros H. apply orb_false_iff in H as [H1 H2].
  rewrite N.eqb_sym, H1. now rewrite IH.
Qed.

Lemma split_no_sep_inside (sep : char) (s : str) :
  Forall (fun w => existsb (N.eqb sep) w = false) (split sep s).
Proof.
  induction s as [|c s IH]; simpl.
  - constructor; [reflexivity|constructor].
  - destruct (N.eqb c sep) eqn:E.
    + constructor; [reflexivity|assumption].
    + pose proof (split_not_nil sep s) as Hn.
      destruct (split sep s) as [|w ws]; [contradiction|].
      inversion IH; subst. constructor; [|assumption].
      simpl. rewrite N.eqb_sym, E. assumption.
Qed.

Lemma startswith_nil (s : str) : startswith s [] = true.
Proof. now destruct s. Qed.

Lemma startswith_app (p s : str) : startswith (p ++ s) p = true.
Proof.
  induction p as [|c p IH]; simpl; [apply startswith_nil|].
  now rewrite N.eqb_refl, IH.
Qed.

Lemma startswith_inv (s p : str) :
  startswith s p = true -> exists r, s = p ++ r.
Proof.
  revert s. induction p as [|c p IH]; intros s H; simpl in *.
  - now exists s.
  - destruct s as [|x s]; [discriminate|].
    apply andb_true_iff in H as [H1 H2]. apply N.eqb_eq in H1. subst.
    destruct (IH _ H2) as [r ->]. now exists r.
Qed.

Lemma endswith_app (s p : str) : endswith (s ++ p) p = true.
Proof.
  unfold endswith. rewrite rev_app_distr. apply startswith_app.
Qed.

Lemma endswith_inv (s p : str) :
  endswith s p = true -> exists r, s = r ++ p.
Proof.
  unfold endswith. intros H. apply startswith_inv in H as [r Hr].
  exists (rev r). rewrite <- (rev_involutive s), Hr, rev_app_distr.
  now rewrite rev_involutive.
Qed.

Lemma rstrip_sep (c : char) (s : str) :
  rstrip c (s ++ [c]) = rstrip c s.
Proof.
  induction s as [|y s IH]; simpl.
  - now rewrite N.eqb_refl.
  - now rewrite IH.
Qed.

Lemma replace_app (a b : char) (s t : str) :
  replace a b (s ++ t) = replace a b s ++ replace a b t.
Proof. unfold replace. apply map_app. Qed.

Lemma replace_id (a b : char) (s : str) :
  existsb (N.eqb a) s = false -> replace a b s = s.
Proof.
  unfold replace. induction s as [|c s IH]; simpl; [reflexivity|].
  intros H. apply orb_false_iff in H as [H1 H2].
  rewrite N.eqb_sym, H1. now rewrite IH.
Qed.

(** * Facts about paths *)

Lemma regular_inv (c : str) :
  regular c = true ->
  c <> [] /\ existsb (N.eqb SLASH) c = false /\ eqb c (lit ".") = false
  /\ eqb c (lit "..") = false.
Proof.
  unfold regular. intros H.
  repeat (apply andb_true_iff in H as [H ?]).
  repeat match goal with
         | [ X : negb _ = true |- _ ] => apply negb_true_iff in X
         end.
  repeat split; try assumption.
  intros ->. discriminate.
Qed.

Lemma regular_not_abs (c : str) : regular c = true -> isabs c = false.
Proof.
  intros H. apply regular_inv in H as (_ & H & _).
  unfold isabs. destruct c as [|x c]; [reflexivity|].
  cbn [existsb startswith] in *. apply orb_false_iff in H as [H _].
  rewrite N.eqb_sym in H. rewrite H. reflexivity.
Qed.

Lemma normpath_step_empty (k : nat) (acc : list str) :
  normpath_step k acc [] = acc.
Proof. reflexivity. Qed.

Lemma normpath_step_regular (k : nat) (acc : list str) (c : str) :
  regular c = true -> normpath_step k acc c = acc ++ [c].
Proof.
  intros H. apply regular_inv in H as (H1 & _ & H3 & H4).
  unfold normpath_step. rewrite H3, H4.
  destruct c; [contradiction|]. reflexivity.
Qed.

Lemma normpath_step_slashes (k1 k2 : nat) (acc : list str) (c : str) :
  Nat.eqb k1 0 = Nat.eqb k2 0 -> normpath_step k1 acc c = normpath_step k2 acc c.
Proof. unfold normpath_step. intros ->. reflexivity. Qed.

Lemma fold_step_slashes (k1 k2 : nat) (l acc : list str) :
  Nat.eqb k1 0 = Nat.eqb k2 0 ->
  fold_left (normpath_step k1) l acc = fold_left (normpath_step k2) l acc.
Proof.
  intros H. revert acc. induction l as [|c l IH]; intros acc; simpl; [reflexivity|].
  rewrite (normpath_step_slashes k1 k2 acc c H). apply IH.
Qed.

Lemma initial_slashes_isabs (p : str) :
  Nat.eqb (initial_slashes p) 0 = negb (isabs p).
Proof.
  unfold initial_slashes, isabs.
  destruct (startswith p [SLASH]); [|reflexivity].
  destruct (_ && _); reflexivity.
Qed.

Lemma isabs_app (a b : str) : isabs a = true -> isabs (a ++ b) = true.
Proof.
  unfold isabs. destruct a as [|x a]; [discriminate|].
  cbn [app startswith]. rewrite !startswith_nil. auto.
Qed.

Lemma isabs_app_nonempty (a b : str) : a <> [] -> isabs (a ++ b) = isabs a.
Proof.
  unfold isabs. destruct a as [|x a]; [contradiction|]. intros _.
  cbn [app startswith]. rewrite !startswith_nil. reflexivity.
Qed.

Lemma join2_rel (a b : str) :
  isabs b = false ->
  join2 a b = if is_empty a || endswith a [SLASH] then a ++ b else a ++ [SLASH] ++ b.
Proof. unfold join2, isabs. intros ->. reflexivity. Qed.

Lemma isabs_join2 (a b : str) :
  isabs b = false -> a <> [] -> isabs (join2 a b) = isabs a.
Proof.
  intros Hb Ha. rewrite join2_rel by assumption.
  destruct (_ || _); apply isabs_app_nonempty; assumption.
Qed.

Lemma fold_split_join2 (k : nat) (a b : str) (acc : list str) :
  isabs b = false ->
  fold_left (normpath_step k) (split SLASH (join2 a b)) acc
  = fold_left (normpath_step k) (split SLASH b)
      (fold_left (normpath_step k) (split SLASH a) acc).
Proof.
  intros Hb. rewrite join2_rel by assumption.
  destruct a as [|x a].
  - reflexivity.
  - cbn [is_empty orb].
    destruct (endswith (x :: a) [SLASH]) eqn:E.
    + apply endswith_inv in E as [r Hr]. rewrite Hr.
      rewrite <- app_assoc. cbn [app].
      rewrite !split_app_sep, !fold_left_app. reflexivity.
    + cbn [app]. change (x :: a ++ SLASH :: b) with ((x :: a) ++ SLASH :: b).
      rewrite split_app_sep, fold_left_app. reflexivity.
Qed.

Lemma isabs_full (cwd path : str) :
  isabs cwd = true -> isabs (full cwd path) = true.
Proof.
  intros Hc. unfold full. destruct (isabs path) eqn:E; [assumption|].
  rewrite join2_rel by assumption.
  destruct (_ || _); apply isabs_app; assumption.
Qed.

Lemma Forall_removelast {A : Type} (P : A -> Prop) (l : list A) :
  Forall P l -> Forall P (removelast l).
Proof.
  induction 1 as [|x l Hx Hl IH]; simpl; [constructor|].
  destruct l; [constructor|]. constructor; assumption.
Qed.

Lemma normpath_step_clean (k : nat) (acc : list str) (c : str) :
  Forall clean acc -> existsb (N.eqb SLASH) c = false ->
  Forall clean (normpath_step k acc c).
Proof.
  intros Ha Hc. unfold normpath_step.
  destruct (eqb c [] || eqb c (lit ".")) eqn:E; [assumption|].
  destruct (_ || _ || _).
  - apply Forall_app. split; [assumption|]. constructor; [|constructor].
    split; [|assumption]. intros ->. discriminate.
  - apply Forall_removelast. assumption.
Qed.

Lemma fold_step_clean (k : nat) (l acc : list str) :
  Forall clean acc -> Forall (fun w => existsb (N.eqb SLASH) w = false) l ->
  Forall clean (fold_left (normpath_step k) l acc).
Proof.
  revert acc. induction l as [|c l IH]; intros acc Ha Hl; simpl; [assumption|].
  inversion Hl; subst. apply IH; [|assumption].
  apply normpath_step_clean; assumption.
Qed.

Lemma normpath_comps_clean (p : str) : Forall clean (normpath_comps p).
Proof.
  unfold normpath_comps. apply fold_step_clean; [constructor|].
  apply split_no_sep_inside.
Qed.

Lemma split_join_clean (comps : list str) :
  Forall clean comps ->
  filter nonempty (split SLASH (Str.join [SLASH] comps)) = comps.
Proof.
  induction 1 as [|x l [Hx1 Hx2] Hl IH]; [reflexivity|].
  destruct l as [|y l].
  - simpl. rewrite split_nosep by assumption. simpl.
    destruct x; [contradiction|reflexivity].
  - change (Str.join [SLASH] (x :: y :: l))
      with (x ++ SLASH :: Str.join [SLASH] (y :: l)).
    rewrite split_app_sep, filter_app, IH.
    rewrite split_nosep by assumption. simpl.
    destruct x; [contradiction|reflexivity].
Qed.

Lemma split_cons_sep (sep : char) (s : str) :
  split sep (sep :: s) = [] :: split sep s.
Proof. cbn [split]. now rewrite N.eqb_refl. Qed.

Lemma abs_comps_normpath (cwd path : str) :
  isabs cwd = true ->
  abs_comps cwd path = normpath_comps (full cwd path).
Proof.
  intros Hc. unfold abs_comps, abspath. fold (full cwd path).
  pose proof (isabs_full cwd path Hc) as Hf.
  pose proof (normpath_comps_clean (full cwd path)) as Hcl.
  unfold normpath.
  destruct (full cwd path) as [|x q] eqn:Eq; [discriminate|].
  cbn [is_empty].
  unfold initial_slashes. unfold isabs in Hf. rewrite Hf.
  destruct (_ && _); cbn [repeat app is_empty];
    rewrite !split_cons_sep; cbn [filter nonempty is_empty negb];
    apply split_join_clean; assumption.
Qed.

Lemma abs_comps_join2 (cwd root name : str) :
  isabs cwd = true -> regular name = true ->
  abs_comps cwd (join2 root name) = abs_comps cwd root ++ [name].
Proof.
  intros Hc Hn. rewrite !abs_comps_normpath by assumption.
  pose proof (regular_not_abs name Hn) as Hna.
  pose proof (regular_inv name Hn) as (Hne & Hns & _).
  assert (Hstep : forall k acc,
             fold_left (normpath_step k) (split SLASH name) acc = acc ++ [name]).
  { intros k acc. rewrite split_nosep by assumption. simpl.
    apply normpath_step_regular. assumption. }
  unfold normpath_comps, full.
  destruct (isabs root) eqn:Er.
  - assert (Hr : root <> []) by (intros ->; discriminate).
    rewrite (isabs_join2 root name Hna Hr), Er.
    rewrite (fold_step_slashes (initial_slashes (join2 root name)) (initial_slashes root)).
    + rewrite fold_split_join2 by assumption. apply Hstep.
    + rewrite !initial_slashes_isabs, (isabs_join2 root name Hna Hr). reflexivity.
  - assert (Hj : isabs (join2 root name) = false).
    { destruct root as [|x r].
      - unfold join2. unfold isabs in Hna. rewrite Hna. simpl. assumption.
      - rewrite isabs_join2; [assumption|assumption|discriminate]. }
    rewrite Hj.
    rewrite (fold_step_slashes (initial_slashes (join2 cwd (join2 root name)))
               (initial_slashes (join2 cwd root))).
    + rewrite fold_split_join2 by assumption.
      rewrite fold_split_join2 by assumption.
      rewrite Hstep.
      rewrite (fold_split_join2 _ cwd root) by assumption. reflexivity.
    + rewrite !initial_slashes_isabs.
      assert (Hcn : cwd <> []) by (intros ->; discriminate).
      rewrite !isabs_join2; auto.
Qed.

Lemma abs_comps_join_all (cwd root : str) (ns : list str) :
  isabs cwd = true -> Forall (fun n => regular n = true) ns ->
  abs_comps cwd (join_all root ns) = abs_comps cwd root ++ ns.
Proof.
  intros Hc Hns. revert root. induction Hns as [|n ns Hn _ IH]; intros root.
  - simpl. now rewrite app_nil_r.
  - change (join_all root (n :: ns)) with (join_all (join2 root n) ns).
    rewrite IH, abs_comps_join2 by assumption.
    now rewrite <- app_assoc.
Qed.

Lemma commonprefix_app (l r : list str) : commonprefix l (l ++ r) = l.
Proof.
  induction l as [|x l IH]; cbn [commonprefix app].
  - now destruct r.
  - now rewrite str_eqb_refl, IH.
Qed.

Lemma endswith_app_nosep (a b : str) :
  b <> [] -> existsb (N.eqb SLASH) b = false ->
  endswith (a ++ b) [SLASH] = false.
Proof.
  intros Hb Hs. unfold endswith. rewrite rev_app_distr.
  destruct (rev b) as [|y r] eqn:E.
  - apply (f_equal (@rev char)) in E. rewrite rev_involutive in E.
    contradiction.
  - assert (Hy : In y b).
    { apply in_rev. rewrite E. now left. }
    assert (Hn : N.eqb SLASH y = false).
    { destruct (N.eqb SLASH y) eqn:Ey; [|reflexivity].
      rewrite <- Hs. symmetry. apply existsb_exists. now exists y. }
    cbn [app rev startswith]. rewrite N.eqb_sym, Hn. reflexivity.
Qed.

Lemma join2_extensible (a b : str) :
  extensible a -> regular b = true ->
  join2 a b = a ++ SLASH :: b /\ extensible (a ++ SLASH :: b).
Proof.
  intros [Ha He] Hb. pose proof (regular_not_abs b Hb) as Hna.
  pose proof (regular_inv b Hb) as (Hne & Hns & _).
  rewrite join2_rel by assumption. rewrite He.
  destruct a as [|x a]; [contradiction|]. cbn [is_empty orb]. split.
  - reflexivity.
  - split; [discriminate|].
    change ((x :: a) ++ SLASH :: b) with ((x :: a) ++ [SLASH] ++ b).
    rewrite app_assoc. apply endswith_app_nosep; assumption.
Qed.

Lemma regular_extensible (c : str) : regular c = true -> extensible c.
Proof.
  intros H. pose proof (regular_inv c H) as (Hne & Hns & _).
  split; [assumption|]. apply (endswith_app_nosep [] c); assumption.
Qed.

Lemma join_all_extensible (a : str) (cs : list str) :
  extensible a -> Forall (fun n => regular n = true) cs ->
  join_all a cs = Str.join [SLASH] (a :: cs).
Proof.
  intros Ha Hcs. revert a Ha. induction Hcs as [|c cs Hc _ IH]; intros a Ha.
  - reflexivity.
  - change (join_all a (c :: cs)) with (join_all (join2 a c) cs).
    destruct (join2_extensible a c Ha Hc) as [-> He].
    rewrite IH by assumption.
    destruct cs as [|d cs]; cbn [Str.join]; [reflexivity|].
    rewrite <- !app_assoc. reflexivity.
Qed.

Lemma join2_nonempty (a b : str) : b <> [] -> join2 a b <> [].
Proof.
  intros Hb. unfold join2.
  destruct (startswith b [SLASH]); [assumption|].
  destruct (_ || _); intros E; apply app_eq_nil in E as [_ E];
    [contradiction|discriminate].
Qed.

Lemma join_all_nonempty (root : str) (ns : list str) :
  Forall (fun n => regular n = true) ns -> ns <> [] -> join_all root ns <> [].
Proof.
  intros Hns Hne.
  destruct (exists_last Hne) as (ns' & n & ->).
  unfold join_all. rewrite fold_left_app. cbn [fold_left].
  apply join2_nonempty.
  apply Forall_app in Hns as [_ Hn]. inversion Hn; subst.
  now apply regular_inv in H1.
Qed.

Lemma relpath_join_all (cwd root : str) (ns : list str) :
  isabs cwd = true -> Forall (fun n => regular n = true) ns -> ns <> [] ->
  relpath cwd (join_all root ns) root = Ok (Str.join [SLASH] ns).
Proof.
  intros Hc Hns Hne. unfold relpath.
  pose proof (join_all_nonempty root ns Hns Hne) as Hp.
  destruct (join_all root ns) as [|x p] eqn:Ep; [contradiction|].
  cbn [is_empty]. rewrite <- Ep.
  change (filter nonempty (split SLASH (abspath cwd root)))
    with (abs_comps cwd root).
  change (filter nonempty (split SLASH (abspath cwd (join_all root ns))))
    with (abs_comps cwd (join_all root ns)).
  rewrite abs_comps_join_all by assumption.
  rewrite commonprefix_app, Nat.sub_diag, skipn_app, skipn_all, Nat.sub_diag.
  cbn [repeat app skipn].
  destruct ns as [|c cs]; [contradiction|].
  inversion Hns; subst.
  rewrite join_all_extensible; auto using regular_extensible.
Qed.

(** * Facts about the matcher *)

Lemma exclude_loop_existsb (rel : str) (parts pats : list str) :
  exclude_loop rel parts pats = existsb (pattern_matches rel parts) pats.
Proof.
  induction pats as [|p pats IH]; [reflexivity|].
  cbn [exclude_loop existsb]. unfold pattern_matches at 1.
  destruct (endswith p (lit "/")).
  - destruct (mem _ parts); [reflexivity|apply IH].
  - destruct (fnmatch rel p); [reflexivity|apply IH].
Qed.

Lemma translate_loop_literal (p : str) (res : list tok) :
  wildcard_free p = true ->
  translate_loop 0 res p = res ++ map LITERAL p.
Proof.
  revert res. induction p as [|c p IH]; intros res H.
  - simpl. now rewrite app_nil_r.
  - cbn [wildcard_free forallb] in H. apply andb_true_iff in H as [Hc Hp].
    apply negb_true_iff in Hc.
    apply orb_false_iff in Hc as [Hc H3]. apply orb_false_iff in Hc as [H1 H2].
    cbn [translate_loop]. rewrite H1, H2, H3.
    rewrite IH by assumption. rewrite <- app_assoc. reflexivity.
Qed.

Lemma matches_literal (p name : str) :
  matches (map LITERAL p) name = eqb name p.
Proof.
  revert name. induction p as [|c p IH]; intros name.
  - now destruct name.
  - destruct name as [|x name]; [reflexivity|].
    cbn [map matches tok_matches eqb]. now rewrite IH.
Qed.

Lemma fnmatch_literal (name p : str) :
  wildcard_free p = true -> fnmatch name p = eqb name p.
Proof.
  intros H. unfold fnmatch, translate.
  rewrite translate_loop_literal by assumption. apply matches_literal.
Qed.

Lemma str_eqb_length (a b : str) : eqb a b = true -> List.length a = List.length b.
Proof. intros H. apply str_eqb_eq in H. now subst. Qed.

(** A pattern [*lit] looks at the end of the name only. *)
Lemma matches_star_literal_app (p s t : str) :
  List.length p <= List.length t ->
  matches (STAR :: map LITERAL p) (s ++ t) = matches (STAR :: map LITERAL p) t.
Proof.
  intros Hl. induction s as [|c s IH]; [reflexivity|].
  cbn [app]. cbn [matches] in *. rewrite IH.
  rewrite matches_literal.
  destruct (eqb (c :: s ++ t) p) eqn:E; [|reflexivity].
  apply str_eqb_length in E. cbn [List.length] in E.
  rewrite length_app in E. lia.
Qed.

Lemma str_eqb_app_suffix (s t p : str) :
  endswith p t = false -> eqb (s ++ t) p = false.
Proof.
  intros H. apply str_eqb_neq. intros E. subst.
  now rewrite endswith_app in H.
Qed.

Lemma exclude_loop_false (rel : str) (parts pats : list str) :
  exclude_loop rel parts pats = false
  <-> Forall (fun p => pattern_matches rel parts p = false) pats.
Proof.
  rewrite exclude_loop_existsb. induction pats as [|p pats IH]; cbn [existsb].
  - split; [constructor|reflexivity].
  - rewrite orb_false_iff, IH. split.
    + intros [H1 H2]. now constructor.
    + intros H. inversion H; subst. now split.
Qed.

Lemma exclude_loop_true (rel : str) (parts pats : list str) :
  exclude_loop rel parts pats = true
  <-> exists p, In p pats /\ pattern_matches rel parts p = true.
Proof. rewrite exclude_loop_existsb. apply existsb_exists. Qed.

Lemma existsb_permutation {A : Type} (f : A -> bool) (l1 l2 : list A) :
  Permutation l1 l2 -> existsb f l1 = existsb f l2.
Proof.
  induction 1 as [|x l l' _ IH|x y l|l l' l'' _ IH1 _ IH2]; cbn [existsb].
  - reflexivity.
  - now rewrite IH.
  - now destruct (f x), (f y).
  - now rewrite IH1.
Qed.

Lemma pattern_matches_dir (rel p : str) (parts : list str) :
  endswith p (lit "/") = true ->
  pattern_matches rel parts p = mem (rstrip SLASH p) parts.
Proof. unfold pattern_matches. now intros ->. Qed.

Lemma pattern_matches_file (rel p : str) (parts : list str) :
  endswith p (lit "/") = false ->
  pattern_matches rel parts p = fnmatch rel p.
Proof. unfold pattern_matches. now intros ->. Qed.

Lemma no_separator_not_dir (p : str) :
  has_separator p = false -> endswith p (lit "/") = false.
Proof.
  intros H. destruct (endswith p (lit "/")) eqn:E; [|reflexivity].
  apply endswith_inv in E as [r ->].
  unfold has_separator in H. rewrite existsb_app in H.
  apply orb_false_iff in H as [_ H]. discriminate.
Qed.

Lemma replace_slash_join (ns : list str) :
  replace BACKSLASH SLASH (Str.join [SLASH] ns)
  = Str.join [SLASH] (map (replace BACKSLASH SLASH) ns).
Proof.
  induction ns as [|x ns IH]; [reflexivity|].
  destruct ns as [|y ns]; [reflexivity|].
  change (Str.join [SLASH] (x :: y :: ns))
    with (x ++ [SLASH] ++ Str.join [SLASH] (y :: ns)).
  rewrite !replace_app, IH. reflexivity.
Qed.

Lemma split_join (ns : list str) :
  ns <> [] ->
  split SLASH (Str.join [SLASH] ns) = flat_map (split SLASH) ns.
Proof.
  induction ns as [|x ns IH]; [contradiction|]. intros _.
  destruct ns as [|y ns].
  - cbn [Str.join flat_map]. now rewrite app_nil_r.
  - change (Str.join [SLASH] (x :: y :: ns))
      with (x ++ SLASH :: Str.join [SLASH] (y :: ns)).
    rewrite split_app_sep, IH by discriminate. reflexivity.
Qed.

Lemma split_rel_of (ns : list str) :
  ns <> [] -> split SLASH (rel_of ns) = parts_of ns.
Proof.
  intros H. unfold rel_of, parts_of. rewrite replace_slash_join.
  rewrite split_join by (destruct ns; [contradiction|discriminate]).
  now rewrite flat_map_concat_map, map_map, <- flat_map_concat_map.
Qed.

Lemma should_exclude_join_all (cwd root : str) (ns pats : list str) :
  isabs cwd = true -> Forall (fun n => regular n = true) ns -> ns <> [] ->
  should_exclude cwd (join_all root ns) pats root
  = Ok (exclude_loop (rel_of ns) (parts_of ns) pats).
Proof.
  intros Hc Hns Hne. unfold should_exclude.
  rewrite relpath_join_all by assumption. cbn [bind].
  fold (rel_of ns). now rewrite split_rel_of.
Qed.

Lemma join_snoc (ns : list str) (x : str) :
  ns <> [] -> Str.join [SLASH] (ns ++ [x]) = Str.join [SLASH] ns ++ SLASH :: x.
Proof.
  induction ns as [|y ns IH]; [contradiction|]. intros _.
  destruct ns as [|z ns]; [reflexivity|].
  change (Str.join [SLASH] ((y :: z :: ns) ++ [x]))
    with (y ++ [SLASH] ++ Str.join [SLASH] ((z :: ns) ++ [x])).
  rewrite IH by discriminate.
  change (Str.join [SLASH] (y :: z :: ns))
    with (y ++ [SLASH] ++ Str.join [SLASH] (z :: ns)).
  now rewrite <- !app_assoc.
Qed.

Lemma rel_of_snoc (ns : list str) (x : str) :
  ns <> [] -> no_backslash x = true ->
  rel_of (ns ++ [x]) = rel_of ns ++ SLASH :: x.
Proof.
  intros Hne Hx. unfold rel_of. rewrite join_snoc by assumption.
  rewrite replace_app. cbn [replace map]. f_equal. f_equal.
  apply replace_id. unfold no_backslash in Hx. now apply negb_true_iff in Hx.
Qed.

Lemma parts_of_snoc (ns : list str) (x : str) :
  no_backslash x = true -> has_separator x = false ->
  parts_of (ns ++ [x]) = parts_of ns ++ [x].
Proof.
  intros Hb Hs. unfold parts_of. rewrite flat_map_app. cbn [flat_map].
  rewrite app_nil_r. f_equal.
  rewrite replace_id by (unfold no_backslash in Hb; now apply negb_true_iff in Hb).
  apply split_nosep. assumption.
Qed.

Lemma mem_app (x : str) (l1 l2 : list str) :
  mem x (l1 ++ l2) = mem x l1 || mem x l2.
Proof. unfold mem. apply existsb_app. Qed.

(** C8: [should_exclude] does not depend on the order of the patterns,
    and it answers true exactly when some pattern of the list matches
    the root-relative path. *)
Theorem should_exclude_order_irrelevant (cwd path root : str) (ps qs : list str) :
  Permutation ps qs ->
  should_exclude cwd path ps root = should_exclude cwd path qs root
  /\ (should_exclude cwd path ps root = Ok true <->
      exists rel, relpath cwd path root = Ok rel
        /\ exists pattern, In pattern ps
             /\ pattern_matches (replace BACKSLASH SLASH rel)
                  (split SLASH (replace BACKSLASH SLASH rel)) pattern = true).
Proof.
  intros HP. unfold should_exclude.
  destruct (relpath cwd path root) as [rel|e]; cbn [bind].
  - split.
    + rewrite !exclude_loop_existsb. f_equal. now apply existsb_permutation.
    + split.
      * intros H. injection H as H. exists rel. split; [reflexivity|].
        now apply exclude_loop_true.
      * intros (rel' & E & Hp). injection E as <-. f_equal.
        now apply exclude_loop_true.
  - split; [reflexivity|]. split; [discriminate|].
    intros (rel & E & _). discriminate.
Qed.

(** The theorem above at a concrete input. *)
Lemma should_exclude_order_irrelevant_witness :
  Permutation [lit "build/"; lit "*.log"] [lit "*.log"; lit "build/"]
  /\ should_exclude (lit "/") (lit "/proj/a/build") [lit "build/"; lit "*.log"] (lit "/proj")
     = should_exclude (lit "/") (lit "/proj/a/build") [lit "*.log"; lit "build/"] (lit "/proj").
Proof.
  split; [apply perm_swap|].
  apply (proj1 (should_exclude_order_irrelevant (lit "/") (lit "/proj/a/build")
                  (lit "/proj") [lit "build/"; lit "*.log"]
                  [lit "*.log"; lit "build/"] (perm_swap _ _ _))).
Defined.

(** C5, as stated, fails: the bare pattern [*.log] matches a relative
    path with an intervening directory. *)
Lemma bare_pattern_crosses_directories :
  has_separator (lit "*.log") = false
  /\ relpath (lit "/") (lit "/proj/logs/a.log") (lit "/proj") = Ok (lit "logs/a.log")
  /\ has_separator (lit "logs/a.log") = true
  /\ pattern_matches (lit "logs/a.log") (split SLASH (lit "logs/a.log")) (lit "*.log") = true
  /\ should_exclude (lit "/") (lit "/proj/logs/a.log") [lit "*.log"] (lit "/proj") = Ok true.
Proof. vm_compute. repeat split. Qed.

(** C5, amended: a pattern without a separator and without wildcard
    characters matches exactly the relative path equal to it, hence
    only a relative path without intervening directories. *)
Theorem literal_pattern_matches_exact (cwd path root pattern : str) :
  has_separator pattern = false -> wildcard_free pattern = true ->
  (forall rel parts,
      (pattern_matches rel parts pattern = true <-> rel = pattern)
      /\ (pattern_matches rel parts pattern = true -> has_separator rel = false))
  /\ (should_exclude cwd path [pattern] root = Ok true <->
      exists rel, relpath cwd path root = Ok rel
                  /\ replace BACKSLASH SLASH rel = pattern).
Proof.
  intros Hs Hw.
  assert (Hm : forall rel parts,
             pattern_matches rel parts pattern = true <-> rel = pattern).
  { intros rel parts.
    rewrite pattern_matches_file by (now apply no_separator_not_dir).
    rewrite fnmatch_literal by assumption. apply str_eqb_eq. }
  split.
  - intros rel parts. split; [apply Hm|].
    intros H. apply Hm in H. now subst.
  - unfold should_exclude.
    destruct (relpath cwd path root) as [rel|e]; cbn [bind exclude_loop].
    + rewrite (no_separator_not_dir pattern Hs).
      rewrite fnmatch_literal by assumption. split.
      * intros H. exists rel. split; [reflexivity|].
        destruct (eqb (replace BACKSLASH SLASH rel) pattern) eqn:E;
          [now apply str_eqb_eq|discriminate].
      * intros (rel' & E & H). injection E as <-.
        apply str_eqb_eq in H. now rewrite H.
    + split; [discriminate|]. intros (rel & E & _). discriminate.
Qed.

(** The theorem above at a concrete input. *)
Lemma literal_pattern_matches_exact_witness :
  has_separator (lit "Thumbs.db") = false /\ wildcard_free (lit "Thumbs.db") = true
  /\ (pattern_matches (lit "a/Thumbs.db") [lit "a"; lit "Thumbs.db"] (lit "Thumbs.db") = true
      <-> lit "a/Thumbs.db" = lit "Thumbs.db").
Proof.
  split; [reflexivity|]. split; [reflexivity|].
  apply (proj1 (literal_pattern_matches_exact (lit "/") (lit "/proj/a/Thumbs.db")
                  (lit "/proj") (lit "Thumbs.db") eq_refl eq_refl)).
Defined.

(** C6, as stated, fails: with the only pattern [build/], a plain file
    named [build] is excluded. *)
Lemma build_file_excluded :
  isfile (lit "/") fs_build_file (lit "/proj/build") = true
  /\ should_exclude (lit "/") (lit "/proj/build") [lit "build/"] (lit "/proj") = Ok true
  /\ generate_file_structure (lit "/") fs_build_file (lit "/proj") [] [lit "build/"]
       (lit "/proj") None = Ok (lit "- a.txt" ++ NL).
Proof. vm_compute. repeat split. Qed.

(** C6, amended: with [build/] among the patterns, every path whose
    root-relative form has [build] as a segment is excluded, at any
    depth and the last segment included, whether it names a directory
    or a plain file. *)
Theorem build_segment_excluded (cwd root : str) (pats : list str) :
  In (lit "build/") pats ->
  (forall path rel,
      relpath cwd path root = Ok rel ->
      In (lit "build") (split SLASH (replace BACKSLASH SLASH rel)) ->
      should_exclude cwd path pats root = Ok true)
  /\ (isabs cwd = true ->
      forall ns, Forall (fun n => regular n = true) ns -> In (lit "build") ns ->
                 should_exclude cwd (join_all root ns) pats root = Ok true).
Proof.
  intros Hin.
  assert (Hp : forall rel parts, In (lit "build") parts ->
                                 exclude_loop rel parts pats = true).
  { intros rel parts H. apply exclude_loop_true. exists (lit "build/").
    split; [assumption|].
    rewrite pattern_matches_dir by reflexivity.
    apply mem_In. exact H. }
  split.
  - intros path rel Hr Hb. unfold should_exclude. rewrite Hr. cbn [bind].
    f_equal. now apply Hp.
  - intros Hc ns Hns Hb.
    assert (Hne : ns <> []) by (intros ->; contradiction).
    rewrite should_exclude_join_all by assumption. f_equal. apply Hp.
    unfold parts_of. apply in_flat_map. exists (lit "build").
    split; [assumption|]. now left.
Qed.

(** The theorem above at a concrete input. *)
Lemma build_segment_excluded_witness :
  In (lit "build/") standard_exclusions
  /\ should_exclude (lit "/") (join_all (lit "/proj") [lit "app"; lit "build"])
       standard_exclusions (lit "/proj") = Ok true.
Proof.
  assert (H : In (lit "build/") standard_exclusions).
  { unfold standard_exclusions. simpl. tauto. }
  split; [exact H|].
  apply (proj2 (build_segment_excluded (lit "/") (lit "/proj") standard_exclusions H)
           eq_refl [lit "app"; lit "build"]).
  - repeat constructor.
  - simpl. tauto.
Defined.

Lemma standard_dir_patterns (rel : str) (parts : list str) :
  exclude_loop rel parts standard_exclusions = false ->
  Forall (fun d => mem d parts = false)
    [lit ".git"; lit ".venv"; lit ".idea"; lit "node_modules"; lit "build";
     lit "dist"; lit ".env"; lit ".eggs"; lit "*.egg-info"; lit "generated";
     lit "outputs"; lit "androidTest"; lit "test"].
Proof.
  intros H. apply exclude_loop_false in H. unfold standard_exclusions in H.
  repeat match goal with
         | [ X : Forall _ (_ :: _) |- _ ] => inversion X; clear X; subst
         end.
  repeat match goal with
         | [ X : pattern_matches _ _ ?p = false |- _ ] =>
             first [ rewrite pattern_matches_dir in X by reflexivity
                   | clear X ]
         end.
  repeat (constructor; [assumption|]). constructor.
Qed.

(** What the standard exclusions ask of a path. *)
Lemma exclude_loop_standard (rel : str) (parts : list str) :
  Forall (fun d => mem d parts = false)
    [lit ".git"; lit ".venv"; lit ".idea"; lit "node_modules"; lit "build";
     lit "dist"; lit ".env"; lit ".eggs"; lit "*.egg-info"; lit "generated";
     lit "outputs"; lit "androidTest"; lit "test"] ->
  eqb rel (lit ".DS_Store") = false -> eqb rel (lit "Thumbs.db") = false ->
  eqb rel (lit "__pycache__") = false ->
  matches (STAR :: map LITERAL (lit ".log")) rel = false ->
  exclude_loop rel parts standard_exclusions = false.
Proof.
  intros Hd H1 H2 H3 H4.
  repeat match goal with
         | [ X : Forall _ (_ :: _) |- _ ] => inversion X; clear X; subst
         end.
  apply exclude_loop_false. unfold standard_exclusions.
  repeat (apply Forall_cons;
          [ first [ rewrite pattern_matches_dir by reflexivity; assumption
                  | rewrite pattern_matches_file by reflexivity;
                    first [ rewrite fnmatch_literal by reflexivity; assumption
                          | exact H4 ] ] | ]).
  constructor.
Qed.

Lemma has_separator_app (a b : str) :
  has_separator (a ++ b) = has_separator a || has_separator b.
Proof. unfold has_separator. apply existsb_app. Qed.

Lemma no_backslash_app (a b : str) :
  no_backslash (a ++ b) = no_backslash a && no_backslash b.
Proof. unfold no_backslash. rewrite existsb_app. apply negb_orb. Qed.

Lemma mem_singleton (d x : str) : mem d [x] = eqb d x.
Proof. unfold mem. cbn [existsb]. apply orb_false_r. Qed.

(** C9: the standard pattern [*.egg-info/] is a directory pattern, so
    it is compared with the segments for equality and matches only a
    segment that is literally [*.egg-info]; a directory [foo.egg-info]
    of the root, and any [stem.egg-info] with another stem than [*],
    is not excluded by the standard exclusions. *)
Theorem egg_info_pattern_is_literal (cwd root stem : str) :
  isabs cwd = true ->
  has_separator stem = false -> no_backslash stem = true -> stem <> lit "*" ->
  (forall rel parts,
      pattern_matches rel parts (lit "*.egg-info/") = mem (lit "*.egg-info") parts)
  /\ should_exclude cwd (join2 root (stem ++ lit ".egg-info"))
       standard_exclusions root = Ok false
  /\ should_exclude cwd (join2 root (lit "foo.egg-info"))
       standard_exclusions root = Ok false
  /\ should_exclude cwd (join2 root (lit "*.egg-info"))
       standard_exclusions root = Ok true.
Proof.
  intros Hc Hs Hb Hstar.
  assert (Hgen : forall s, has_separator s = false -> no_backslash s = true ->
                           s <> lit "*" ->
                           should_exclude cwd (join2 root (s ++ lit ".egg-info"))
                             standard_exclusions root = Ok false).
  { clear stem Hs Hb Hstar. intros stem Hs Hb Hstar.
    set (name := stem ++ lit ".egg-info").
    assert (Hns : has_separator name = false).
    { unfold name. rewrite has_separator_app, Hs. reflexivity. }
    assert (Hnb : no_backslash name = true).
    { unfold name. rewrite no_backslash_app, Hb. reflexivity. }
    assert (Hreg : regular name = true).
    { unfold regular. change (existsb (N.eqb SLASH) name) with (has_separator name).
      rewrite Hns.
      unfold name. rewrite !str_eqb_app_suffix by reflexivity.
      destruct stem; reflexivity. }
    change (join2 root name) with (join_all root [name]).
    rewrite should_exclude_join_all;
      [|assumption|repeat constructor; assumption|discriminate].
    f_equal.
    change (parts_of [name]) with (parts_of ([] ++ [name])).
    rewrite parts_of_snoc by assumption.
    change (parts_of [] ++ [name]) with [name].
    unfold rel_of. cbn [Str.join app].
    rewrite replace_id by (unfold no_backslash in Hnb; now apply negb_true_iff in Hnb).
    apply exclude_loop_standard.
    - assert (Hd : forall d, endswith d (lit ".egg-info") = false ->
                             mem d [name] = false).
      { intros d Hd. rewrite mem_singleton, str_eqb_sym.
        unfold name. now apply str_eqb_app_suffix. }
      repeat (apply Forall_cons;
              [ first [ apply Hd; reflexivity | idtac ] | ]); [|constructor].
      rewrite mem_singleton. apply str_eqb_neq.
      unfold name. change (lit "*.egg-info") with (lit "*" ++ lit ".egg-info").
      intros E. apply app_inv_tail in E. congruence.
    - unfold name. now apply str_eqb_app_suffix.
    - unfold name. now apply str_eqb_app_suffix.
    - unfold name. now apply str_eqb_app_suffix.
    - unfold name. rewrite matches_star_literal_app; [reflexivity|].
      cbn. lia. }
  split; [|split; [|split]].
  - intros rel parts. now rewrite pattern_matches_dir by reflexivity.
  - now apply Hgen.
  - apply (Hgen (lit "foo")); [reflexivity|reflexivity|discriminate].
  - change (join2 root (lit "*.egg-info")) with (join_all root [lit "*.egg-info"]).
    rewrite should_exclude_join_all;
      [reflexivity|assumption|repeat constructor|discriminate].
Qed.

(** The theorem above at a concrete input. *)
Lemma egg_info_pattern_is_literal_witness :
  isabs (lit "/home/u") = true
  /\ has_separator (lit "mypkg") = false /\ no_backslash (lit "mypkg") = true
  /\ lit "mypkg" <> lit "*"
  /\ should_exclude (lit "/home/u") (join2 (lit "proj") (lit "mypkg" ++ lit ".egg-info"))
       standard_exclusions (lit "proj") = Ok false.
Proof.
  assert (H : lit "mypkg" <> lit "*") by discriminate.
  split; [reflexivity|]. split; [reflexivity|]. split; [reflexivity|].
  split; [exact H|].
  apply (proj1 (proj2 (egg_info_pattern_is_literal (lit "/home/u") (lit "proj")
                         (lit "mypkg") eq_refl eq_refl eq_refl H))).
Defined.

(** C10: the standard pattern [__pycache__] has no trailing separator,
    so it matches only the relative path [__pycache__] itself: a cache
    directory directly below the root is excluded, while one nested in
    a directory that is not itself excluded, such as [src/__pycache__],
    is not. *)
Theorem pycache_only_at_top (cwd root : str) (ns : list str) :
  isabs cwd = true ->
  Forall (fun n => regular n = true) ns -> ns <> [] ->
  should_exclude cwd (join_all root ns) standard_exclusions root = Ok false ->
  (forall rel parts,
      pattern_matches rel parts (lit "__pycache__") = true <-> rel = lit "__pycache__")
  /\ should_exclude cwd (join2 (join_all root ns) (lit "__pycache__"))
       standard_exclusions root = Ok false
  /\ should_exclude cwd (join2 (join2 root (lit "src")) (lit "__pycache__"))
       standard_exclusions root = Ok false
  /\ should_exclude cwd (join2 root (lit "__pycache__"))
       standard_exclusions root = Ok true.
Proof.
  intros Hc.
  assert (Hgen : forall ms, Forall (fun n => regular n = true) ms -> ms <> [] ->
                   should_exclude cwd (join_all root ms) standard_exclusions root
                   = Ok false ->
                   should_exclude cwd (join2 (join_all root ms) (lit "__pycache__"))
                     standard_exclusions root = Ok false).
  { intros ms Hms Hne Hparent.
    rewrite should_exclude_join_all in Hparent by assumption.
    injection Hparent as Hparent.
    change (join2 (join_all root ms) (lit "__pycache__"))
      with (fold_left join2 [lit "__pycache__"] (fold_left join2 ms root)).
    rewrite <- fold_left_app. fold (join_all root (ms ++ [lit "__pycache__"])).
    rewrite should_exclude_join_all;
      [|assumption
       |apply Forall_app; split; [assumption|repeat constructor]
       |intros E; apply app_eq_nil in E as [_ E]; discriminate].
    f_equal.
    rewrite rel_of_snoc, parts_of_snoc by (assumption || reflexivity).
    pose proof (standard_dir_patterns _ _ Hparent) as Hd.
    apply exclude_loop_standard.
    - clear Hparent. revert Hd. generalize (parts_of ms) as parts. intros parts Hd.
      repeat match goal with
             | [ X : Forall _ (_ :: _) |- _ ] => inversion X; clear X; subst
             end.
      repeat (apply Forall_cons;
              [ rewrite mem_app;
                match goal with
                | [ X : mem ?d parts = false |- mem ?d parts || _ = false ] =>
                    rewrite X; reflexivity
                end | ]).
      constructor.
    - now apply str_eqb_app_suffix.
    - now apply str_eqb_app_suffix.
    - apply str_eqb_neq. intros E. apply (f_equal (@List.length char)) in E.
      rewrite length_app in E. cbn in E. lia.
    - change (SLASH :: lit "__pycache__") with (lit "/__pycache__").
      rewrite matches_star_literal_app; [reflexivity|]. cbn. lia. }
  intros Hns Hne Hparent. split; [|split; [|split]].
  - intros rel parts.
    rewrite pattern_matches_file by reflexivity.
    rewrite fnmatch_literal by reflexivity. apply str_eqb_eq.
  - now apply Hgen.
  - apply (Hgen [lit "src"]); [repeat constructor|discriminate|].
    rewrite should_exclude_join_all;
      [reflexivity|assumption|repeat constructor|discriminate].
  - change (join2 root (lit "__pycache__")) with (join_all root [lit "__pycache__"]).
    rewrite should_exclude_join_all;
      [reflexivity|assumption|repeat constructor|discriminate].
Qed.

(** The theorem above at a concrete input. *)
Lemma pycache_only_at_top_witness :
  isabs (lit "/") = true
  /\ Forall (fun n => regular n = true) [lit "app"; lit "src"]
  /\ [lit "app"; lit "src"] <> []
  /\ should_exclude (lit "/") (join_all (lit "/proj") [lit "app"; lit "src"])
       standard_exclusions (lit "/proj") = Ok false
  /\ should_exclude (lit "/")
       (join2 (join_all (lit "/proj") [lit "app"; lit "src"]) (lit "__pycache__"))
       standard_exclusions (lit "/proj") = Ok false.
Proof.
  assert (H1 : Forall (fun n => regular n = true) [lit "app"; lit "src"])
    by (repeat constructor).
  assert (H2 : [lit "app"; lit "src"] <> []) by discriminate.
  split; [reflexivity|]. split; [exact H1|]. split; [exact H2|].
  split; [reflexivity|].
  apply (proj1 (proj2 (pycache_only_at_top (lit "/") (lit "/proj")
                         [lit "app"; lit "src"] eq_refl H1 H2 eq_refl))).
Defined.

(** C1, as stated, fails: with no focus subtree configured,
    alternative (a) of the policy holds, and a directory that is not
    excluded is listed as a single line all the same: the listing is
    not the one that descends into [lib]. *)
Lemma no_focus_no_descent :
  spec_recurses None false false = true
  /\ isdir (lit "/") fs_lib (lit "/proj/lib") = true
  /\ should_exclude (lit "/") (lit "/proj/lib") [] (lit "/proj") = Ok false
  /\ generate_file_structure (lit "/") fs_lib (lit "/proj") [] [] (lit "/proj") None
     = Ok (lit "- a.txt" ++ NL ++ lit "- lib/" ++ NL)
  /\ generate_file_structure (lit "/") fs_lib (lit "/proj/lib") (lit "  ") []
       (lit "/proj") None
     = Ok (lit "  - x.kt" ++ NL)
  /\ eqb (lit "- a.txt" ++ NL ++ lit "- lib/" ++ NL)
         (lit "- a.txt" ++ NL ++ lit "- lib/" ++ NL ++ lit "  - x.kt" ++ NL) = false.
Proof. vm_compute. repeat split. Qed.

Lemma abs_focus_truthy (cwd root_dir : str) (focus_subdir : option str) :
  abs_focus cwd root_dir focus_subdir
  = if truthy focus_subdir
    then match focus_subdir with
         | Some f => Some (abspath cwd (join2 root_dir f))
         | None => None
         end
    else None.
Proof. destruct focus_subdir as [[|c f]|]; reflexivity. Qed.

(** C1, amended: a directory entry that is not excluded is recursed
    into, with the indent grown by two spaces, exactly when a focus
    subtree is configured and either the directory being rendered is
    inside or equal to the focus subtree or the entry is the root of
    the focus subtree; otherwise, and always when no focus subtree is
    configured, it is one line.  Containment is the prefix test the
    code makes on the absolute paths, taken where it agrees with
    containment of the paths. *)
Theorem recursion_policy (cwd : str) (exclude_patterns : list str)
    (root_dir : str) (focus_subdir : option str) (directory indent : str)
    (it : item) (recurse : str -> str -> result str) (structure : str) :
  let item_path := join2 directory (item_name it) in
  let line := indent ++ lit "- " ++ item_name it ++ lit "/" ++ NL in
  let inside := match abs_focus cwd root_dir focus_subdir with
                | Some f => path_inside (abspath cwd directory) f
                | None => false
                end in
  let is_root := is_abs_focus cwd root_dir focus_subdir (abspath cwd item_path) in
  item_descend it = Some recurse ->
  should_exclude cwd item_path exclude_patterns root_dir = Ok false ->
  (forall f, abs_focus cwd root_dir focus_subdir = Some f ->
             startswith (abspath cwd directory) f
             = path_inside (abspath cwd directory) f) ->
  list_item cwd exclude_patterns root_dir focus_subdir directory indent it structure
  = if truthy focus_subdir && (inside || is_root)
    then sub <- recurse item_path (indent ++ lit "  ") ;;
         Ok (structure ++ line ++ sub)
    else Ok (structure ++ line).
Proof.
  intros item_path line inside is_root Hd He Hagree.
  unfold list_item. fold item_path. rewrite He, Hd. cbn [bind].
  fold line. fold is_root. unfold in_focus. subst inside.
  destruct (abs_focus cwd root_dir focus_subdir) as [f|] eqn:Ef.
  - rewrite (Hagree f eq_refl).
    assert (Ht : truthy focus_subdir = true).
    { rewrite abs_focus_truthy in Ef.
      destruct (truthy focus_subdir); [reflexivity|discriminate]. }
    rewrite Ht. cbn [andb].
    destruct (path_inside (abspath cwd directory) f); cbn [negb orb andb];
      [reflexivity|].
    destruct is_root; reflexivity.
  - assert (Hr : is_root = false).
    { subst is_root. unfold is_abs_focus. now rewrite Ef. }
    rewrite Hr. cbn [negb andb orb]. rewrite !andb_false_r. reflexivity.
Qed.

(** The theorem above at a concrete input. *)
Lemma recursion_policy_witness :
  item_descend item_app = Some (fun _ indent => Ok (indent ++ lit "- Main.kt" ++ NL))
  /\ should_exclude (lit "/") (join2 (lit "/proj") (lit "app")) [] (lit "/proj") = Ok false
  /\ list_item (lit "/") [] (lit "/proj") (Some (lit "app")) (lit "/proj") [] item_app []
     = Ok (lit "- app/" ++ NL ++ lit "  - Main.kt" ++ NL).
Proof.
  split; [reflexivity|]. split; [reflexivity|].
  refine (eq_trans
            (recursion_policy (lit "/") [] (lit "/proj") (Some (lit "app")) (lit "/proj")
               [] item_app (fun _ indent => Ok (indent ++ lit "- Main.kt" ++ NL)) []
               eq_refl eq_refl _) _).
  - intros f E. injection E as <-. reflexivity.
  - reflexivity.
Defined.

(** Where the prefix test and containment part: rendered on its own, a
    sibling of the focus directory whose name extends the name of the
    focus passes the test on the strings. *)
Lemma prefix_test_accepts_sibling :
  in_focus (lit "/") (lit "/proj") (Some (lit "app")) (lit "/proj/app2") = true
  /\ path_inside (abspath (lit "/") (lit "/proj/app2"))
       (abspath (lit "/") (join2 (lit "/proj") (lit "app"))) = false.
Proof. vm_compute. split; reflexivity. Qed.

(** The entries [file_structure] hands to the loop: the recursive call
    of a directory entry is the function itself on that directory. *)
Lemma file_structure_unfold (cwd : str) (pats : list str) (root_dir : str)
    (focus : option str) (nm : str) (children : list node) (directory indent : str) :
  file_structure cwd pats root_dir focus (Dir nm children) directory indent
  = list_items cwd pats root_dir focus directory indent
      (sorted (map (fun c => {| item_name := node_name c;
                                item_descend :=
                                  match c with
                                  | Dir _ _ => Some (file_structure cwd pats root_dir focus c)
                                  | File _ _ => None
                                  end |}) children)) [].
Proof. reflexivity. Qed.

(** C3, on the failing input: the directory [__pycache__] is excluded,
    and the source file in its sub-directory is aggregated all the
    same; the listing does leave the whole subtree out. *)
Theorem excluded_directory_subtree_leaks :
  should_exclude (lit "/") (lit "/proj/__pycache__") standard_exclusions (lit "/proj")
  = Ok true
  /\ include_kotlin_files (lit "/") fs_pycache (lit "/proj") standard_exclusions
       (lit "/proj")
     = Ok (kotlin_block (lit "__pycache__/sub/a.kt") (lit "val leak = 1")
           ++ kotlin_block (lit "app/Main.kt") (lit "fun main(){}"))
  /\ generate_file_structure (lit "/") fs_pycache (lit "/proj") [] standard_exclusions
       (lit "/proj") (Some (lit "app"))
     = Ok (lit "- app/" ++ NL ++ lit "  - Main.kt" ++ NL).
Proof. vm_compute. repeat split. Qed.

(** C4, on the failing input: a [.gitignore] or a README that is not
    UTF-8 aborts with a decode error, while the source and
    configuration files, read with [errors="ignore"], lose the byte
    and go through. *)
Theorem undecodable_gitignore_aborts :
  parse_gitignore (lit "/") fs_undecodable (lit "/proj") = Raise UnicodeDecodeError
  /\ include_readme (lit "/") fs_undecodable (lit "/proj") = Raise UnicodeDecodeError
  /\ document_with_excludes (lit "/") fs_undecodable (lit "/proj") []
     = Raise UnicodeDecodeError
  /\ include_kotlin_files (lit "/") fs_undecodable (lit "/proj") [] (lit "/proj")
     = Ok (kotlin_block (lit "Main.kt") (lit "ab"))
  /\ include_gradle_and_toml_files (lit "/") fs_undecodable (lit "/proj")
     = Ok (gradle_block (lit "build.gradle.kts") (lit "c")).
Proof. vm_compute. repeat split. Qed.

(** * Facts about the file system *)

Lemma find_child_name (c : str) (children : list node) (n : node) :
  find_child c children = Some n -> node_name n = c.
Proof.
  induction children as [|x l IH]; cbn [find_child]; [discriminate|].
  destruct (eqb (node_name x) c) eqn:E.
  - intros H. injection H as <-. now apply str_eqb_eq.
  - exact IH.
Qed.

Lemma find_child_replace (c : str) (new n : node) (children : list node) :
  find_child c children = Some n -> node_name new = c ->
  find_child c (replace_child c new children) = Some new.
Proof.
  intros H Hn. induction children as [|x l IH]; cbn [find_child replace_child] in *;
    [discriminate|].
  destruct (eqb (node_name x) c) eqn:E.
  - cbn [find_child]. now rewrite Hn, str_eqb_refl.
  - cbn [find_child]. rewrite E. now apply IH.
Qed.

Lemma find_child_append (c : str) (new : node) (children : list node) :
  find_child c children = None -> node_name new = c ->
  find_child c (children ++ [new]) = Some new.
Proof.
  intros H Hn. induction children as [|x l IH]; cbn [find_child app] in *.
  - now rewrite Hn, str_eqb_refl.
  - destruct (eqb (node_name x) c); [discriminate|]. now apply IH.
Qed.


(** * Further properties of the writing *)

(** ** Grafting, making directories and writing *)

Lemma find_child_replace_other (c x : str) (new : node) (children : list node) :
  eqb x c = false -> node_name new = c ->
  find_child x (replace_child c new children) = find_child x children.
Proof.
  intros Hx Hn. induction children as [|y l IH]; [reflexivity|].
  cbn [replace_child find_child]. destruct (eqb (node_name y) c) eqn:Ey.
  - cbn [find_child]. rewrite Hn. apply str_eqb_eq in Ey. rewrite Ey.
    rewrite (str_eqb_sym c x), Hx. reflexivity.
  - cbn [find_child]. destruct (eqb (node_name y) x); [reflexivity|apply IH].
Qed.

Lemma find_child_append_other (c x : str) (new : node) (children : list node) :
  eqb x c = false -> node_name new = c ->
  find_child x (children ++ [new]) = find_child x children.
Proof.
  intros Hx Hn. induction children as [|y l IH]; cbn [app find_child].
  - now rewrite Hn, (str_eqb_sym c x), Hx.
  - destruct (eqb (node_name y) x); [reflexivity|apply IH].
Qed.

Lemma prefix_of_app_l (a b q : list str) :
  prefix_of q (a ++ b) = false -> prefix_of q a = false.
Proof.
  revert q. induction a as [|x a IH]; intros [|y q] H; try discriminate.
  - reflexivity.
  - cbn [app prefix_of] in *. destruct (eqb y x); [now apply IH|reflexivity].
Qed.

Lemma prefix_of_snoc (a q : list str) (x : str) :
  prefix_of a q = false -> prefix_of (a ++ [x]) q = false.
Proof.
  revert q. induction a as [|y a IH]; intros q H; [discriminate|].
  destruct q as [|z q]; [reflexivity|]. cbn [app prefix_of] in *.
  destruct (eqb y z); [now apply IH|reflexivity].
Qed.

Lemma prefix_of_refl_app (p r : list str) : prefix_of p (p ++ r) = true.
Proof.
  induction p as [|x p IH]; [reflexivity|].
  cbn [app prefix_of]. now rewrite str_eqb_refl.
Qed.


Lemma lookup_below_file (nm : str) (b : list Byte.byte) (r : list str) :
  r <> [] -> lookup (File nm b) r = None.
Proof. destruct r; [contradiction|reflexivity]. Qed.

Lemma lookup_below_empty (nm : str) (r : list str) :
  r <> [] -> lookup (Dir nm []) r = None.
Proof. destruct r; [contradiction|reflexivity]. Qed.

Lemma graft_name (p : list str) (n x y : node) :
  lookup n p = Some x -> node_name y = node_name x ->
  node_name (graft n p y) = node_name n.
Proof.
  destruct p as [|c cs]; intros Hl Hn.
  - cbn [lookup] in Hl. injection Hl as <-. exact Hn.
  - cbn [graft]. destruct n as [nm b|nm children]; [reflexivity|].
    destruct (find_child c children); reflexivity.
Qed.


(** A graft changes nothing off the way to its place, nor below it
    where the new node agrees with the old. *)
Lemma lookup_graft_frame (p : list str) :
  forall n x y q,
    lookup n p = Some x -> node_name y = node_name x ->
    prefix_of q p = false ->
    (forall r, q = p ++ r -> lookup y r = lookup x r) ->
    lookup (graft n p y) q = lookup n q.
Proof.
  induction p as [|c cs IH]; intros n x y q Hl Hn Hq Hr.
  - cbn [lookup] in Hl. injection Hl as <-. cbn [graft]. now apply Hr.
  - destruct q as [|d q]; [discriminate|].
    cbn [lookup graft] in *. destruct n as [nm b|nm children]; [reflexivity|].
    destruct (find_child c children) as [sub|] eqn:E; [|reflexivity].
    assert (Hname : node_name (graft sub cs y) = c).
    { rewrite (graft_name cs sub x y Hl Hn). now apply find_child_name in E. }
    cbn [lookup]. destruct (eqb d c) eqn:Ed.
    + apply str_eqb_eq in Ed. subst d.
      rewrite (find_child_replace c _ sub children E Hname), E.
      cbn [prefix_of] in Hq. rewrite str_eqb_refl in Hq. cbn [andb] in Hq.
      apply (IH sub x); try assumption.
      intros r ->. now apply Hr.
    + now rewrite (find_child_replace_other c d _ children Ed Hname).
Qed.

(** A change of the entry [c] of the directory at [p] that leaves
    nothing below [c], where nothing was, is not seen off the way to
    [c]. *)
Lemma lookup_graft_child (p : list str) (n : node) (nm c : str)
    (children children' : list node) :
  lookup n p = Some (Dir nm children) ->
  (forall d, eqb d c = false -> find_child d children' = find_child d children) ->
  (forall r, r <> [] ->
             match find_child c children' with Some z => lookup z r | None => None end
             = match find_child c children with Some z => lookup z r | None => None end) ->
  forall q, prefix_of q (p ++ [c]) = false ->
            lookup (graft n p (Dir nm children')) q = lookup n q.
Proof.
  intros Hl H1 H2 q Hq.
  apply (lookup_graft_frame p n (Dir nm children)); try assumption; [reflexivity| |].
  - now apply prefix_of_app_l in Hq.
  - intros r ->. destruct r as [|d r].
    + rewrite app_nil_r, prefix_of_refl_app in Hq. discriminate.
    + cbn [lookup]. destruct (eqb d c) eqn:Ed.
      * apply str_eqb_eq in Ed. subst d. destruct r as [|e r].
        -- rewrite <- (app_nil_r (p ++ [c])) in Hq at 2.
           rewrite prefix_of_refl_app in Hq. discriminate.
        -- apply H2. discriminate.
      * now rewrite (H1 d Ed).
Qed.

Lemma regular_not_dot (c : str) :
  regular c = true -> eqb c (lit ".") = false /\ eqb c (lit "..") = false.
Proof. intros H. now apply regular_inv in H as (_ & _ & H1 & H2). Qed.

(** Making one directory is not seen off the way to it. *)
Lemma lookup_mkdir (fs : node) (here : list str) (nm c : str)
    (children : list node) :
  lookup fs here = Some (Dir nm children) ->
  find_child c children = None ->
  forall q, prefix_of q (here ++ [c]) = false ->
            lookup (graft fs here (Dir nm (children ++ [Dir c []]))) q = lookup fs q.
Proof.
  intros Hl Hc. apply (lookup_graft_child here fs nm c children); [assumption| |].
  - intros d Hd. now apply (find_child_append_other c).
  - intros r Hr. rewrite (find_child_append c (Dir c []) children Hc eq_refl), Hc.
    now apply lookup_below_empty.
Qed.

(** Whatever [os.makedirs] ends with, it has changed nothing off the
    way it went. *)
Lemma makedirs_along_frame (names : list str) :
  forall fs here fs' e,
    Forall (fun c => regular c = true) names ->
    makedirs_along fs here names = (fs', e) ->
    forall q, prefix_of q (here ++ names) = false -> lookup fs' q = lookup fs q.
Proof.
  induction names as [|c cs IH]; intros fs here fs' e Hreg Hm q Hq.
  - cbn [makedirs_along] in Hm. now injection Hm as <- _.
  - inversion Hreg as [|? ? Hc Hcs]; subst.
    destruct (regular_not_dot c Hc) as [H1 H2].
    cbn [makedirs_along] in Hm.
    destruct (lookup fs here) as [[fn fb|nm children]|] eqn:El;
      try (now injection Hm as <- _).
    rewrite H1, H2 in Hm.
    assert (Hq' : prefix_of q ((here ++ [c]) ++ cs) = false)
      by (now rewrite <- app_assoc).
    destruct (find_child c children) as [[gn gb|dn dc]|] eqn:Ef.
    + now injection Hm as <- _.
    + now apply (IH fs (here ++ [c]) fs' e).
    + rewrite (IH _ (here ++ [c]) fs' e Hcs Hm q Hq').
      apply (lookup_mkdir fs here nm c children El Ef).
      now apply prefix_of_app_l in Hq'.
Qed.



(** Along names that are neither [.] nor [..] the system ends where
    the names say. *)
Lemma follow_all_regular (names : list str) :
  forall fs here there,
    Forall (fun c => regular c = true) names ->
    follow_all fs here names = Ok there -> there = here ++ names.
Proof.
  induction names as [|c cs IH]; intros fs here there Hreg H.
  - cbn [follow_all] in H. injection H as <-. now rewrite app_nil_r.
  - inversion Hreg as [|? ? Hc Hcs]; subst.
    destruct (regular_not_dot c Hc) as [H1 H2].
    cbn [follow_all] in H. unfold follow in H.
    destruct (lookup fs here) as [[|]|]; try discriminate.
    rewrite H1, H2 in H. cbn [bind] in H.
    rewrite (IH _ _ _ Hcs H). now rewrite <- app_assoc.
Qed.



(** What [open] has checked when it returns. *)
Lemma open_w_ok (fs : node) (here names : list str) (trailing : bool)
    (parent : list str) :
  open_w fs here names trailing = Ok parent ->
  names <> []
  /\ follow_all fs here (removelast names) = Ok parent
  /\ exists nm children,
      lookup fs parent = Some (Dir nm children)
      /\ forall dn dc, find_child (last names []) children <> Some (Dir dn dc).
Proof.
  unfold open_w. destruct names as [|c0 cs0] eqn:E; [discriminate|].
  rewrite <- E. intros H. split; [rewrite E; discriminate|].
  destruct (follow_all fs here (removelast names)) as [p|]; cbn [bind] in H;
    [|discriminate].
  destruct (lookup fs p) as [[fn fb|nm children]|] eqn:El; try discriminate.
  destruct (_ || _); [discriminate|].
  destruct (find_child (last names []) children) as [[gn gb|dn dc]|] eqn:Ef;
    try discriminate; injection H as <-; (split; [reflexivity|]);
    exists nm, children; (split; [exact El|]); intros dn dc E0;
    rewrite Ef in E0; discriminate.
Qed.

(** The file written is not seen off the way to it. *)
Lemma lookup_with_file (fs : node) (parent : list str) (c : str)
    (content : list Byte.byte) (nm : str) (children : list node) :
  lookup fs parent = Some (Dir nm children) ->
  (forall dn dc, find_child c children <> Some (Dir dn dc)) ->
  forall q, prefix_of q (parent ++ [c]) = false ->
            lookup (with_file fs parent c content) q = lookup fs q.
Proof.
  intros Hl Hc q Hq. unfold with_file. rewrite Hl.
  apply (lookup_graft_child parent fs nm c children); try assumption.
  - intros d Hd. destruct (find_child c children).
    + now apply (find_child_replace_other c).
    + now apply (find_child_append_other c).
  - intros r Hr. destruct (find_child c children) as [[gn gb|dn dc]|] eqn:Ef.
    + rewrite (find_child_replace c (File c content) _ children Ef eq_refl).
      now rewrite !lookup_below_file.
    + now destruct (Hc dn dc).
    + rewrite (find_child_append c (File c content) children Ef eq_refl).
      now apply lookup_below_file.
Qed.


Lemma until_lstrip (r : str) :
  until_slash r ++ lstrip_by (fun c => negb (N.eqb c SLASH)) r = r.
Proof.
  induction r as [|c r IH]; [reflexivity|].
  cbn [until_slash lstrip_by]. destruct (N.eqb c SLASH); cbn [negb app].
  - reflexivity.
  - now rewrite IH.
Qed.

Lemma lstrip_head (r : str) :
  lstrip_by (fun c => negb (N.eqb c SLASH)) r = []
  \/ exists r', lstrip_by (fun c => negb (N.eqb c SLASH)) r = SLASH :: r'.
Proof.
  induction r as [|c r IH]; [now left|].
  cbn [lstrip_by]. destruct (N.eqb c SLASH) eqn:E; cbn [negb].
  - right. apply N.eqb_eq in E. subst. now exists r.
  - exact IH.
Qed.

Lemma dir_head_basename (p : str) : p = dir_head p ++ basename p.
Proof.
  unfold dir_head, basename. rewrite <- rev_app_distr, until_lstrip.
  now rewrite rev_involutive.
Qed.

Lemma dir_head_shape (p : str) :
  dir_head p = [] \/ exists h, dir_head p = h ++ [SLASH].
Proof.
  unfold dir_head. destruct (lstrip_head (rev p)) as [->|[r' ->]].
  - now left.
  - right. exists (rev r'). reflexivity.
Qed.

Lemma dirname_dir_head (p : str) :
  dirname p
  = if negb (is_empty (dir_head p)) && negb (forallb (N.eqb SLASH) (dir_head p))
    then rstrip SLASH (dir_head p) else dir_head p.
Proof. reflexivity. Qed.

Lemma rstrip_decomp (c : char) (s : str) :
  exists m, s = rstrip c s ++ repeat c m.
Proof.
  induction s as [|x s [m IH]]; [now exists 0|].
  cbn [rstrip]. destruct (rstrip c s) as [|y r] eqn:E.
  - cbn [app] in IH. destruct (N.eqb x c) eqn:Ex.
    + apply N.eqb_eq in Ex. subst x. exists (S m). cbn [app repeat]. now f_equal.
    + exists m. cbn [app]. now f_equal.
  - exists m. cbn [app]. rewrite IH at 1. reflexivity.
Qed.

Lemma dirname_decomp (p : str) :
  exists m, dir_head p = dirname p ++ repeat SLASH m.
Proof.
  rewrite dirname_dir_head. destruct (_ && _).
  - apply rstrip_decomp.
  - exists 0. now rewrite app_nil_r.
Qed.

Lemma split_snoc_sep (q : str) : split SLASH (q ++ [SLASH]) = split SLASH q ++ [[]].
Proof. now rewrite split_app_sep. Qed.

Lemma fold_split_trailing (k m : nat) (s : str) (acc : list str) :
  fold_left (normpath_step k) (split SLASH (s ++ repeat SLASH m)) acc
  = fold_left (normpath_step k) (split SLASH s) acc.
Proof.
  induction m as [|m IH].
  - now rewrite app_nil_r.
  - change (repeat SLASH (S m)) with (SLASH :: repeat SLASH m).
    rewrite repeat_cons, app_assoc, split_snoc_sep, fold_left_app.
    cbn [fold_left]. rewrite normpath_step_empty. exact IH.
Qed.

(** The components of a path are those of its directory followed by
    its last name. *)
Lemma abs_comps_dirname (cwd p : str) :
  isabs cwd = true -> regular (basename p) = true -> dirname p <> [] ->
  abs_comps cwd p = abs_comps cwd (dirname p) ++ [basename p].
Proof.
  intros Hc Hreg Hd.
  pose proof (regular_inv _ Hreg) as (Hne & Hns & _).
  destruct (dirname_decomp p) as [m Hm].
  assert (Hh : exists h, dir_head p = h ++ [SLASH]).
  { destruct (dir_head_shape p) as [E|H]; [|exact H].
    exfalso. apply Hd. rewrite dirname_dir_head, E. reflexivity. }
  destruct Hh as [h Hh].
  assert (Hfold : forall k acc,
             fold_left (normpath_step k) (split SLASH p) acc
             = fold_left (normpath_step k) (split SLASH (dirname p)) acc
               ++ [basename p]).
  { intros k acc. rewrite (dir_head_basename p) at 1.
    rewrite <- (fold_split_trailing k m (dirname p)), <- Hm.
    rewrite Hh, <- app_assoc. cbn [app].
    rewrite split_app_sep, split_snoc_sep, !fold_left_app.
    rewrite (split_nosep SLASH (basename p)) by assumption.
    cbn [fold_left]. rewrite normpath_step_empty.
    now apply normpath_step_regular. }
  assert (Habs : isabs p = isabs (dirname p)).
  { rewrite (dir_head_basename p) at 1. rewrite Hm, <- app_assoc.
    now apply isabs_app_nonempty. }
  rewrite !abs_comps_normpath by assumption.
  unfold normpath_comps, full. rewrite Habs.
  destruct (isabs (dirname p)) eqn:E.
  - rewrite Hfold.
    rewrite (fold_step_slashes (initial_slashes p) (initial_slashes (dirname p)));
      [reflexivity|].
    now rewrite !initial_slashes_isabs, Habs, E.
  - assert (Hp : isabs p = false) by congruence.
    assert (Hcn : cwd <> []) by (intros ->; discriminate).
    rewrite (fold_step_slashes (initial_slashes (join2 cwd p))
               (initial_slashes (join2 cwd (dirname p)))).
    + rewrite !fold_split_join2 by assumption. apply Hfold.
    + rewrite !initial_slashes_isabs, !isabs_join2; auto.
Qed.

(** ** Paths as written *)

Lemma written_app_sep (a b : str) :
  written (a ++ SLASH :: b) = written a ++ written b.
Proof. unfold written. now rewrite split_app_sep, filter_app. Qed.

Lemma written_trailing (s : str) (m : nat) :
  written (s ++ repeat SLASH m) = written s.
Proof.
  induction m as [|m IH]; [now rewrite app_nil_r|].
  change (repeat SLASH (S m)) with (SLASH :: repeat SLASH m).
  rewrite repeat_cons, app_assoc. unfold written in *.
  rewrite split_snoc_sep, filter_app, IH. cbn [filter nonempty is_empty negb].
  apply app_nil_r.
Qed.

Lemma written_nosep (b : str) :
  b <> [] -> existsb (N.eqb SLASH) b = false -> written b = [b].
Proof.
  intros Hb Hs. unfold written. rewrite split_nosep by assumption.
  destruct b; [contradiction|reflexivity].
Qed.

Lemma until_slash_nosep (s : str) : existsb (N.eqb SLASH) (until_slash s) = false.
Proof.
  induction s as [|c s IH]; [reflexivity|]. cbn [until_slash].
  destruct (N.eqb c SLASH) eqn:E; [reflexivity|].
  cbn [existsb]. now rewrite N.eqb_sym, E, IH.
Qed.

Lemma basename_nosep (p : str) : existsb (N.eqb SLASH) (basename p) = false.
Proof.
  unfold basename. destruct (existsb _ _) eqn:E; [|reflexivity].
  apply existsb_exists in E as (x & Hin & Hx). apply in_rev in Hin.
  pose proof (until_slash_nosep (rev p)) as Hn.
  assert (Ht : existsb (N.eqb SLASH) (until_slash (rev p)) = true)
    by (apply existsb_exists; eauto).
  congruence.
Qed.

(** An absolute path has a directory part. *)
Lemma dirname_isabs (p : str) : isabs p = true -> dirname p <> [].
Proof.
  intros Ha Hd. destruct (dirname_decomp p) as [m Hm].
  rewrite Hd in Hm. cbn [app] in Hm.
  assert (Hh : dir_head p = []).
  { pose proof (dirname_dir_head p) as E. rewrite Hd, Hm in E.
    destruct m as [|m]; [exact Hm|]. exfalso.
    cbn [repeat is_empty negb andb forallb] in E. rewrite N.eqb_refl in E.
    cbn [andb] in E.
    assert (Hall : forallb (N.eqb SLASH) (repeat SLASH m) = true).
    { clear. induction m as [|m IH]; [reflexivity|].
      cbn [repeat forallb]. now rewrite N.eqb_refl. }
    rewrite Hall in E. discriminate. }
  pose proof (dir_head_basename p) as E. rewrite Hh in E. cbn [app] in E.
  pose proof (basename_nosep p) as Hn. rewrite <- E in Hn.
  unfold isabs in Ha. destruct p as [|x p]; [discriminate|].
  cbn [startswith] in Ha. apply andb_true_iff in Ha as [Hx _].
  cbn [existsb] in Hn. rewrite N.eqb_sym, Hx in Hn. discriminate.
Qed.

Lemma dir_head_slash (p : str) :
  dirname p <> [] -> exists h, dir_head p = h ++ [SLASH].
Proof.
  intros Hd. destruct (dir_head_shape p) as [E|H]; [|exact H].
  exfalso. apply Hd. rewrite dirname_dir_head, E. reflexivity.
Qed.

(** The names of a path are those of its directory, then its last
    name. *)
Lemma written_dirname (p : str) :
  regular (basename p) = true -> dirname p <> [] ->
  written p = written (dirname p) ++ [basename p].
Proof.
  intros Hreg Hd.
  pose proof (regular_inv _ Hreg) as (Hne & Hns & _).
  destruct (dirname_decomp p) as [m Hm].
  destruct (dir_head_slash p Hd) as [h Hh].
  rewrite (dir_head_basename p) at 1.
  rewrite <- (written_trailing (dirname p) m), <- Hm, Hh.
  rewrite <- app_assoc. cbn [app].
  rewrite written_app_sep, (written_nosep _ Hne Hns).
  replace (h ++ [SLASH]) with (h ++ SLASH :: []) by reflexivity.
  rewrite written_app_sep. cbn. now rewrite app_nil_r.
Qed.

Lemma isabs_dirname (p : str) :
  dirname p <> [] -> isabs (dirname p) = isabs p.
Proof.
  intros Hd. destruct (dirname_decomp p) as [m Hm].
  rewrite (dir_head_basename p) at 2. rewrite Hm, <- app_assoc.
  symmetry. now apply isabs_app_nonempty.
Qed.


Lemma fold_step_written (k : nat) (l acc : list str) :
  Forall (fun c => regular c = true) (filter nonempty l) ->
  fold_left (normpath_step k) l acc = acc ++ filter nonempty l.
Proof.
  revert acc. induction l as [|c l IH]; intros acc H; cbn [fold_left filter].
  - now rewrite app_nil_r.
  - cbn [filter] in H. destruct c as [|x c].
    + cbn [nonempty is_empty negb] in *. rewrite normpath_step_empty. now apply IH.
    + cbn [nonempty is_empty negb] in *. inversion H as [|? ? Hc Hl]; subst.
      rewrite (normpath_step_regular k acc _ Hc), IH by assumption.
      now rewrite <- app_assoc.
Qed.

(** On an absolute path written without [.] and [..], the names
    [abspath] keeps are the names written. *)
Lemma abs_comps_written (cwd p : str) :
  isabs cwd = true -> isabs p = true ->
  Forall (fun c => regular c = true) (written p) ->
  abs_comps cwd p = written p.
Proof.
  intros Hc Hp Hreg. rewrite abs_comps_normpath by assumption.
  unfold full. rewrite Hp. unfold normpath_comps.
  now rewrite fold_step_written.
Qed.


Lemma isabs_nonempty (p : str) : isabs p = true -> is_empty p = false.
Proof. destruct p; [discriminate|reflexivity]. Qed.







(** * Facts about the listing *)

Lemma leb_total (a b : str) : leb a b = false -> leb b a = true.
Proof.
  revert b. induction a as [|x a IH]; intros [|y b]; cbn [leb]; try discriminate;
    try reflexivity.
  destruct (N.ltb x y) eqn:E1; [discriminate|].
  destruct (N.ltb y x) eqn:E2; [reflexivity|]. apply IH.
Qed.

Lemma leb_trans (a b c : str) :
  leb a b = true -> leb b c = true -> leb a c = true.
Proof.
  revert b c. induction a as [|x a IH]; intros [|y b] [|z c]; cbn [leb];
    try discriminate; try reflexivity.
  destruct (N.ltb x y) eqn:E1, (N.ltb y z) eqn:E2, (N.ltb x z) eqn:E3;
    try reflexivity;
    try (apply N.ltb_lt in E1); try (apply N.ltb_lt in E2);
    try (apply N.ltb_ge in E1); try (apply N.ltb_ge in E2);
    try (apply N.ltb_ge in E3); try lia.
  - destruct (N.ltb z y) eqn:E4; [discriminate|apply N.ltb_ge in E4].
    destruct (N.ltb z x) eqn:E5; [apply N.ltb_lt in E5; lia|]. intros _ _.
    exfalso. lia.
  - destruct (N.ltb y x) eqn:E4; [discriminate|apply N.ltb_ge in E4].
    destruct (N.ltb z x) eqn:E5; [apply N.ltb_lt in E5; lia|]. intros _ _.
    exfalso. lia.
  - destruct (N.ltb y x) eqn:E4; [discriminate|apply N.ltb_ge in E4].
    destruct (N.ltb z y) eqn:E5; [discriminate|apply N.ltb_ge in E5].
    destruct (N.ltb z x) eqn:E6; [apply N.ltb_lt in E6; lia|].
    apply IH.
Qed.

Lemma insert_item_head (x : item) (l : list item) :
  Forall (item_le x) l -> insert_item x l = x :: l.
Proof.
  intros H. destruct l as [|y l]; [reflexivity|].
  inversion H; subst. cbn [insert_item].
  match goal with [ X : item_le x y |- _ ] => unfold item_le in X; now rewrite X end.
Qed.

Lemma insert_item_filter_out (p : item -> bool) (x : item) (l : list item) :
  p x = false -> filter p (insert_item x l) = filter p l.
Proof.
  intros Hx. induction l as [|y l IH]; cbn [insert_item filter].
  - now rewrite Hx.
  - destruct (leb (item_name x) (item_name y)); cbn [filter].
    + now rewrite Hx.
    + now rewrite IH.
Qed.

Lemma Forall_filter_keep {A : Type} (P : A -> Prop) (p : A -> bool) (l : list A) :
  Forall P l -> Forall P (filter p l).
Proof.
  induction 1 as [|x l Hx _ IH]; cbn [filter]; [constructor|].
  destruct (p x); [now constructor|assumption].
Qed.

Lemma insert_item_filter_in (p : item -> bool) (x : item) (l : list item) :
  p x = true -> StronglySorted item_le l ->
  filter p (insert_item x l) = insert_item x (filter p l).
Proof.
  intros Hx Hs. induction Hs as [|y l Hs IH Hy]; cbn [insert_item filter].
  - now rewrite Hx.
  - destruct (leb (item_name x) (item_name y)) eqn:E; cbn [filter]; rewrite ?Hx.
    + destruct (p y); cbn [insert_item].
      * now rewrite E.
      * symmetry. apply insert_item_head. apply Forall_filter_keep.
        eapply Forall_impl; [|exact Hy]. intros z Hz. unfold item_le in *.
        now apply (leb_trans _ (item_name y)).
    + destruct (p y); cbn [insert_item]; rewrite ?E, IH; reflexivity.
Qed.

Lemma insert_item_sorted (x : item) (l : list item) :
  StronglySorted item_le l -> StronglySorted item_le (insert_item x l).
Proof.
  intros Hs. induction Hs as [|y l Hs IH Hy]; cbn [insert_item].
  - constructor; constructor.
  - destruct (leb (item_name x) (item_name y)) eqn:E.
    + constructor; [now constructor|]. constructor; [exact E|].
      eapply Forall_impl; [|exact Hy]. intros z Hz. unfold item_le in *.
      now apply (leb_trans _ (item_name y)).
    + constructor; [exact IH|].
      assert (Hin : forall z, In z (insert_item x l) -> z = x \/ In z l).
      { clear. induction l as [|w l IH]; cbn [insert_item]; intros z Hz.
        - destruct Hz as [<-|[]]. now left.
        - destruct (leb (item_name x) (item_name w)).
          + destruct Hz as [<-|Hz]; [now left|now right].
          + destruct Hz as [<-|Hz]; [right; now left|].
            destruct (IH z Hz) as [->|H]; [now left|right; now right]. }
      apply Forall_forall. intros z Hz. destruct (Hin z Hz) as [->|Hz'].
      * unfold item_le. now apply leb_total.
      * rewrite Forall_forall in Hy. now apply Hy.
Qed.

Lemma sorted_sorted (l : list item) : StronglySorted item_le (sorted l).
Proof.
  induction l as [|x l IH]; cbn [sorted]; [constructor|].
  now apply insert_item_sorted.
Qed.

(** Sorting and leaving entries out commute: the sort is stable. *)
Lemma sorted_filter (p : item -> bool) (l : list item) :
  filter p (sorted l) = sorted (filter p l).
Proof.
  induction l as [|x l IH]; [reflexivity|]. cbn [sorted filter].
  destruct (p x) eqn:E.
  - rewrite insert_item_filter_in by (assumption || apply sorted_sorted).
    cbn [sorted]. now rewrite IH.
  - rewrite insert_item_filter_out by assumption. exact IH.
Qed.

Lemma list_items_skip (cwd : str) (pats : list str) (root_dir : str)
    (focus : option str) (directory indent : str) (p : item -> bool)
    (items : list item) (structure : str) :
  (forall it, p it = false ->
              should_exclude cwd (join2 directory (item_name it)) pats root_dir
              = Ok true) ->
  list_items cwd pats root_dir focus directory indent items structure
  = list_items cwd pats root_dir focus directory indent (filter p items) structure.
Proof.
  intros Hp. revert structure.
  induction items as [|it items IH]; intros structure; [reflexivity|].
  cbn [filter]. destruct (p it) eqn:E.
  - cbn [list_items].
    destruct (list_item cwd pats root_dir focus directory indent it structure);
      cbn [bind]; [apply IH|reflexivity].
  - cbn [list_items]. unfold list_item. rewrite (Hp it E). cbn [bind]. apply IH.
Qed.

Lemma rstrip_nosep (c : char) (s : str) :
  existsb (N.eqb c) s = false -> rstrip c s = s.
Proof.
  induction s as [|x s IH]; [reflexivity|]. cbn [existsb rstrip].
  intros H. apply orb_false_iff in H as [H1 H2]. rewrite IH by assumption.
  destruct s; [|reflexivity]. now rewrite N.eqb_sym, H1.
Qed.

(** The pattern a user-excluded directory [d] of the root becomes
    excludes every path below it. *)
Lemma excluded_below (cwd directory d : str) (pats ns : list str) :
  isabs cwd = true -> regular d = true -> no_backslash d = true ->
  In (d ++ lit "/") pats -> Forall (fun n => regular n = true) ns ->
  should_exclude cwd (join_all directory (d :: ns)) pats directory = Ok true.
Proof.
  intros Hc Hd Hb Hin Hns.
  pose proof (regular_inv _ Hd) as (Hne & Hs & _).
  rewrite should_exclude_join_all;
    [|assumption|now constructor|discriminate].
  f_equal. apply exclude_loop_true. exists (d ++ lit "/"). split; [assumption|].
  rewrite pattern_matches_dir by apply endswith_app.
  change (lit "/") with [SLASH]. rewrite rstrip_sep.
  rewrite rstrip_nosep by assumption.
  apply mem_In. unfold parts_of. cbn [flat_map]. apply in_or_app. left.
  rewrite replace_id by (unfold no_backslash in Hb; now apply negb_true_iff in Hb).
  rewrite split_nosep by assumption. now left.
Qed.

Lemma excluded_entry (cwd directory d : str) (pats : list str) :
  isabs cwd = true -> regular d = true -> no_backslash d = true ->
  In (d ++ lit "/") pats ->
  should_exclude cwd (join2 directory d) pats directory = Ok true.
Proof.
  intros Hc Hd Hb Hin.
  apply (excluded_below cwd directory d pats [] Hc Hd Hb Hin). constructor.
Qed.

Lemma map_without {B : Type} (name_of : B -> str) (f : node -> B) (d : str)
    (children : list node) :
  (forall c, name_of (f c) = node_name c) ->
  map f (without d children)
  = filter (fun x => negb (eqb (name_of x) d)) (map f children).
Proof.
  intros Hf. unfold without. induction children as [|c l IH]; [reflexivity|].
  cbn [filter map]. rewrite Hf.
  destruct (negb (eqb (node_name c) d)); cbn [map]; now rewrite IH.
Qed.

(** The listing of a directory does not show an excluded entry: it is
    the listing of the directory without it. *)
Lemma file_structure_without (cwd : str) (pats : list str) (focus : option str)
    (directory indent d nm : str) (children : list node) :
  should_exclude cwd (join2 directory d) pats directory = Ok true ->
  file_structure cwd pats directory focus (Dir nm children) directory indent
  = file_structure cwd pats directory focus (Dir nm (without d children))
      directory indent.
Proof.
  intros He. rewrite !file_structure_unfold.
  rewrite (map_without item_name) by reflexivity.
  rewrite <- sorted_filter. apply list_items_skip.
  intros it Hit. apply negb_false_iff, str_eqb_eq in Hit. now rewrite Hit.
Qed.

(** * Facts about the source-file section *)

Lemma kotlin_loop_app (cwd directory : str) (pats : list str) (root_dir : str)
    (a b : list walk_entry) (content : str) :
  kotlin_loop cwd directory pats root_dir (a ++ b) content
  = content' <- kotlin_loop cwd directory pats root_dir a content ;;
    kotlin_loop cwd directory pats root_dir b content'.
Proof.
  revert content. induction a as [|[[root dirs] files] a IH]; intros content;
    [reflexivity|].
  cbn [app kotlin_loop].
  destruct (should_exclude cwd root pats root_dir) as [[|]|]; cbn [bind];
    [apply IH| |reflexivity].
  destruct (kotlin_files cwd directory pats root_dir root files content);
    cbn [bind]; [apply IH|reflexivity].
Qed.

Lemma kotlin_loop_excluded (cwd directory : str) (pats : list str) (root_dir : str)
    (l : list walk_entry) (content : str) :
  Forall (fun e => should_exclude cwd (fst (fst e)) pats root_dir = Ok true) l ->
  kotlin_loop cwd directory pats root_dir l content = Ok content.
Proof.
  induction 1 as [|[[root dirs] files] l Hx _ IH]; [reflexivity|].
  cbn [kotlin_loop]. cbn [fst] in Hx. rewrite Hx. cbn [bind]. exact IH.
Qed.

(** The directories [os.walk] visits: the top and entry names below. *)
Lemma walk_roots (n : node) :
  names_regular n = true ->
  forall top,
    Forall (fun e => exists ns, Forall (fun x => regular x = true) ns
                                /\ fst (fst e) = join_all top ns) (walk top n).
Proof.
  induction n as [nm b|nm children IH] using node_induction; intros Hn top.
  - constructor.
  - cbn [walk]. constructor.
    + exists []. split; [constructor|reflexivity].
    + cbn [names_regular] in Hn. apply andb_true_iff in Hn as [_ Hn].
      rewrite forallb_forall in Hn. rewrite Forall_forall in IH.
      apply Forall_forall. intros e He. apply in_flat_map in He as (c & Hc & He).
      destruct c as [cn cb|cn cc]; [contradiction|].
      pose proof (Hn _ Hc) as Hreg.
      pose proof (IH _ Hc Hreg (join2 top cn)) as Hw.
      rewrite Forall_forall in Hw. destruct (Hw e He) as (ns & Hns & Hroot).
      exists (cn :: ns). split.
      * constructor; [|assumption]. cbn [names_regular] in Hreg.
        now apply andb_true_iff in Hreg as [Hreg _].
      * exact Hroot.
Qed.

Lemma kotlin_files_without (cwd directory : str) (pats : list str) (root_dir : str)
    (root d : str) (children : list node) (content : str) :
  should_exclude cwd (join2 root d) pats root_dir = Ok true ->
  kotlin_files cwd directory pats root_dir root (file_entries children) content
  = kotlin_files cwd directory pats root_dir root
      (file_entries (without d children)) content.
Proof.
  intros He. revert content. unfold without.
  induction children as [|c l IH]; intros content; [reflexivity|].
  cbn [filter]. destruct c as [nm b|nm cc]; cbn [node_name].
  - destruct (eqb nm d) eqn:E; cbn [negb].
    + apply str_eqb_eq in E. subst nm.
      change (file_entries (File d b :: l)) with ((d, b) :: file_entries l).
      cbn [kotlin_files]. rewrite He. cbn [bind negb].
      destruct (endswith d (lit ".kt")); apply IH.
    + change (file_entries (File nm b :: l)) with ((nm, b) :: file_entries l).
      change (file_entries (File nm b :: filter (fun c => negb (eqb (node_name c) d)) l))
        with ((nm, b) :: file_entries (filter (fun c => negb (eqb (node_name c) d)) l)).
      cbn [kotlin_files].
      destruct (endswith nm (lit ".kt")); [|apply IH].
      destruct (should_exclude cwd (join2 root nm) pats root_dir) as [[|]|];
        cbn [bind negb]; [apply IH| |reflexivity].
      destruct (read_bytes Ignore b); cbn [bind]; [|reflexivity].
      destruct (relpath cwd (join2 root nm) directory); cbn [bind];
        [apply IH|reflexivity].
  - destruct (negb (eqb nm d)); apply IH.
Qed.

(** The walk below an excluded directory adds nothing to the section. *)
Lemma kotlin_loop_without (cwd directory d : str) (pats : list str)
    (children : list node) (content : str) :
  isabs cwd = true -> regular d = true -> no_backslash d = true ->
  In (d ++ lit "/") pats -> forallb names_regular children = true ->
  kotlin_loop cwd directory pats directory
    (flat_map (fun c => match c with
                        | Dir nm _ => walk (join2 directory nm) c
                        | File _ _ => []
                        end) children) content
  = kotlin_loop cwd directory pats directory
      (flat_map (fun c => match c with
                          | Dir nm _ => walk (join2 directory nm) c
                          | File _ _ => []
                          end) (without d children)) content.
Proof.
  intros Hc Hd Hb Hin Hreg. revert content. unfold without.
  induction children as [|c l IH]; intros content; [reflexivity|].
  cbn [forallb] in Hreg. apply andb_true_iff in Hreg as [Hc1 Hl].
  cbn [flat_map filter]. destruct c as [nm b|nm cc]; cbn [node_name].
  - destruct (negb (eqb nm d)); cbn [flat_map app]; now apply IH.
  - destruct (eqb nm d) eqn:E; cbn [negb].
    + apply str_eqb_eq in E. subst nm. rewrite kotlin_loop_app.
      rewrite kotlin_loop_excluded; [cbn [bind]; now apply IH|].
      pose proof (walk_roots (Dir d cc) Hc1 (join2 directory d)) as Hw.
      eapply Forall_impl; [|exact Hw]. intros e (ns & Hns & Hroot).
      rewrite Hroot. now apply (excluded_below cwd directory d pats ns).
    + cbn [flat_map]. rewrite !kotlin_loop_app.
      destruct (kotlin_loop cwd directory pats directory
                  (walk (join2 directory nm) (Dir nm cc)) content);
        cbn [bind]; [now apply IH|reflexivity].
Qed.

Lemma kotlin_walk_without (cwd directory d nm : str) (pats : list str)
    (children : list node) :
  isabs cwd = true -> regular d = true -> no_backslash d = true ->
  In (d ++ lit "/") pats -> forallb names_regular children = true ->
  kotlin_loop cwd directory pats directory (walk directory (Dir nm children)) []
  = kotlin_loop cwd directory pats directory
      (walk directory (Dir nm (without d children))) [].
Proof.
  intros Hc Hd Hb Hin Hreg. cbn [walk kotlin_loop].
  destruct (should_exclude cwd directory pats directory) as [[|]|]; cbn [bind];
    [now apply kotlin_loop_without| |reflexivity].
  rewrite <- (kotlin_files_without cwd directory pats directory directory d children [])
    by (now apply excluded_entry).
  destruct (kotlin_files cwd directory pats directory directory
              (file_entries children) []); cbn [bind];
    [now apply kotlin_loop_without|reflexivity].
Qed.

Lemma delete_at_name (n : node) (comps : list str) (name : str) :
  node_name (delete_at n comps name) = node_name n.
Proof.
  destruct comps as [|c cs]; destruct n as [nm b|nm children]; cbn [delete_at];
    try reflexivity.
  now destruct (find_child c children).
Qed.

Lemma lookup_delete_at (n : node) (comps : list str) (name nm : str)
    (children : list node) :
  lookup n comps = Some (Dir nm children) ->
  lookup (delete_at n comps name) comps = Some (Dir nm (without name children)).
Proof.
  revert n. induction comps as [|c cs IH]; intros n H.
  - cbn [lookup] in H. injection H as ->. reflexivity.
  - cbn [lookup] in H. destruct n as [fn b|dn dc]; [discriminate|].
    destruct (find_child c dc) as [ch|] eqn:Ef; [|discriminate].
    cbn [delete_at]. rewrite Ef. cbn [lookup].
    rewrite (find_child_replace c (delete_at ch cs name) ch dc Ef).
    + now apply IH.
    + rewrite delete_at_name. now apply find_child_name in Ef.
Qed.

Lemma relpath_entry (cwd directory abs_path d : str) :
  isabs abs_path = true ->
  abs_comps cwd abs_path = abs_comps cwd directory ++ [d] ->
  relpath cwd abs_path directory = Ok d.
Proof.
  intros Ha Hcomps. unfold relpath.
  destruct abs_path as [|x p] eqn:E; [discriminate|]. rewrite <- E in *.
  replace (is_empty abs_path) with false by (now rewrite E).
  change (filter nonempty (split SLASH (abspath cwd directory)))
    with (abs_comps cwd directory).
  change (filter nonempty (split SLASH (abspath cwd abs_path)))
    with (abs_comps cwd abs_path).
  rewrite Hcomps, commonprefix_app, Nat.sub_diag, skipn_app, skipn_all, Nat.sub_diag.
  reflexivity.
Qed.

Lemma user_pattern_directory (cwd : str) (fs : node) (directory abs_path d : str) :
  isabs abs_path = true ->
  abs_comps cwd abs_path = abs_comps cwd directory ++ [d] ->
  isdir cwd fs abs_path = true ->
  regular d = true -> no_backslash d = true ->
  user_pattern cwd fs directory abs_path = Ok (d ++ lit "/").
Proof.
  intros Ha Hcomps Hdir Hd Hb. unfold user_pattern.
  rewrite (relpath_entry cwd directory abs_path d Ha Hcomps). cbn [bind].
  rewrite Hdir.
  rewrite replace_id by (unfold no_backslash in Hb; now apply negb_true_iff in Hb).
  rewrite rstrip_nosep; [reflexivity|]. now apply regular_inv in Hd.
Qed.

Lemma user_patterns_keep (cwd : str) (fs : node) (directory : str)
    (users acc pats : list str) (p : str) :
  user_patterns cwd fs directory users acc = Ok pats -> In p acc -> In p pats.
Proof.
  revert acc. induction users as [|u users IH]; intros acc H Hin.
  - cbn [user_patterns] in H. now injection H as <-.
  - cbn [user_patterns] in H.
    destruct (user_pattern cwd fs directory u) as [q|]; cbn [bind] in H;
      [|discriminate].
    apply (IH _ H). apply in_or_app. now left.
Qed.

Lemma user_patterns_In (cwd : str) (fs : node) (directory : str)
    (users acc pats : list str) (abs_path p : str) :
  user_patterns cwd fs directory users acc = Ok pats ->
  In abs_path users -> user_pattern cwd fs directory abs_path = Ok p ->
  In p pats.
Proof.
  revert acc. induction users as [|u users IH]; intros acc H Hin Hp; [contradiction|].
  cbn [user_patterns] in H.
  destruct (user_pattern cwd fs directory u) as [q|] eqn:Eq; cbn [bind] in H;
    [|discriminate].
  destruct Hin as [->|Hin].
  - rewrite Hp in Eq. injection Eq as <-.
    apply (user_patterns_keep _ _ _ _ _ _ _ H). apply in_or_app. right. now left.
  - now apply (IH _ H).
Qed.

(** C2, as stated, fails: the build script of the user-excluded
    directory [lib] is in the configuration section, which is
    aggregated without exclusions; and the user-excluded nested
    directory [app/sub] stays in the listing and in the source section,
    its pattern [app/sub/] being compared with single segments. *)
Lemma user_excluded_directory_present :
  isdir (lit "/") fs_user (lit "/proj/lib") = true
  /\ isdir (lit "/") fs_user (lit "/proj/app/sub") = true
  /\ patterns_with_excludes (lit "/") fs_user (lit "/proj")
       [lit "/proj/lib"; lit "/proj/app/sub"]
     = Ok (standard_exclusions ++ [lit "lib/"; lit "app/sub/"])
  /\ document_contains fs_user (lit "/proj") [lit "/proj/lib"; lit "/proj/app/sub"]
       (lit "### Gradle Script: lib/build.gradle.kts") = true
  /\ document_contains fs_user (lit "/proj") [lit "/proj/lib"; lit "/proj/app/sub"]
       (lit "  - sub/" ++ NL ++ lit "    - file.kt") = true
  /\ document_contains fs_user (lit "/proj") [lit "/proj/lib"; lit "/proj/app/sub"]
       (lit "## File: app/sub/file.kt") = true
  /\ document_contains fs_user (lit "/proj") [lit "/proj/lib"; lit "/proj/app/sub"]
       (lit "x.kt") = false.
Proof. vm_compute. repeat split. Qed.

(** C2, amended: for a user-supplied absolute path of a sub-directory
    that is an entry [d] of the project directory, the File Structure
    listing and the extracted-source section that
    [generate_markdown_with_excludes] builds are those of the project
    without that sub-directory: nothing of it or below it appears in
    them, whatever [.gitignore] says.  (The configuration section is
    built without exclusions.) *)
Theorem user_excluded_subdirectory_absent (cwd : str) (fs : node)
    (directory abs_path d nm : str) (children : list node)
    (user_excluded_paths exclude_patterns : list str) :
  isabs cwd = true ->
  resolve cwd fs directory = Some (Dir nm children) ->
  forallb names_regular children = true ->
  regular d = true -> no_backslash d = true ->
  isabs abs_path = true ->
  abs_comps cwd abs_path = abs_comps cwd directory ++ [d] ->
  isdir cwd fs abs_path = true ->
  In abs_path user_excluded_paths ->
  patterns_with_excludes cwd fs directory user_excluded_paths = Ok exclude_patterns ->
  let fs' := delete_at fs (abs_comps cwd directory) d in
  generate_file_structure cwd fs directory [] exclude_patterns directory
    (Some (lit "app"))
  = generate_file_structure cwd fs' directory [] exclude_patterns directory
      (Some (lit "app"))
  /\ include_kotlin_files cwd fs directory exclude_patterns directory
     = include_kotlin_files cwd fs' directory exclude_patterns directory.
Proof.
  intros Hc Hres Hreg Hd Hb Ha Hcomps Hdir Hin Hpats fs'.
  assert (Hp : In (d ++ lit "/") exclude_patterns).
  { unfold patterns_with_excludes in Hpats.
    destruct (parse_gitignore cwd fs directory) as [base|]; cbn [bind] in Hpats;
      [|discriminate].
    apply (user_patterns_In _ _ _ _ _ _ abs_path _ Hpats Hin).
    now apply user_pattern_directory. }
  assert (Hres' : resolve cwd fs' directory = Some (Dir nm (without d children))).
  { unfold resolve, fs'. now apply lookup_delete_at. }
  split.
  - unfold generate_file_structure. rewrite Hres, Hres'.
    apply file_structure_without. now apply excluded_entry.
  - unfold include_kotlin_files, os_walk. rewrite Hres, Hres'.
    now apply kotlin_walk_without.
Qed.

(** The theorem above at a concrete input. *)
Lemma user_excluded_subdirectory_absent_witness :
  generate_file_structure (lit "/") fs_user (lit "/proj") []
    (standard_exclusions ++ [lit "lib/"]) (lit "/proj") (Some (lit "app"))
  = generate_file_structure (lit "/")
      (delete_at fs_user (abs_comps (lit "/") (lit "/proj")) (lit "lib"))
      (lit "/proj") [] (standard_exclusions ++ [lit "lib/"]) (lit "/proj")
      (Some (lit "app"))
  /\ include_kotlin_files (lit "/") fs_user (lit "/proj")
       (standard_exclusions ++ [lit "lib/"]) (lit "/proj")
     = include_kotlin_files (lit "/")
         (delete_at fs_user (abs_comps (lit "/") (lit "/proj")) (lit "lib"))
         (lit "/proj") (standard_exclusions ++ [lit "lib/"]) (lit "/proj").
Proof.
  apply (user_excluded_subdirectory_absent (lit "/") fs_user (lit "/proj")
           (lit "/proj/lib") (lit "lib") (lit "proj")
           [Dir (lit "app")
              [Dir (lit "sub")
                 [File (lit "file.kt") (list_byte_of_string "fun f(){}")];
               File (lit "Main.kt") (list_byte_of_string "fun main(){}")];
            Dir (lit "lib")
              [File (lit "x.kt") (list_byte_of_string "val x = 1");
               File (lit "build.gradle.kts") (list_byte_of_string "plugins {}")]]
           [lit "/proj/lib"] (standard_exclusions ++ [lit "lib/"]));
    try reflexivity.
  now left.
Defined.

(** * Facts about decoding *)

(** With [errors="ignore"] decoding never raises. *)
Lemma decode_ignore_total (bs : list Byte.byte) :
  exists s, decode Ignore bs = Ok s.
Proof.
  remember (List.length bs) as n eqn:Hn.
  assert (Hle : List.length bs <= n) by lia. clear Hn.
  revert bs Hle. induction n as [|n IH]; intros bs Hle.
  - destruct bs; [now exists []|cbn in Hle; lia].
  - destruct bs as [|x0 r0]; [now exists []|].
    cbn [List.length] in Hle.
    assert (H0 : exists s, decode Ignore r0 = Ok s) by (apply IH; lia).
    cbn [decode].
    assert (Hemit : forall c r, List.length r <= n ->
                                exists s, emit c (decode Ignore r) = Ok s).
    { intros c r Hr. destruct (IH r Hr) as [s Hs]. rewrite Hs.
      now exists (c :: s). }
    destruct (width (Byte.to_N x0)) as [|[|[|[|[|w]]]]]; cbn [on_error];
      try exact H0.
    + apply Hemit. lia.
    + destruct r0 as [|x1 r1]; [exact H0|].
      destruct (second_ok _ _); [|exact H0]. apply Hemit. cbn in Hle. lia.
    + destruct r0 as [|x1 [|x2 r2]]; try exact H0.
      destruct (_ && _); [|exact H0]. apply Hemit. cbn in Hle. lia.
    + destruct r0 as [|x1 [|x2 [|x3 r3]]]; try exact H0.
      destruct (_ && _); [|exact H0]. apply Hemit. cbn in Hle. lia.
Qed.

Lemma read_bytes_ignore_total (content : list Byte.byte) :
  exists s, read_bytes Ignore content = Ok s.
Proof.
  unfold read_bytes. destruct (decode_ignore_total content) as [s ->].
  now eexists.
Qed.

(** * Further properties of the matcher *)

Lemma exclude_loop_incl (rel : str) (parts ps qs : list str) :
  incl ps qs -> exclude_loop rel parts ps = true -> exclude_loop rel parts qs = true.
Proof.
  intros Hi H. apply exclude_loop_true in H as (p & Hp & Hm).
  apply exclude_loop_true. exists p. split; [now apply Hi|assumption].
Qed.

Lemma should_exclude_incl (cwd path root : str) (ps qs : list str) :
  incl ps qs ->
  should_exclude cwd path ps root = Ok true ->
  should_exclude cwd path qs root = Ok true.
Proof.
  intros Hi. unfold should_exclude.
  destruct (relpath cwd path root) as [rel|e]; cbn [bind]; [|discriminate].
  intros H. injection H as H. f_equal. now apply (exclude_loop_incl _ _ ps).
Qed.

(** X1: exclusions only add up.  A path excluded under a list of
    patterns stays excluded under every list that contains those
    patterns: no pattern takes an exclusion back. *)
Theorem exclusions_only_add (cwd path root : str) (ps qs : list str) :
  incl ps qs ->
  should_exclude cwd path ps root = Ok true ->
  should_exclude cwd path qs root = Ok true.
Proof. apply should_exclude_incl. Qed.

(** The theorem above at a concrete input. *)
Lemma exclusions_only_add_witness :
  incl [lit "*.log"] [lit "!*.log"; lit "*.log"]
  /\ should_exclude (lit "/") (lit "/proj/a.log") [lit "*.log"] (lit "/proj") = Ok true
  /\ should_exclude (lit "/") (lit "/proj/a.log") [lit "!*.log"; lit "*.log"] (lit "/proj")
     = Ok true.
Proof.
  assert (H : incl [lit "*.log"] [lit "!*.log"; lit "*.log"]).
  { intros p [<-|[]]. right. now left. }
  split; [exact H|]. split; [reflexivity|].
  exact (exclusions_only_add (lit "/") (lit "/proj/a.log") (lit "/proj") _ _ H eq_refl).
Defined.

Lemma user_patterns_prefix (cwd : str) (fs : node) (directory : str)
    (users acc pats : list str) :
  user_patterns cwd fs directory users acc = Ok pats ->
  exists extra, pats = acc ++ extra /\ List.length extra = List.length users.
Proof.
  revert acc. induction users as [|u users IH]; intros acc H.
  - cbn [user_patterns] in H. injection H as <-. exists []. now rewrite app_nil_r.
  - cbn [user_patterns] in H.
    destruct (user_pattern cwd fs directory u) as [q|]; cbn [bind] in H;
      [|discriminate].
    destruct (IH _ H) as (extra & -> & Hl). exists (q :: extra).
    rewrite <- app_assoc. split; [reflexivity|]. cbn [List.length]. now rewrite Hl.
Qed.

Lemma parse_gitignore_prefix (cwd : str) (fs : node) (directory : str)
    (pats : list str) :
  parse_gitignore cwd fs directory = Ok pats ->
  exists lines, pats = standard_exclusions ++ lines.
Proof.
  unfold parse_gitignore.
  destruct (isfile cwd fs (join2 directory (lit ".gitignore"))).
  - destruct (read_text cwd fs (join2 directory (lit ".gitignore")) Strict) as [text|];
      cbn [bind]; [|discriminate].
    intros H. injection H as <-. now eexists.
  - intros H. injection H as <-. exists []. now rewrite app_nil_r.
Qed.

(** X2: the patterns of a generation are the standard exclusions, then
    the lines kept from [.gitignore], then one pattern for each
    user-excluded path, in that order; so whatever the standard
    exclusions exclude is excluded in every generated document,
    whatever [.gitignore] holds and whatever the user chose. *)
Theorem standard_exclusions_always_apply (cwd : str) (fs : node)
    (directory : str) (user_excluded_paths exclude_patterns : list str) :
  patterns_with_excludes cwd fs directory user_excluded_paths = Ok exclude_patterns ->
  (exists from_gitignore from_user,
      parse_gitignore cwd fs directory = Ok (standard_exclusions ++ from_gitignore)
      /\ exclude_patterns = standard_exclusions ++ from_gitignore ++ from_user
      /\ List.length from_user = List.length user_excluded_paths)
  /\ (forall path root,
         should_exclude cwd path standard_exclusions root = Ok true ->
         should_exclude cwd path exclude_patterns root = Ok true).
Proof.
  intros H. unfold patterns_with_excludes in H.
  destruct (parse_gitignore cwd fs directory) as [base|] eqn:Eb; cbn [bind] in H;
    [|discriminate].
  destruct (parse_gitignore_prefix _ _ _ _ Eb) as (lines & ->).
  destruct (user_patterns_prefix _ _ _ _ _ _ H) as (extra & -> & Hl).
  split.
  - exists lines, extra. rewrite <- app_assoc. auto.
  - intros path root. apply should_exclude_incl.
    intros p Hp. apply in_or_app. left. apply in_or_app. now left.
Qed.

(** The theorem above at a concrete input. *)
Lemma standard_exclusions_always_apply_witness :
  patterns_with_excludes (lit "/") fs_user (lit "/proj") [lit "/proj/lib"]
  = Ok (standard_exclusions ++ [lit "lib/"])
  /\ (should_exclude (lit "/") (lit "/proj/app/build/x.kt") standard_exclusions
        (lit "/proj") = Ok true ->
      should_exclude (lit "/") (lit "/proj/app/build/x.kt")
        (standard_exclusions ++ [lit "lib/"]) (lit "/proj") = Ok true).
Proof.
  assert (H : patterns_with_excludes (lit "/") fs_user (lit "/proj") [lit "/proj/lib"]
              = Ok (standard_exclusions ++ [lit "lib/"])) by reflexivity.
  split; [exact H|].
  exact (proj2 (standard_exclusions_always_apply (lit "/") fs_user (lit "/proj")
                  [lit "/proj/lib"] _ H) (lit "/proj/app/build/x.kt") (lit "/proj")).
Defined.

(** X3: [should_exclude] raises exactly on the empty path, whatever
    the patterns and the root, and what it raises is the [ValueError]
    of [os.path.relpath]; on every other path it answers. *)
Theorem should_exclude_raises_on_empty_path (cwd path root : str)
    (exclude_patterns : list str) :
  (should_exclude cwd path exclude_patterns root = Raise ValueError <-> path = [])
  /\ (forall e, should_exclude cwd path exclude_patterns root = Raise e ->
                e = ValueError).
Proof.
  unfold should_exclude, relpath. destruct path as [|c p]; cbn [is_empty bind].
  - split; [tauto|]. intros e H. now injection H as <-.
  - destruct (_ ++ _) as [|x xs]; cbn [bind];
      (split; [split; discriminate|intros e; discriminate]).
Qed.

Lemma commonprefix_refl (l : list str) : commonprefix l l = l.
Proof.
  pose proof (commonprefix_app l []) as H. now rewrite app_nil_r in H.
Qed.

Lemma relpath_self (cwd root : str) :
  root <> [] -> relpath cwd root root = Ok (lit ".").
Proof.
  intros H. unfold relpath. destruct root as [|c r] eqn:E; [contradiction|].
  rewrite <- E. replace (is_empty root) with false by now rewrite E.
  rewrite commonprefix_refl, Nat.sub_diag, skipn_all. reflexivity.
Qed.

(** X4: the root of a run is tested as the path [.].  The relative
    path of the root to itself is [.], so on the root [should_exclude]
    answers what the patterns say of [.]: none of the standard
    exclusions matches it, and a pattern such as [.*] does. *)
Theorem root_is_tested_as_dot (cwd root : str) (exclude_patterns : list str) :
  root <> [] ->
  relpath cwd root root = Ok (lit ".")
  /\ should_exclude cwd root exclude_patterns root
     = Ok (exclude_loop (lit ".") [lit "."] exclude_patterns)
  /\ should_exclude cwd root standard_exclusions root = Ok false
  /\ should_exclude cwd root (standard_exclusions ++ [lit ".*"]) root = Ok true.
Proof.
  intros H. pose proof (relpath_self cwd root H) as Hr. split; [exact Hr|].
  unfold should_exclude. rewrite Hr. repeat split.
Qed.

(** The theorem above at a concrete input. *)
Lemma root_is_tested_as_dot_witness :
  lit "proj" <> []
  /\ should_exclude (lit "/home/u") (lit "proj") standard_exclusions (lit "proj")
     = Ok false.
Proof.
  assert (H : lit "proj" <> []) by discriminate.
  split; [exact H|].
  exact (proj1 (proj2 (proj2 (root_is_tested_as_dot (lit "/home/u") (lit "proj")
                                [] H)))).
Defined.

(** X5: a directory pattern with a separator inside, such as
    [app/sub/] or a [.gitignore] line [docs/build/], matches nothing:
    once its trailing separators are stripped it is compared with
    single segments of the relative path. *)
Theorem inner_separator_pattern_matches_nothing (cwd path root pattern : str) :
  endswith pattern (lit "/") = true ->
  has_separator (rstrip SLASH pattern) = true ->
  (forall rel, pattern_matches rel (split SLASH rel) pattern = false)
  /\ (path <> [] -> should_exclude cwd path [pattern] root = Ok false).
Proof.
  intros He Hs.
  assert (Hm : forall rel, pattern_matches rel (split SLASH rel) pattern = false).
  { intros rel. rewrite pattern_matches_dir by assumption.
    destruct (mem (rstrip SLASH pattern) (split SLASH rel)) eqn:E; [|reflexivity].
    apply mem_In in E. pose proof (split_no_sep_inside SLASH rel) as Hf.
    rewrite Forall_forall in Hf. apply Hf in E.
    unfold has_separator in Hs. congruence. }
  split; [exact Hm|].
  intros Hp. unfold should_exclude, relpath.
  destruct path as [|c p]; [contradiction|]. cbn [is_empty].
  destruct (_ ++ _) as [|x xs]; cbn [bind]; f_equal;
    apply exclude_loop_false; (constructor; [apply Hm|constructor]).
Qed.

(** The theorem above at a concrete input. *)
Lemma inner_separator_pattern_matches_nothing_witness :
  endswith (lit "app/sub/") (lit "/") = true
  /\ has_separator (rstrip SLASH (lit "app/sub/")) = true
  /\ should_exclude (lit "/") (lit "/proj/app/sub") [lit "app/sub/"] (lit "/proj")
     = Ok false.
Proof.
  split; [reflexivity|]. split; [reflexivity|].
  apply (proj2 (inner_separator_pattern_matches_nothing (lit "/") (lit "/proj/app/sub")
                  (lit "/proj") (lit "app/sub/") eq_refl eq_refl)).
  discriminate.
Defined.

Lemma endswith_cons (c : char) (s p : str) :
  endswith (c :: s) p = eqb (c :: s) p || endswith s p.
Proof.
  destruct (eqb (c :: s) p) eqn:E1; cbn [orb].
  - apply str_eqb_eq in E1. rewrite <- E1. apply (endswith_app [] (c :: s)).
  - destruct (endswith s p) eqn:E2.
    + apply endswith_inv in E2 as [r ->].
      change (c :: r ++ p) with ((c :: r) ++ p). apply endswith_app.
    + destruct (endswith (c :: s) p) eqn:E3; [|reflexivity].
      apply endswith_inv in E3 as [r Hr]. destruct r as [|x r].
      * cbn [app] in Hr. rewrite Hr, str_eqb_refl in E1. discriminate.
      * injection Hr as -> ->. now rewrite endswith_app in E2.
Qed.

Lemma matches_star_literal (p name : str) :
  matches (STAR :: map LITERAL p) name = endswith name p.
Proof.
  induction name as [|c s IH].
  - cbn [matches]. rewrite matches_literal, orb_false_r.
    unfold endswith. cbn [rev]. destruct p as [|x p]; [reflexivity|].
    destruct (rev (x :: p)) eqn:E; [|reflexivity].
    apply (f_equal (@rev char)) in E. rewrite rev_involutive in E. discriminate.
  - rewrite endswith_cons, <- IH. cbn [matches]. now rewrite matches_literal.
Qed.

(** X6: a pattern [*suffix] whose suffix has no wildcard, such as the
    standard [*.log], is a test on the end of the whole relative path:
    it excludes every path with that ending at any depth, files and
    directories alike, and no other path. *)
Theorem star_suffix_pattern_tests_ending (cwd path root suffix : str) :
  wildcard_free suffix = true ->
  endswith suffix (lit "/") = false -> suffix <> [] ->
  (forall rel parts,
      pattern_matches rel parts (C_STAR :: suffix) = endswith rel suffix)
  /\ (should_exclude cwd path [C_STAR :: suffix] root = Ok true <->
      exists rel, relpath cwd path root = Ok rel
                  /\ endswith (replace BACKSLASH SLASH rel) suffix = true).
Proof.
  intros Hw He Hn.
  assert (Hd : endswith (C_STAR :: suffix) (lit "/") = false).
  { rewrite endswith_cons, He, orb_false_r. apply str_eqb_neq.
    destruct suffix; [contradiction|discriminate]. }
  assert (Hm : forall rel parts,
             pattern_matches rel parts (C_STAR :: suffix) = endswith rel suffix).
  { intros rel parts. rewrite pattern_matches_file by assumption.
    unfold fnmatch, translate. cbn [translate_loop]. rewrite N.eqb_refl.
    rewrite translate_loop_literal by assumption. apply matches_star_literal. }
  split; [exact Hm|].
  unfold should_exclude. destruct (relpath cwd path root) as [rel|e]; cbn [bind].
  - rewrite exclude_loop_existsb. cbn [existsb]. rewrite Hm, orb_false_r. split.
    + intros H. injection H as H. now exists rel.
    + intros (rel' & E & H). injection E as <-. now rewrite H.
  - split; [discriminate|]. intros (rel & E & _). discriminate.
Qed.

(** The theorem above at a concrete input. *)
Lemma star_suffix_pattern_tests_ending_witness :
  wildcard_free (lit ".log") = true /\ endswith (lit ".log") (lit "/") = false
  /\ lit ".log" <> []
  /\ pattern_matches (lit "run/out/a.log") [] (C_STAR :: lit ".log")
     = endswith (lit "run/out/a.log") (lit ".log").
Proof.
  assert (H : lit ".log" <> []) by discriminate.
  split; [reflexivity|]. split; [reflexivity|]. split; [exact H|].
  exact (proj1 (star_suffix_pattern_tests_ending (lit "/") (lit "/proj/run/out/a.log")
                  (lit "/proj") (lit ".log") eq_refl eq_refl H)
           (lit "run/out/a.log") []).
Defined.

(** * Further properties of the walkers *)

Lemma relpath_below (cwd directory abs_path : str) (ns : list str) :
  isabs abs_path = true ->
  Forall (fun n => regular n = true) ns -> ns <> [] ->
  abs_comps cwd abs_path = abs_comps cwd directory ++ ns ->
  relpath cwd abs_path directory = Ok (Str.join [SLASH] ns).
Proof.
  intros Ha Hns Hne Hcomps. unfold relpath.
  destruct abs_path as [|x p] eqn:E; [discriminate|]. rewrite <- E in *.
  replace (is_empty abs_path) with false by (now rewrite E).
  change (filter nonempty (split SLASH (abspath cwd directory)))
    with (abs_comps cwd directory).
  change (filter nonempty (split SLASH (abspath cwd abs_path)))
    with (abs_comps cwd abs_path).
  rewrite Hcomps, commonprefix_app, Nat.sub_diag, skipn_app, skipn_all, Nat.sub_diag.
  cbn [repeat app skipn].
  destruct ns as [|c cs]; [contradiction|]. inversion Hns; subst.
  rewrite join_all_extensible; auto using regular_extensible.
Qed.

Lemma wildcard_free_app (a b : str) :
  wildcard_free (a ++ b) = wildcard_free a && wildcard_free b.
Proof. unfold wildcard_free. apply forallb_app. Qed.

Lemma wildcard_free_join (ns : list str) :
  Forall (fun n => wildcard_free n = true) ns ->
  wildcard_free (Str.join [SLASH] ns) = true.
Proof.
  induction 1 as [|x l Hx Hl IH]; [reflexivity|].
  destruct l as [|y l]; [exact Hx|].
  change (Str.join [SLASH] (x :: y :: l))
    with (x ++ [SLASH] ++ Str.join [SLASH] (y :: l)).
  rewrite !wildcard_free_app, Hx, IH. reflexivity.
Qed.

Lemma no_backslash_join (ns : list str) :
  Forall (fun n => no_backslash n = true) ns ->
  no_backslash (Str.join [SLASH] ns) = true.
Proof.
  induction 1 as [|x l Hx Hl IH]; [reflexivity|].
  destruct l as [|y l]; [exact Hx|].
  change (Str.join [SLASH] (x :: y :: l))
    with (x ++ [SLASH] ++ Str.join [SLASH] (y :: l)).
  rewrite !no_backslash_app, Hx, IH. reflexivity.
Qed.

Lemma join_not_dir (ns : list str) :
  Forall (fun n => regular n = true) ns -> ns <> [] ->
  endswith (Str.join [SLASH] ns) [SLASH] = false.
Proof.
  intros Hns Hne. destruct (exists_last Hne) as (l & x & ->).
  apply Forall_app in Hns as [_ Hx]. inversion Hx; subst.
  match goal with [ X : regular x = true |- _ ] =>
    apply regular_inv in X as (Hx1 & Hx2 & _) end.
  destruct l as [|y l].
  - cbn [app Str.join]. now apply (endswith_app_nosep [] x).
  - rewrite join_snoc by discriminate.
    change (Str.join [SLASH] (y :: l) ++ SLASH :: x)
      with (Str.join [SLASH] (y :: l) ++ [SLASH] ++ x).
    rewrite app_assoc. now apply endswith_app_nosep.
Qed.

(** X7: a file the user excludes is excluded wherever it lies.  For a
    path that is not a directory, made of entry names below the project
    directory that hold no backslash and no wildcard character, the
    pattern is the relative path itself, and the path both walkers
    build for that file is excluded by it. *)
Theorem user_excluded_file_is_excluded (cwd : str) (fs : node)
    (directory abs_path : str) (ns user_excluded_paths exclude_patterns : list str) :
  isabs cwd = true ->
  Forall (fun n => regular n = true) ns -> ns <> [] ->
  Forall (fun n => no_backslash n = true) ns ->
  Forall (fun n => wildcard_free n = true) ns ->
  isabs abs_path = true ->
  abs_comps cwd abs_path = abs_comps cwd directory ++ ns ->
  isdir cwd fs abs_path = false ->
  In abs_path user_excluded_paths ->
  patterns_with_excludes cwd fs directory user_excluded_paths = Ok exclude_patterns ->
  user_pattern cwd fs directory abs_path = Ok (Str.join [SLASH] ns)
  /\ should_exclude cwd (join_all directory ns) exclude_patterns directory = Ok true.
Proof.
  intros Hc Hns Hne Hb Hw Ha Hcomps Hdir Hin Hpats.
  assert (Hrel : replace BACKSLASH SLASH (Str.join [SLASH] ns) = Str.join [SLASH] ns).
  { apply replace_id. pose proof (no_backslash_join ns Hb) as H.
    unfold no_backslash in H. now apply negb_true_iff in H. }
  assert (Hp : user_pattern cwd fs directory abs_path = Ok (Str.join [SLASH] ns)).
  { unfold user_pattern. rewrite (relpath_below cwd directory abs_path ns) by assumption.
    cbn [bind]. rewrite Hdir, Hrel. reflexivity. }
  split; [exact Hp|].
  assert (Hi : In (Str.join [SLASH] ns) exclude_patterns).
  { unfold patterns_with_excludes in Hpats.
    destruct (parse_gitignore cwd fs directory) as [base|]; cbn [bind] in Hpats;
      [|discriminate].
    exact (user_patterns_In _ _ _ _ _ _ abs_path _ Hpats Hin Hp). }
  rewrite should_exclude_join_all by assumption. f_equal.
  apply exclude_loop_true. exists (Str.join [SLASH] ns). split; [exact Hi|].
  rewrite pattern_matches_file by (now apply join_not_dir).
  rewrite fnmatch_literal by (now apply wildcard_free_join).
  unfold rel_of. rewrite Hrel. apply str_eqb_refl.
Qed.

(** The theorem above at a concrete input. *)
Lemma user_excluded_file_is_excluded_witness :
  should_exclude (lit "/")
    (join_all (lit "/proj") [lit "app"; lit "sub"; lit "file.kt"])
    (standard_exclusions ++ [lit "app/sub/file.kt"]) (lit "/proj") = Ok true.
Proof.
  apply (proj2 (user_excluded_file_is_excluded (lit "/") fs_user (lit "/proj")
                  (lit "/proj/app/sub/file.kt") [lit "app"; lit "sub"; lit "file.kt"]
                  [lit "/proj/app/sub/file.kt"]
                  (standard_exclusions ++ [lit "app/sub/file.kt"])
                  eq_refl
                  ltac:(repeat constructor) ltac:(discriminate)
                  ltac:(repeat constructor) ltac:(repeat constructor)
                  eq_refl eq_refl eq_refl (or_introl eq_refl) eq_refl)).
Defined.

Lemma should_exclude_answers (cwd path root : str) (pats : list str) :
  path <> [] -> exists b, should_exclude cwd path pats root = Ok b.
Proof.
  intros H. unfold should_exclude, relpath.
  destruct path as [|c p]; [contradiction|]. cbn [is_empty].
  destruct (_ ++ _); cbn [bind]; eauto.
Qed.

Lemma relpath_answers (cwd path start : str) :
  path <> [] -> exists rel, relpath cwd path start = Ok rel.
Proof.
  intros H. unfold relpath. destruct path as [|c p]; [contradiction|].
  cbn [is_empty]. destruct (_ ++ _); eauto.
Qed.

Lemma join2_nonempty_l (a b : str) : a <> [] -> join2 a b <> [].
Proof.
  intros Ha. unfold join2. destruct (startswith b [SLASH]) eqn:E.
  - intros ->. discriminate.
  - destruct (_ || _); intros H; apply app_eq_nil in H as [H _]; contradiction.
Qed.

Lemma walk_roots_nonempty (n : node) :
  forall top, top <> [] -> Forall (fun e => fst (fst e) <> []) (walk top n).
Proof.
  induction n as [nm b|nm children IH] using node_induction; intros top Ht.
  - constructor.
  - cbn [walk]. constructor; [exact Ht|].
    rewrite Forall_forall in IH. apply Forall_forall.
    intros e He. apply in_flat_map in He as (c & Hc & He).
    destruct c as [cn cb|cn cc]; [contradiction|].
    pose proof (IH _ Hc (join2 top cn) (join2_nonempty_l top cn Ht)) as Hw.
    rewrite Forall_forall in Hw. now apply Hw.
Qed.

Lemma kotlin_files_answers (cwd directory : str) (pats : list str) (root_dir root : str)
    (files : list (str * list Byte.byte)) (content : str) :
  root <> [] ->
  exists s, kotlin_files cwd directory pats root_dir root files content = Ok s.
Proof.
  intros Hr. revert content.
  induction files as [|[file bytes] files IH]; intros content; [now eexists|].
  cbn [kotlin_files]. destruct (endswith file (lit ".kt")); [|apply IH].
  pose proof (join2_nonempty_l root file Hr) as Hp.
  destruct (should_exclude_answers cwd _ root_dir pats Hp) as [b ->]. cbn [bind].
  destruct b; cbn [negb]; [apply IH|].
  destruct (read_bytes_ignore_total bytes) as [text ->]. cbn [bind].
  destruct (relpath_answers cwd _ directory Hp) as [rel ->]. cbn [bind]. apply IH.
Qed.

Lemma gradle_files_answers (cwd directory root : str)
    (files : list (str * list Byte.byte)) (content : str) :
  root <> [] -> exists s, gradle_files cwd directory root files content = Ok s.
Proof.
  intros Hr. revert content.
  induction files as [|[file bytes] files IH]; intros content; [now eexists|].
  cbn [gradle_files]. destruct (_ || _); [|apply IH].
  pose proof (join2_nonempty_l root file Hr) as Hp.
  destruct (read_bytes_ignore_total bytes) as [text ->]. cbn [bind].
  destruct (relpath_answers cwd _ directory Hp) as [rel ->]. cbn [bind].
  destruct (endswith file (lit ".gradle.kts")); [apply IH|].
  destruct (eqb file (lit "libs.versions.toml")); apply IH.
Qed.

Lemma kotlin_loop_answers (cwd directory : str) (pats : list str) (root_dir : str)
    (entries : list walk_entry) (content : str) :
  Forall (fun e : walk_entry => fst (fst e) <> []) entries ->
  exists s, kotlin_loop cwd directory pats root_dir entries content = Ok s.
Proof.
  revert content. induction entries as [|[[root dirs] files] l IH]; intros content Hw;
    [now eexists|].
  inversion Hw as [|? ? Hx Hl]; subst. cbn [fst] in Hx. cbn [kotlin_loop].
  destruct (should_exclude_answers cwd root root_dir pats Hx) as [b ->].
  cbn [bind]. destruct b; [now apply IH|].
  destruct (kotlin_files_answers cwd directory pats root_dir root files content Hx)
    as [s ->].
  cbn [bind]. now apply IH.
Qed.

Lemma gradle_loop_answers (cwd directory : str) (entries : list walk_entry)
    (content : str) :
  Forall (fun e : walk_entry => fst (fst e) <> []) entries ->
  exists s, gradle_loop cwd directory entries content = Ok s.
Proof.
  revert content. induction entries as [|[[root dirs] files] l IH]; intros content Hw;
    [now eexists|].
  inversion Hw as [|? ? Hx Hl]; subst. cbn [fst] in Hx. cbn [gradle_loop].
  destruct (gradle_files_answers cwd directory root files content Hx) as [s ->].
  cbn [bind]. now apply IH.
Qed.

Lemma os_walk_roots_nonempty (cwd : str) (fs : node) (directory : str) :
  directory <> [] ->
  Forall (fun e : walk_entry => fst (fst e) <> []) (os_walk cwd fs directory).
Proof.
  intros Hd. unfold os_walk.
  destruct (resolve cwd fs directory); [now apply walk_roots_nonempty|constructor].
Qed.

(** X8: no content makes the two aggregating walks raise a decode
    error.  [include_kotlin_files] and [include_gradle_and_toml_files]
    read every file with [errors="ignore"]: whatever bytes the files
    hold, and whatever the patterns, neither raises
    [UnicodeDecodeError], unlike the readers of [.gitignore] and of the
    README. *)
Theorem aggregation_raises_no_decode_error (cwd : str) (fs : node)
    (directory : str) (exclude_patterns : list str) (root_dir : str) :
  directory <> [] ->
  include_kotlin_files cwd fs directory exclude_patterns root_dir
  <> Raise UnicodeDecodeError
  /\ include_gradle_and_toml_files cwd fs directory <> Raise UnicodeDecodeError.
Proof.
  intros Hd. pose proof (os_walk_roots_nonempty cwd fs directory Hd) as Hw. split.
  - destruct (kotlin_loop_answers cwd directory exclude_patterns root_dir
                (os_walk cwd fs directory) [] Hw) as [s Hs].
    unfold include_kotlin_files. rewrite Hs. discriminate.
  - destruct (gradle_loop_answers cwd directory (os_walk cwd fs directory) [] Hw)
      as [s Hs].
    unfold include_gradle_and_toml_files. rewrite Hs. discriminate.
Qed.

(** The theorem above at a concrete input, a project with a source
    file that is not UTF-8. *)
Lemma aggregation_raises_no_decode_error_witness :
  lit "/proj" <> []
  /\ include_kotlin_files (lit "/") fs_undecodable (lit "/proj")
       standard_exclusions (lit "/proj") <> Raise UnicodeDecodeError.
Proof.
  assert (H : lit "/proj" <> []) by discriminate.
  split; [exact H|].
  exact (proj1 (aggregation_raises_no_decode_error (lit "/") fs_undecodable
                  (lit "/proj") standard_exclusions (lit "/proj") H)).
Defined.

Lemma decode_strict_error (bs : list Byte.byte) (e : error) :
  decode Strict bs = Raise e -> e = UnicodeDecodeError.
Proof.
  remember (List.length bs) as n eqn:Hn.
  assert (Hle : List.length bs <= n) by lia. clear Hn.
  revert bs Hle. induction n as [|n IH]; intros bs Hle.
  - destruct bs; [discriminate|cbn in Hle; lia].
  - destruct bs as [|x0 r0]; [discriminate|].
    cbn [List.length] in Hle. cbn [decode].
    assert (Hemit : forall c r, List.length r <= n ->
                                emit c (decode Strict r) = Raise e ->
                                e = UnicodeDecodeError).
    { intros c r Hr. unfold emit.
      destruct (decode Strict r) as [s|e'] eqn:Ed; cbn [bind]; [discriminate|].
      intros H. injection H as ->. now apply (IH r). }
    assert (Hraise : Raise (A:=str) UnicodeDecodeError = Raise e ->
                     e = UnicodeDecodeError) by (intros H; now injection H).
    destruct (width (Byte.to_N x0)) as [|[|[|[|[|w]]]]]; cbn [on_error];
      try exact Hraise.
    + apply Hemit. lia.
    + destruct r0 as [|x1 r1]; [exact Hraise|].
      destruct (second_ok _ _); [|exact Hraise]. apply Hemit. cbn in Hle. lia.
    + destruct r0 as [|x1 [|x2 r2]]; try exact Hraise.
      destruct (_ && _); [|exact Hraise]. apply Hemit. cbn in Hle. lia.
    + destruct r0 as [|x1 [|x2 [|x3 r3]]]; try exact Hraise.
      destruct (_ && _); [|exact Hraise]. apply Hemit. cbn in Hle. lia.
Qed.

Lemma read_text_error (cwd : str) (fs : node) (path : str) (e : error) :
  isfile cwd fs path = true ->
  read_text cwd fs path Strict = Raise e ->
  e = UnicodeDecodeError
  /\ exists nm content, resolve cwd fs path = Some (File nm content)
                        /\ decode Strict content = Raise UnicodeDecodeError.
Proof.
  unfold isfile, read_text.
  destruct (resolve cwd fs path) as [[nm content|nm children]|]; try discriminate.
  intros _. unfold read_bytes.
  destruct (decode Strict content) as [s|e'] eqn:Ed; cbn [bind]; [discriminate|].
  intros H. injection H as ->.
  pose proof (decode_strict_error _ _ Ed) as ->. eauto.
Qed.

(** X9: absence is not an error, and a decode error comes from the
    bytes.  Without a [.gitignore] file the patterns are the standard
    exclusions; without [README.md] and [README.txt] the README section
    is empty; and when [parse_gitignore] or [include_readme] raises
    [UnicodeDecodeError], the file they found, for the README the
    first of the two names that is a file, holds bytes that are not
    UTF-8. *)
Theorem absence_is_not_an_error (cwd : str) (fs : node) (directory : str) :
  (isfile cwd fs (join2 directory (lit ".gitignore")) = false ->
   parse_gitignore cwd fs directory = Ok standard_exclusions)
  /\ (isfile cwd fs (join2 directory (lit "README.md")) = false ->
      isfile cwd fs (join2 directory (lit "README.txt")) = false ->
      include_readme cwd fs directory = Ok [])
  /\ (parse_gitignore cwd fs directory = Raise UnicodeDecodeError ->
      exists nm content,
        resolve cwd fs (join2 directory (lit ".gitignore")) = Some (File nm content)
        /\ decode Strict content = Raise UnicodeDecodeError)
  /\ (include_readme cwd fs directory = Raise UnicodeDecodeError ->
      exists readme_file nm content,
        (readme_file = lit "README.md"
         \/ (readme_file = lit "README.txt"
             /\ isfile cwd fs (join2 directory (lit "README.md")) = false))
        /\ resolve cwd fs (join2 directory readme_file) = Some (File nm content)
        /\ decode Strict content = Raise UnicodeDecodeError).
Proof.
  split; [|split; [|split]].
  - intros H. unfold parse_gitignore. now rewrite H.
  - intros H1 H2. unfold include_readme. cbn [readme_loop]. now rewrite H1, H2.
  - unfold parse_gitignore.
    destruct (isfile cwd fs (join2 directory (lit ".gitignore"))) eqn:Ef;
      [|discriminate].
    destruct (read_text cwd fs (join2 directory (lit ".gitignore")) Strict)
      as [text|e'] eqn:Er; cbn [bind]; [discriminate|].
    intros H. injection H as ->. now apply (read_text_error _ _ _ _ Ef Er).
  - unfold include_readme. cbn [readme_loop].
    destruct (isfile cwd fs (join2 directory (lit "README.md"))) eqn:E1.
    + destruct (read_text cwd fs (join2 directory (lit "README.md")) Strict)
        as [text|e'] eqn:Er; cbn [bind]; [discriminate|].
      intros H. injection H as ->.
      destruct (read_text_error _ _ _ _ E1 Er) as (_ & nm & content & Hres & Hdec).
      exists (lit "README.md"), nm, content. auto.
    + destruct (isfile cwd fs (join2 directory (lit "README.txt"))) eqn:E2;
        [|discriminate].
      destruct (read_text cwd fs (join2 directory (lit "README.txt")) Strict)
        as [text|e'] eqn:Er; cbn [bind]; [discriminate|].
      intros H. injection H as ->.
      destruct (read_text_error _ _ _ _ E2 Er) as (_ & nm & content & Hres & Hdec).
      exists (lit "README.txt"), nm, content. auto.
Qed.

Lemma excluded_segment (cwd root d : str) (pats ns : list str) :
  isabs cwd = true -> regular d = true -> no_backslash d = true ->
  In (d ++ lit "/") pats -> Forall (fun n => regular n = true) ns -> In d ns ->
  should_exclude cwd (join_all root ns) pats root = Ok true.
Proof.
  intros Hc Hd Hb Hin Hns Hd_in.
  pose proof (regular_inv _ Hd) as (Hne & Hs & _).
  assert (Hnn : ns <> []) by (intros ->; contradiction).
  rewrite should_exclude_join_all by assumption.
  f_equal. apply exclude_loop_true. exists (d ++ lit "/"). split; [assumption|].
  rewrite pattern_matches_dir by apply endswith_app.
  change (lit "/") with [SLASH]. rewrite rstrip_sep.
  rewrite rstrip_nosep by assumption.
  apply mem_In. unfold parts_of. apply in_flat_map. exists d. split; [assumption|].
  rewrite replace_id by (unfold no_backslash in Hb; now apply negb_true_iff in Hb).
  rewrite split_nosep by assumption. now left.
Qed.

(** X10: under a directory pattern the source walk does skip a whole
    subtree.  With the pattern [d/] in the list, the walk of any
    directory whose path below the root has the segment [d] adds
    nothing to the section: every directory it visits has that segment
    too. *)
Theorem directory_pattern_skips_subtree (cwd directory root_dir d : str)
    (exclude_patterns ns : list str) (n : node) (content : str) :
  isabs cwd = true -> regular d = true -> no_backslash d = true ->
  In (d ++ lit "/") exclude_patterns ->
  Forall (fun x => regular x = true) ns -> In d ns ->
  names_regular n = true ->
  Forall (fun e : walk_entry =>
            should_exclude cwd (fst (fst e)) exclude_patterns root_dir = Ok true)
         (walk (join_all root_dir ns) n)
  /\ kotlin_loop cwd directory exclude_patterns root_dir
       (walk (join_all root_dir ns) n) content = Ok content.
Proof.
  intros Hc Hd Hb Hin Hns Hd_in Hn.
  assert (Hall : Forall (fun e : walk_entry =>
                           should_exclude cwd (fst (fst e)) exclude_patterns root_dir
                           = Ok true)
                   (walk (join_all root_dir ns) n)).
  { pose proof (walk_roots n Hn (join_all root_dir ns)) as Hw.
    eapply Forall_impl; [|exact Hw]. intros e (ms & Hms & Hroot).
    rewrite Hroot. unfold join_all. rewrite <- fold_left_app.
    apply (excluded_segment cwd root_dir d exclude_patterns (ns ++ ms));
      try assumption.
    - apply Forall_app. now split.
    - apply in_or_app. now left. }
  split; [exact Hall|]. now apply kotlin_loop_excluded.
Qed.

(** The theorem above at a concrete input. *)
Lemma directory_pattern_skips_subtree_witness :
  kotlin_loop (lit "/") (lit "/proj") standard_exclusions (lit "/proj")
    (walk (join_all (lit "/proj") [lit "app"; lit "build"])
       (Dir (lit "build")
          [Dir (lit "gen") [File (lit "R.kt") (list_byte_of_string "val r = 0")]]))
    [] = Ok [].
Proof.
  apply (proj2 (directory_pattern_skips_subtree (lit "/") (lit "/proj") (lit "/proj")
                  (lit "build") standard_exclusions [lit "app"; lit "build"]
                  (Dir (lit "build")
                     [Dir (lit "gen")
                        [File (lit "R.kt") (list_byte_of_string "val r = 0")]])
                  [] eq_refl eq_refl eq_refl
                  ltac:(unfold standard_exclusions; simpl; tauto)
                  ltac:(repeat constructor) ltac:(simpl; tauto) eq_refl)).
Defined.

(** X11: an excluded entry leaves no trace in the listing, at any
    depth and whatever the focus: the listing of a directory is the
    listing of the directory without the entries of that name, so
    nothing below an excluded directory is listed either. *)
Theorem excluded_entry_not_listed (cwd : str) (exclude_patterns : list str)
    (root_dir : str) (focus_subdir : option str) (directory indent d nm : str)
    (children : list node) :
  should_exclude cwd (join2 directory d) exclude_patterns root_dir = Ok true ->
  file_structure cwd exclude_patterns root_dir focus_subdir (Dir nm children)
    directory indent
  = file_structure cwd exclude_patterns root_dir focus_subdir
      (Dir nm (without d children)) directory indent.
Proof.
  intros He. rewrite !file_structure_unfold.
  rewrite (map_without item_name) by reflexivity.
  rewrite <- sorted_filter. apply list_items_skip.
  intros it Hit. apply negb_false_iff, str_eqb_eq in Hit. now rewrite Hit.
Qed.

(** The theorem above at a concrete input. *)
Lemma excluded_entry_not_listed_witness :
  file_structure (lit "/") standard_exclusions (lit "/proj") (Some (lit "app"))
    (Dir (lit "app") [Dir (lit "build") [File (lit "x.kt") []]; File (lit "Main.kt") []])
    (lit "/proj/app") (lit "  ")
  = file_structure (lit "/") standard_exclusions (lit "/proj") (Some (lit "app"))
      (Dir (lit "app")
         (without (lit "build")
            [Dir (lit "build") [File (lit "x.kt") []]; File (lit "Main.kt") []]))
      (lit "/proj/app") (lit "  ").
Proof.
  exact (excluded_entry_not_listed (lit "/") standard_exclusions (lit "/proj")
           (Some (lit "app")) (lit "/proj/app") (lit "  ") (lit "build") (lit "app")
           [Dir (lit "build") [File (lit "x.kt") []]; File (lit "Main.kt") []]
           eq_refl).
Defined.

(** Whatever the writing ends with, it has changed nothing off the way
    to the file. *)
Lemma write_file_frame (cwd : str) (fs fs' : node) (path text : str)
    (e : option error) (ds : list str) (f : str) :
  isabs path = true -> written path = ds ++ [f] ->
  Forall (fun c => regular c = true) ds ->
  write_file cwd fs path text = (fs', e) ->
  forall q, prefix_of q (ds ++ [f]) = false -> lookup fs' q = lookup fs q.
Proof.
  intros Ha Hw Hds H q Hq. unfold write_file, start in H.
  rewrite (isabs_nonempty _ Ha), Ha, Hw in H.
  destruct (open_w fs [] (ds ++ [f]) (endswith path (lit "/"))) as [parent|]
    eqn:Eo; [|now injection H as <- _].
  apply open_w_ok in Eo as (_ & Hfollow & nm & children & Hl & Hnd).
  rewrite removelast_last in Hfollow. rewrite last_last in *.
  apply (follow_all_regular ds fs [] parent Hds) in Hfollow. cbn [app] in Hfollow.
  subst parent.
  destruct (encode text); injection H as <- _;
    now apply (lookup_with_file fs ds f _ nm children).
Qed.

(** Whatever the generation ends with, it has changed nothing off the
    way to its output. *)
Lemma generate_frame (cwd : str) (fs fs' : node) (directory output_file_path : str)
    (users : list str) (e : option error) :
  isabs output_file_path = true ->
  forallb regular (written output_file_path) = true ->
  regular (basename output_file_path) = true ->
  generate_markdown_with_excludes cwd fs directory output_file_path users = (fs', e) ->
  forall q, prefix_of q (written output_file_path) = false ->
            lookup fs' q = lookup fs q.
Proof.
  intros Ha Hnames Hreg Hg q Hq. unfold generate_markdown_with_excludes in Hg.
  destruct (document_with_excludes cwd fs directory users) as [doc|];
    [|now injection Hg as <- _].
  pose proof (dirname_isabs _ Ha) as Hd.
  pose proof (written_dirname _ Hreg Hd) as Hwd.
  rewrite forallb_forall in Hnames. rewrite <- Forall_forall in Hnames.
  rewrite Hwd in Hnames, Hq. apply Forall_app in Hnames as [Hds _].
  assert (Hda : isabs (dirname output_file_path) = true)
    by (now rewrite isabs_dirname).
  destruct (makedirs cwd fs (dirname output_file_path)) as [fs1 e1] eqn:Em.
  unfold makedirs, start in Em. rewrite (isabs_nonempty _ Hda), Hda in Em.
  assert (H1 : lookup fs1 q = lookup fs q).
  { apply (makedirs_along_frame _ fs [] fs1 e1 Hds Em). cbn [app].
    now apply prefix_of_app_l in Hq. }
  destruct e1 as [e1|]; [now injection Hg as <- _|].
  rewrite <- H1.
  now apply (write_file_frame cwd fs1 fs' output_file_path doc e
               (written (dirname output_file_path)) (basename output_file_path)).
Qed.

(** X12: a generation touches nothing but its output.  For an absolute
    output path written without [.] and [..], whatever
    [generate_markdown_with_excludes] ends with, every place of the
    file system that is neither the output file nor one of the
    directories above it holds what it held before: the project is
    read, never changed, also when the generation raises. *)
Theorem generation_touches_only_output (cwd : str) (fs fs' : node)
    (directory output_file_path : str) (user_excluded_paths : list str)
    (e : option error) :
  isabs output_file_path = true ->
  forallb regular (written output_file_path) = true ->
  regular (basename output_file_path) = true ->
  generate_markdown_with_excludes cwd fs directory output_file_path
    user_excluded_paths = (fs', e) ->
  forall place,
    prefix_of place (written output_file_path) = false ->
    lookup fs' place = lookup fs place.
Proof.
  intros Ha Hnames Hreg Hg place Hq.
  now apply (generate_frame cwd fs fs' directory output_file_path
               user_excluded_paths e).
Qed.

(** The theorem above at a concrete input. *)
Lemma generation_touches_only_output_witness :
  generate_markdown_with_excludes (lit "/") fs_tool (lit "/proj")
    (lit "/proj/docs/proj.md") []
  = (after_generation (lit "/") fs_tool (lit "/proj") (lit "/proj/docs/proj.md") [],
     None)
  /\ lookup
       (after_generation (lit "/") fs_tool (lit "/proj") (lit "/proj/docs/proj.md") [])
       [lit "proj"; lit "lib"; lit "x.kt"]
     = lookup fs_tool [lit "proj"; lit "lib"; lit "x.kt"].
Proof.
  assert (H : generate_markdown_with_excludes (lit "/") fs_tool (lit "/proj")
                (lit "/proj/docs/proj.md") []
              = (after_generation (lit "/") fs_tool (lit "/proj")
                   (lit "/proj/docs/proj.md") [], None))
    by (vm_compute; reflexivity).
  split; [exact H|].
  exact (generation_touches_only_output (lit "/") fs_tool _ (lit "/proj")
           (lit "/proj/docs/proj.md") [] None eq_refl eq_refl eq_refl H
           [lit "proj"; lit "lib"; lit "x.kt"] eq_refl).
Defined.

Lemma user_patterns_agree (cwd : str) (fs fs' : node) (directory : str)
    (users acc : list str) :
  (forall u, In u users -> resolve cwd fs' u = resolve cwd fs u) ->
  user_patterns cwd fs' directory users acc = user_patterns cwd fs directory users acc.
Proof.
  revert acc. induction users as [|u users IH]; intros acc H; [reflexivity|].
  cbn [user_patterns]. unfold user_pattern, isdir.
  rewrite (H u (or_introl eq_refl)).
  destruct (relpath cwd u directory); cbn [bind]; [|reflexivity].
  destruct (resolve cwd fs u) as [[|]|]; cbn [bind]; apply IH;
    intros v Hv; apply H; now right.
Qed.

Lemma document_agree (cwd : str) (fs fs' : node) (directory : str) (users : list str) :
  resolve cwd fs' directory = resolve cwd fs directory ->
  (forall x, regular x = true ->
             resolve cwd fs' (join2 directory x) = resolve cwd fs (join2 directory x)) ->
  (forall u, In u users -> resolve cwd fs' u = resolve cwd fs u) ->
  document_with_excludes cwd fs' directory users
  = document_with_excludes cwd fs directory users.
Proof.
  intros Hd Hx Hu.
  assert (Hg : parse_gitignore cwd fs' directory = parse_gitignore cwd fs directory).
  { unfold parse_gitignore, isfile, read_text.
    now rewrite (Hx (lit ".gitignore") eq_refl). }
  assert (Hr : include_readme cwd fs' directory = include_readme cwd fs directory).
  { unfold include_readme. cbn [readme_loop]. unfold isfile, read_text.
    now rewrite (Hx (lit "README.md") eq_refl), (Hx (lit "README.txt") eq_refl). }
  unfold document_with_excludes, patterns_with_excludes.
  rewrite Hg, Hr. destruct (parse_gitignore cwd fs directory) as [base|]; cbn [bind];
    [|reflexivity].
  rewrite (user_patterns_agree cwd fs fs' directory users base Hu).
  destruct (user_patterns cwd fs directory users base) as [pats|]; cbn [bind];
    [|reflexivity].
  unfold generate_file_structure, include_kotlin_files,
    include_gradle_and_toml_files, os_walk.
  now rewrite Hd.
Qed.

(** X13: generating again gives the same document.  When the paths
    are absolute and written without [.] and [..], and neither the
    project directory nor a user-excluded path is the output file or a
    directory above it, the document
    assembled from the file system a generation leaves, whether it
    wrote its output or raised, is the document assembled before. *)
Theorem regeneration_gives_same_document (cwd : str) (fs fs' : node)
    (directory output_file_path : str) (user_excluded_paths : list str)
    (e : option error) :
  isabs cwd = true ->
  isabs output_file_path = true ->
  forallb regular (written output_file_path) = true ->
  regular (basename output_file_path) = true ->
  isabs directory = true ->
  forallb regular (written directory) = true ->
  prefix_of (written directory) (written output_file_path) = false ->
  (forall u, In u user_excluded_paths ->
             isabs u = true
             /\ forallb regular (written u) = true
             /\ prefix_of (written u) (written output_file_path) = false) ->
  generate_markdown_with_excludes cwd fs directory output_file_path
    user_excluded_paths = (fs', e) ->
  document_with_excludes cwd fs' directory user_excluded_paths
  = document_with_excludes cwd fs directory user_excluded_paths.
Proof.
  intros Hc Ha Hnames Hreg Hda Hdn Hout Hu Hg.
  pose proof (generate_frame cwd fs fs' directory output_file_path
                user_excluded_paths e Ha Hnames Hreg Hg) as Hf.
  rewrite forallb_forall in Hdn. rewrite <- Forall_forall in Hdn.
  pose proof (abs_comps_written cwd directory Hc Hda Hdn) as Hd.
  apply document_agree; unfold resolve.
  - rewrite Hd. now apply Hf.
  - intros x Ex. rewrite abs_comps_join2, Hd by assumption.
    apply Hf. now apply prefix_of_snoc.
  - intros u Hin. destruct (Hu u Hin) as (Hua & Hun & Hup).
    rewrite forallb_forall in Hun. rewrite <- Forall_forall in Hun.
    rewrite (abs_comps_written cwd u Hc Hua Hun). now apply Hf.
Qed.

(** The theorem above at a concrete input. *)
Lemma regeneration_gives_same_document_witness :
  generate_markdown_with_excludes (lit "/") fs_tool (lit "/proj")
    (lit "/out/proj.md") [lit "/proj/lib"]
  = (after_generation (lit "/") fs_tool (lit "/proj") (lit "/out/proj.md")
       [lit "/proj/lib"], None)
  /\ document_with_excludes (lit "/")
       (after_generation (lit "/") fs_tool (lit "/proj") (lit "/out/proj.md")
          [lit "/proj/lib"])
       (lit "/proj") [lit "/proj/lib"]
     = document_with_excludes (lit "/") fs_tool (lit "/proj") [lit "/proj/lib"].
Proof.
  assert (H : generate_markdown_with_excludes (lit "/") fs_tool (lit "/proj")
                (lit "/out/proj.md") [lit "/proj/lib"]
              = (after_generation (lit "/") fs_tool (lit "/proj")
                   (lit "/out/proj.md") [lit "/proj/lib"], None))
    by (vm_compute; reflexivity).
  split; [exact H|].
  apply (regeneration_gives_same_document (lit "/") fs_tool _ (lit "/proj")
           (lit "/out/proj.md") [lit "/proj/lib"] None
           eq_refl eq_refl eq_refl eq_refl eq_refl eq_refl eq_refl).
  - intros u [<-|[]]. repeat split.
  - exact H.
Defined.

(** * Further properties of the listing *)

Lemma insert_item_map (f : node -> item) (x : node) (l : list node) :
  (forall c, item_name (f c) = node_name c) ->
  insert_item (f x) (map f l) = map f (insert_node x l).
Proof.
  intros Hf. induction l as [|y l IH]; [reflexivity|].
  cbn [map insert_item insert_node]. rewrite !Hf.
  destruct (leb (node_name x) (node_name y)); cbn [map]; [reflexivity|].
  now rewrite IH.
Qed.

Lemma sorted_map (f : node -> item) (l : list node) :
  (forall c, item_name (f c) = node_name c) ->
  sorted (map f l) = map f (sort_nodes l).
Proof.
  intros Hf. induction l as [|x l IH]; [reflexivity|].
  cbn [map sorted sort_nodes]. rewrite IH. now apply insert_item_map.
Qed.

Lemma insert_node_In (c x : node) (l : list node) :
  In c (insert_node x l) -> c = x \/ In c l.
Proof.
  induction l as [|y l IH]; cbn [insert_node].
  - intros [<-|[]]. now left.
  - destruct (leb (node_name x) (node_name y)).
    + intros [<-|H]; [now left|now right].
    + intros [<-|H]; [right; now left|].
      destruct (IH H) as [->|H']; [now left|right; now right].
Qed.

Lemma sort_nodes_In (c : node) (l : list node) : In c (sort_nodes l) -> In c l.
Proof.
  induction l as [|x l IH]; [trivial|]. cbn [sort_nodes]. intros H.
  apply insert_node_In in H as [->|H]; [now left|right; now apply IH].
Qed.

Lemma startswith_app_long (a t p : str) :
  List.length p <= List.length a -> startswith (a ++ t) p = startswith a p.
Proof.
  revert a. induction p as [|y p IH]; intros a H.
  - now rewrite !startswith_nil.
  - destruct a as [|x a]; [cbn in H; lia|]. cbn [app startswith].
    rewrite IH; [reflexivity|]. cbn in H. lia.
Qed.

Lemma startswith_app_keep (s t p : str) :
  startswith s p = true -> startswith (s ++ t) p = true.
Proof.
  intros H. apply startswith_inv in H as [r ->]. rewrite <- app_assoc.
  apply startswith_app.
Qed.

Lemma initial_slashes_app (a t : str) :
  3 <= List.length a -> initial_slashes (a ++ t) = initial_slashes a.
Proof.
  intros H. unfold initial_slashes.
  rewrite !startswith_app_long by (cbn; lia). reflexivity.
Qed.

Lemma initial_slashes_join2 (a b : str) :
  isabs a = true -> isabs b = false ->
  initial_slashes (join2 a b) = initial_slashes a.
Proof.
  intros Ha Hb. rewrite join2_rel by assumption.
  destruct a as [|c0 [|c1 [|c2 a3]]]; [discriminate| | |].
  - unfold isabs in Ha. cbn [startswith] in Ha. rewrite ?startswith_nil, ?andb_true_r in Ha. apply N.eqb_eq in Ha. subst c0.
    cbn [is_empty orb]. change (endswith [SLASH] [SLASH]) with true. cbn [app].
    unfold isabs in Hb. destruct b as [|d b]; [reflexivity|].
    cbn [startswith] in Hb. rewrite ?startswith_nil, ?andb_true_r in Hb.
    unfold initial_slashes. cbn [startswith]. rewrite N.eqb_refl, Hb. reflexivity.
  - unfold isabs in Ha. cbn [startswith] in Ha. rewrite ?startswith_nil, ?andb_true_r in Ha. apply N.eqb_eq in Ha. subst c0.
    cbn [is_empty orb]. unfold endswith. cbn [rev app startswith].
    rewrite ?startswith_nil, ?andb_true_r.
    destruct (N.eqb c1 SLASH) eqn:E1.
    + apply N.eqb_eq in E1. subst c1. cbn [app].
      unfold isabs in Hb. destruct b as [|d b]; [reflexivity|].
      cbn [startswith] in Hb. rewrite ?startswith_nil, ?andb_true_r in Hb.
      unfold initial_slashes. cbn [startswith]. rewrite !N.eqb_refl, Hb. reflexivity.
    + unfold initial_slashes. cbn [app startswith]. rewrite N.eqb_refl, E1. reflexivity.
  - destruct (_ || _); apply initial_slashes_app; cbn; lia.
Qed.

Lemma normpath_abs (q : str) :
  isabs q = true ->
  normpath q = repeat SLASH (initial_slashes q) ++ Str.join [SLASH] (normpath_comps q).
Proof.
  intros H. unfold normpath. destruct q as [|x q']; [discriminate|].
  cbn [is_empty].
  assert (exists k, initial_slashes (x :: q') = S k) as [k Hk].
  { unfold initial_slashes. unfold isabs in H. rewrite H.
    destruct (_ && _); eauto. }
  rewrite Hk. reflexivity.
Qed.

Lemma initial_slashes_full (cwd p name : str) :
  isabs cwd = true -> regular name = true ->
  initial_slashes (full cwd (join2 p name)) = initial_slashes (full cwd p).
Proof.
  intros Hc Hn. pose proof (regular_not_abs name Hn) as Hna. unfold full.
  destruct (isabs p) eqn:Ep.
  - assert (Hp : p <> []) by (intros ->; discriminate).
    rewrite (isabs_join2 p name Hna Hp), Ep. now apply initial_slashes_join2.
  - assert (Hj : isabs (join2 p name) = false).
    { destruct p as [|x r].
      - unfold join2. unfold isabs in Hna. now rewrite Hna.
      - rewrite isabs_join2; [assumption|assumption|discriminate]. }
    rewrite Hj. now rewrite !initial_slashes_join2.
Qed.

(** The absolute form of an entry is that of its directory followed by
    the name. *)
Lemma abspath_join2 (cwd p name : str) :
  isabs cwd = true -> regular name = true ->
  exists sep, abspath cwd (join2 p name) = abspath cwd p ++ sep ++ name.
Proof.
  intros Hc Hn. unfold abspath. fold (full cwd p). fold (full cwd (join2 p name)).
  rewrite !normpath_abs by (now apply isabs_full).
  rewrite initial_slashes_full by assumption.
  rewrite <- !abs_comps_normpath by assumption.
  rewrite abs_comps_join2 by assumption.
  destruct (abs_comps cwd p) as [|c cs] eqn:E.
  - exists []. cbn [app Str.join]. now rewrite !app_nil_r.
  - exists [SLASH]. rewrite join_snoc by discriminate.
    rewrite <- !app_assoc. reflexivity.
Qed.

(** Below a directory inside the focus subtree, every directory is
    inside it. *)
Lemma in_focus_join2 (cwd root_dir : str) (focus : option str) (directory name : str) :
  isabs cwd = true -> regular name = true ->
  in_focus cwd root_dir focus directory = true ->
  in_focus cwd root_dir focus (join2 directory name) = true.
Proof.
  intros Hc Hn. unfold in_focus.
  destruct (abs_focus cwd root_dir focus) as [f|]; [|discriminate].
  intros H. apply andb_true_iff in H as [Ht Hs]. rewrite Ht. cbn [andb].
  destruct (abspath_join2 cwd directory name Hc Hn) as [sep ->].
  now apply startswith_app_keep.
Qed.

Lemma list_items_full (cwd : str) (pats : list str) (root_dir : str)
    (focus : option str) (directory indent : str)
    (f g : node -> item) (l : list node) (structure : str) :
  in_focus cwd root_dir focus directory = true ->
  (forall c, item_name (f c) = node_name c) ->
  (forall c, item_name (g c) = node_name c) ->
  (forall c, In c l ->
             match item_descend (f c), item_descend (g c) with
             | Some r, Some r' =>
                 r (join2 directory (node_name c)) (indent ++ lit "  ")
                 = r' (join2 directory (node_name c)) (indent ++ lit "  ")
             | None, None => True
             | _, _ => False
             end) ->
  list_items cwd pats root_dir focus directory indent (map f l) structure
  = full_items cwd pats root_dir directory indent (map g l) structure.
Proof.
  intros Hin Hf Hg. revert structure.
  induction l as [|c l IH]; intros structure Hd; [reflexivity|].
  cbn [map list_items full_items].
  assert (Hitem : list_item cwd pats root_dir focus directory indent (f c) structure
                  = full_item cwd pats root_dir directory indent (g c) structure).
  { unfold list_item, full_item. rewrite Hin, Hf, Hg.
    destruct (should_exclude cwd (join2 directory (node_name c)) pats root_dir)
      as [[|]|]; cbn [bind]; try reflexivity.
    pose proof (Hd c (or_introl eq_refl)) as Hc.
    destruct (item_descend (f c)), (item_descend (g c)); try contradiction;
      [|reflexivity].
    cbn [negb andb]. now rewrite Hc. }
  rewrite Hitem.
  destruct (full_item cwd pats root_dir directory indent (g c) structure);
    cbn [bind]; [|reflexivity].
  apply IH. intros c' Hc'. apply Hd. now right.
Qed.

(** X14: inside the focus subtree the listing is the full recursive
    listing.  For a directory that is the focus directory or lies below
    it, every entry that is not excluded is listed, and every directory
    among them is expanded, to any depth. *)
Theorem focus_subtree_fully_expanded (cwd : str) (exclude_patterns : list str)
    (root_dir : str) (focus_subdir : option str) (n : node) :
  isabs cwd = true ->
  forall directory indent,
    in_focus cwd root_dir focus_subdir directory = true ->
    match n with
    | Dir _ children => forallb names_regular children = true
    | File _ _ => True
    end ->
    file_structure cwd exclude_patterns root_dir focus_subdir n directory indent
    = full_structure cwd exclude_patterns root_dir n directory indent.
Proof.
  intros Hc. induction n as [nm b|nm children IH] using node_induction;
    intros directory indent Hin Hreg; [reflexivity|].
  rewrite file_structure_unfold. cbn [full_structure].
  rewrite !sorted_map by reflexivity.
  apply list_items_full; try reflexivity; [assumption|].
  intros c Hc'. apply sort_nodes_In in Hc'.
  rewrite Forall_forall in IH. rewrite forallb_forall in Hreg.
  pose proof (Hreg c Hc') as Hcreg.
  destruct c as [cn cb|cn cc]; cbn [item_descend]; [exact I|].
  cbn [names_regular] in Hcreg. apply andb_true_iff in Hcreg as [Hname Hcc].
  apply (IH _ Hc'); [|exact Hcc].
  now apply in_focus_join2.
Qed.

(** The theorem above at a concrete input. *)
Lemma focus_subtree_fully_expanded_witness :
  file_structure (lit "/") standard_exclusions (lit "/proj") (Some (lit "app"))
    (Dir (lit "app")
       [Dir (lit "sub") [Dir (lit "deep") [File (lit "file.kt") []]];
        File (lit "Main.kt") []])
    (lit "/proj/app") (lit "  ")
  = Ok (lit "  - Main.kt" ++ NL ++ lit "  - sub/" ++ NL ++ lit "    - deep/" ++ NL
        ++ lit "      - file.kt" ++ NL).
Proof.
  refine (eq_trans
            (focus_subtree_fully_expanded (lit "/") standard_exclusions (lit "/proj")
               (Some (lit "app"))
               (Dir (lit "app")
                  [Dir (lit "sub") [Dir (lit "deep") [File (lit "file.kt") []]];
                   File (lit "Main.kt") []])
               eq_refl (lit "/proj/app") (lit "  ") eq_refl eq_refl) _).
  vm_compute. reflexivity.
Defined.

(** * The listing and the order of the entries *)

Lemma leb_antisym (a b : str) : leb a b = true -> leb b a = true -> a = b.
Proof.
  revert b. induction a as [|x a IH]; intros [|y b]; cbn [leb];
    try discriminate; [reflexivity|].
  destruct (N.ltb x y) eqn:E1, (N.ltb y x) eqn:E2; try discriminate.
  - apply N.ltb_lt in E1. apply N.ltb_lt in E2. lia.
  - intros H1 H2. apply N.ltb_ge in E1. apply N.ltb_ge in E2.
    assert (x = y) by lia. subst y. f_equal. now apply IH.
Qed.

(** Two entries of different names are inserted in either order with
    the same result. *)
Lemma insert_node_comm (x y : node) (l : list node) :
  node_name x <> node_name y ->
  insert_node x (insert_node y l) = insert_node y (insert_node x l).
Proof.
  intros Hxy.
  assert (Hone : leb (node_name x) (node_name y) = negb (leb (node_name y) (node_name x))).
  { destruct (leb (node_name x) (node_name y)) eqn:E1,
             (leb (node_name y) (node_name x)) eqn:E2; try reflexivity.
    - exfalso. apply Hxy. now apply leb_antisym.
    - apply leb_total in E1. congruence. }
  induction l as [|z l IH].
  - cbn [insert_node]. rewrite Hone.
    destruct (leb (node_name y) (node_name x)); reflexivity.
  - cbn [insert_node].
    destruct (leb (node_name y) (node_name z)) eqn:Eyz,
             (leb (node_name x) (node_name z)) eqn:Exz; cbn [insert_node].
    + rewrite Hone, Eyz, Exz.
      destruct (leb (node_name y) (node_name x)); reflexivity.
    + rewrite Eyz, Exz.
      destruct (leb (node_name x) (node_name y)) eqn:Exy; [|reflexivity].
      rewrite (leb_trans _ _ _ Exy Eyz) in Exz. discriminate.
    + rewrite Eyz, Exz.
      destruct (leb (node_name y) (node_name x)) eqn:Eyx; [|reflexivity].
      rewrite (leb_trans _ _ _ Eyx Exz) in Eyz. discriminate.
    + rewrite Eyz, Exz. now rewrite IH.
Qed.

Lemma sort_nodes_permutation (l l' : list node) :
  Permutation l l' -> NoDup (map node_name l) -> sort_nodes l = sort_nodes l'.
Proof.
  induction 1 as [|x l l' Hp IH|x y l|l l' l'' Hp1 IH1 Hp2 IH2]; intros Hnd.
  - reflexivity.
  - cbn [sort_nodes]. cbn [map] in Hnd. apply NoDup_cons_iff in Hnd as [_ Hnd].
    now rewrite IH.
  - cbn [sort_nodes]. apply insert_node_comm.
    cbn [map] in Hnd. apply NoDup_cons_iff in Hnd as [Hn _].
    intros E. apply Hn. left. now symmetry.
  - rewrite IH1 by assumption. apply IH2.
    apply (Permutation_NoDup (Permutation_map node_name Hp1) Hnd).
Qed.

(** X15: the listing of a directory does not depend on the order in
    which the system lists its entries.  [os.listdir] gives the entries
    in an arbitrary order; as the names of the entries of one directory
    differ, [sorted] brings any two orders to the same one. *)
Theorem listing_independent_of_listdir_order (cwd : str)
    (exclude_patterns : list str) (root_dir : str) (focus_subdir : option str)
    (nm nm' : str) (children children' : list node) (directory indent : str) :
  Permutation children children' ->
  NoDup (map node_name children) ->
  file_structure cwd exclude_patterns root_dir focus_subdir
    (Dir nm children) directory indent
  = file_structure cwd exclude_patterns root_dir focus_subdir
      (Dir nm' children') directory indent.
Proof.
  intros Hp Hnd. rewrite !file_structure_unfold.
  rewrite !sorted_map by reflexivity.
  now rewrite (sort_nodes_permutation children children' Hp Hnd).
Qed.

(** The theorem above at a concrete input. *)
Lemma listing_independent_of_listdir_order_witness :
  file_structure (lit "/") standard_exclusions (lit "/proj") (Some (lit "app"))
    (Dir (lit "proj") [File (lit "b.txt") []; Dir (lit "app") []; File (lit "a.txt") []])
    (lit "/proj") []
  = file_structure (lit "/") standard_exclusions (lit "/proj") (Some (lit "app"))
      (Dir (lit "proj") [Dir (lit "app") []; File (lit "a.txt") []; File (lit "b.txt") []])
      (lit "/proj") [].
Proof.
  apply (listing_independent_of_listdir_order (lit "/") standard_exclusions
           (lit "/proj") (Some (lit "app")) (lit "proj") (lit "proj")).
  - apply Permutation_cons_append with (l := [Dir (lit "app") []; File (lit "a.txt") []]).
  - repeat constructor; cbn; intros H; repeat destruct H as [H|H]; try discriminate; exact H.
Defined.

(** * The two generators *)

(** X16: with no path excluded by the user, the document of
    [generate_markdown_with_excludes] is the document of
    [generate_markdown] at its default focus [app], but for the title
    and the sentence under the first heading: the sections that follow
    are the same, and either both are built or both raise the same
    error. *)
Theorem generators_share_sections (cwd : str) (fs : node) (directory : str) :
  (exists sections,
      markdown_document cwd fs directory (lit "app")
      = Ok (lit "# Android Project Overview" ++ NL ++ NL
            ++ lit "## File Structure" ++ NL ++ NL
            ++ lit "This section provides an organized view of the project's directory and file structure, highlighting authored files."
            ++ NL ++ NL ++ sections)
      /\ document_with_excludes cwd fs directory []
         = Ok (lit "# Project Overview" ++ NL ++ NL
               ++ lit "## File Structure" ++ NL ++ NL
               ++ lit "This section outlines the hierarchical structure of the project's files and directories."
               ++ NL ++ NL ++ sections))
  \/ (exists e,
         markdown_document cwd fs directory (lit "app") = Raise e
         /\ document_with_excludes cwd fs directory [] = Raise e).
Proof.
  unfold markdown_document, document_with_excludes, patterns_with_excludes.
  destruct (parse_gitignore cwd fs directory) as [pats|e]; cbn [bind user_patterns];
    [|right; eauto].
  destruct (generate_file_structure cwd fs directory [] pats directory
              (Some (lit "app"))) as [structure|e]; cbn [bind]; [|right; eauto].
  destruct (include_readme cwd fs directory) as [readme|e]; cbn [bind];
    [|right; eauto].
  destruct (include_kotlin_files cwd fs directory pats directory) as [kotlin|e];
    cbn [bind]; [|right; eauto].
  destruct (include_gradle_and_toml_files cwd fs directory) as [config|e];
    cbn [bind]; [|right; eauto].
  left. eexists. split.
  - rewrite <- !app_assoc. reflexivity.
  - rewrite <- !app_assoc. reflexivity.
Qed.

(** * The preview *)

Lemma insert_entry_map (A : Type) (f : node -> entry A) (x : node) (l : list node) :
  (forall c, entry_name A (f c) = node_name c) ->
  insert_entry A (f x) (map f l) = map f (insert_node x l).
Proof.
  intros Hf. induction l as [|y l IH]; [reflexivity|].
  cbn [map insert_entry insert_node]. rewrite !Hf.
  destruct (leb (node_name x) (node_name y)); cbn [map]; [reflexivity|].
  now rewrite IH.
Qed.

Lemma sorted_entries_map (A : Type) (f : node -> entry A) (l : list node) :
  (forall c, entry_name A (f c) = node_name c) ->
  sorted_entries A (map f l) = map f (sort_nodes l).
Proof.
  intros Hf. induction l as [|x l IH]; [reflexivity|].
  cbn [map sorted_entries sort_nodes]. rewrite IH. now apply insert_entry_map.
Qed.

(** With the directory of an entry as the root, [should_exclude] sees
    the name of the entry and nothing of where it lies. *)
Lemma should_exclude_in_place (cwd directory name : str) (pats : list str) :
  isabs cwd = true -> regular name = true ->
  should_exclude cwd (join2 directory name) pats directory
  = Ok (name_excluded pats name).
Proof.
  intros Hc Hn.
  change (join2 directory name) with (join_all directory [name]).
  rewrite should_exclude_join_all;
    [|assumption|now constructor|discriminate].
  unfold name_excluded, rel_of, parts_of. cbn [Str.join flat_map].
  now rewrite app_nil_r.
Qed.

Lemma add_children_loop_by_name (cwd : str) (pats : list str) (directory : str)
    (f : node -> entry (result (list tree_node)))
    (g : node -> entry (list tree_node)) (l : list node) :
  isabs cwd = true ->
  (forall c, entry_name _ (f c) = node_name c) ->
  (forall c, entry_name _ (g c) = node_name c) ->
  (forall c, In c l ->
             regular (node_name c) = true
             /\ match entry_descend _ (f c), entry_descend _ (g c) with
                | Some r, Some r' =>
                    r (join2 directory (node_name c))
                    = Ok (r' (join2 directory (node_name c)))
                | None, None => True
                | _, _ => False
                end) ->
  add_children_loop cwd pats directory (map f l)
  = Ok (flat_map (shown_child pats directory) (map g l)).
Proof.
  intros Hc Hf Hg. induction l as [|c l IH]; intros Hl; [reflexivity|].
  cbn [map add_children_loop flat_map].
  destruct (Hl c (or_introl eq_refl)) as [Hreg Hd].
  rewrite IH by (intros c' Hc'; apply Hl; now right).
  unfold add_child, shown_child. rewrite Hf, Hg.
  rewrite should_exclude_in_place by assumption. cbn [bind].
  destruct (name_excluded pats (node_name c)); [reflexivity|].
  destruct (entry_descend _ (f c)), (entry_descend _ (g c)); try contradiction;
    [|reflexivity].
  rewrite Hd. reflexivity.
Qed.

Lemma add_children_by_name (cwd : str) (pats : list str) (n : node) :
  isabs cwd = true ->
  forall directory nm children,
    n = Dir nm children ->
    forallb names_regular children = true ->
    add_children cwd pats n directory = Ok (shown_by_name pats n directory).
Proof.
  intros Hc. induction n as [nm0 b|nm0 children0 IH] using node_induction;
    intros directory nm children E Hreg; [discriminate|].
  injection E as -> ->.
  cbn [add_children shown_by_name].
  rewrite !sorted_entries_map by reflexivity.
  apply add_children_loop_by_name; try reflexivity; [assumption|].
  intros c Hin. apply sort_nodes_In in Hin.
  rewrite Forall_forall in IH. rewrite forallb_forall in Hreg.
  pose proof (Hreg c Hin) as Hcreg.
  destruct c as [cn cb|cn cc]; cbn [entry_descend node_name].
  - split; [exact Hcreg|exact I].
  - cbn [names_regular] in Hcreg. apply andb_true_iff in Hcreg as [Hname Hcc].
    split; [exact Hname|].
    now apply (IH _ Hin _ cn cc).
Qed.

(** X17: the preview judges an entry by its name alone.
    [_add_children] calls [should_exclude] with the directory of the
    entry as the root, so the relative path the patterns are tested on
    is the name of the entry, wherever the directory lies below the
    project: the tree [_add_children] returns with is the tree of the
    entries whose names the patterns do not exclude.  (On a tree all
    of whose directories can be listed it does return, by
    [add_children_by_name].) *)
Theorem preview_judges_by_name (cwd : str) (exclude_patterns : list str)
    (nm : str) (children : list node) (directory : str) (shown : list tree_node) :
  isabs cwd = true ->
  forallb names_regular children = true ->
  add_children cwd exclude_patterns (Dir nm children) directory = Ok shown ->
  shown = shown_by_name exclude_patterns (Dir nm children) directory.
Proof.
  intros Hc Hreg H.
  rewrite (add_children_by_name cwd exclude_patterns _ Hc directory nm children
             eq_refl Hreg) in H.
  now injection H as <-.
Qed.

(** The theorem above at a concrete input: the pattern [secret.txt]
    hides the file of that name two levels down. *)
Lemma preview_judges_by_name_witness :
  [TreeNode (lit "app") (lit "/proj/app") true
     [TreeNode (lit "Main.kt") (lit "/proj/app/Main.kt") true []]]
  = shown_by_name [lit "secret.txt"]
      (Dir (lit "proj")
         [Dir (lit "app") [File (lit "secret.txt") []; File (lit "Main.kt") []]])
      (lit "/proj").
Proof.
  exact (preview_judges_by_name (lit "/") [lit "secret.txt"] (lit "proj")
           [Dir (lit "app") [File (lit "secret.txt") []; File (lit "Main.kt") []]]
           (lit "/proj") _ eq_refl eq_refl eq_refl).
Defined.

Lemma add_children_loop_checked (cwd : str) (pats : list str) (directory : str)
    (items : list (entry (result (list tree_node)))) :
  (forall it, In it items ->
              match entry_descend _ it with
              | Some r => forall d ts, r d = Ok ts ->
                                       flat_map get_unchecked_paths ts = []
              | None => True
              end) ->
  forall ts, add_children_loop cwd pats directory items = Ok ts ->
             flat_map get_unchecked_paths ts = [].
Proof.
  induction items as [|it items IH]; intros Hit ts; cbn [add_children_loop].
  - intros [= <-]. reflexivity.
  - unfold add_child at 1.
    destruct (should_exclude cwd (join2 directory (entry_name _ it)) pats directory)
      as [[|]|e]; cbn [bind]; try discriminate.
    + destruct (add_children_loop cwd pats directory items) as [more|e] eqn:E;
        cbn [bind]; [|discriminate].
      intros [= <-]. cbn [app]. apply IH; [|reflexivity].
      intros it' Hin. apply Hit. now right.
    + pose proof (Hit it (or_introl eq_refl)) as Hd.
      destruct (entry_descend _ it) as [r|].
      * destruct (r (join2 directory (entry_name _ it))) as [below|e] eqn:Er;
          cbn [bind]; [|discriminate].
        destruct (add_children_loop cwd pats directory items) as [more|e] eqn:E;
          cbn [bind]; [|discriminate].
        intros [= <-]. cbn [app flat_map get_unchecked_paths].
        rewrite (Hd _ _ Er). cbn [app].
        apply IH; [|reflexivity]. intros it' Hin. apply Hit. now right.
      * cbn [bind].
        destruct (add_children_loop cwd pats directory items) as [more|e] eqn:E;
          cbn [bind]; [|discriminate].
        intros [= <-]. cbn [app flat_map get_unchecked_paths].
        apply IH; [|reflexivity]. intros it' Hin. apply Hit. now right.
Qed.

Lemma add_children_checked (cwd : str) (pats : list str) (n : node) :
  forall directory ts,
    add_children cwd pats n directory = Ok ts ->
    flat_map get_unchecked_paths ts = [].
Proof.
  induction n as [nm b|nm children IH] using node_induction;
    intros directory ts; [discriminate|].
  cbn [add_children]. rewrite sorted_entries_map by reflexivity.
  apply add_children_loop_checked.
  intros it Hin. apply in_map_iff in Hin as (c & <- & Hin).
  apply sort_nodes_In in Hin. rewrite Forall_forall in IH.
  destruct c as [cn cb|cn cc]; cbn [entry_descend]; [exact I|].
  intros d ts'. now apply (IH _ Hin).
Qed.

(** X18: a fresh preview has every node checked.  Whatever the
    project, after [populate_treeview], which [browse_directory] calls
    for a path that is not empty, no path is unchecked, so a generation
    without a double click excludes no path on behalf of the user. *)
Theorem fresh_preview_excludes_nothing (cwd : str) (fs : node)
    (directory : str) (t : tree_node) :
  directory <> [] ->
  populate_treeview cwd fs directory = Ok t ->
  get_unchecked_paths t = []
  /\ forall output_file_path,
       generate_markdown_with_excludes cwd fs directory output_file_path
         (get_unchecked_paths t)
       = generate_markdown_with_excludes cwd fs directory output_file_path [].
Proof.
  intros _ H.
  assert (Hu : get_unchecked_paths t = []).
  { unfold populate_treeview in H.
    destruct (parse_gitignore cwd fs directory) as [pats|e]; cbn [bind] in H;
      [|discriminate].
    destruct (resolve cwd fs directory) as [n|]; [|discriminate].
    destruct (add_children cwd pats n directory) as [below|e] eqn:E;
      cbn [bind] in H; [|discriminate].
    injection H as <-. cbn [get_unchecked_paths app].
    now apply (add_children_checked cwd pats n directory). }
  split; [exact Hu|]. intros output_file_path. now rewrite Hu.
Qed.

(** The theorem above at a concrete input. *)
Lemma fresh_preview_excludes_nothing_witness :
  get_unchecked_paths
    (TreeNode (lit "tool") (lit "/home/tool") true
       [TreeNode (lit "main.kt") (lit "/home/tool/main.kt") true []]) = [].
Proof.
  assert (H : lit "/home/tool" <> []) by discriminate.
  exact (proj1 (fresh_preview_excludes_nothing (lit "/")
                  (Dir [] [Dir (lit "home") [Dir (lit "tool") [File (lit "main.kt") []]]])
                  (lit "/home/tool") _ H eq_refl)).
Defined.

Lemma unchecked_after_uncheck (t : tree_node) :
  get_unchecked_paths (set_node_state false t) = node_paths t.
Proof.
  induction t as [text path checked children IH] using tree_node_induction.
  cbn [set_node_state get_unchecked_paths node_paths app]. f_equal.
  induction IH as [|c l Hc _ IHl]; [reflexivity|].
  cbn [map flat_map]. now rewrite Hc, IHl.
Qed.

Lemma unchecked_update_nth (i : nat) (f : tree_node -> tree_node)
    (l : list tree_node) (c : tree_node) :
  flat_map get_unchecked_paths l = [] ->
  nth_error l i = Some c ->
  flat_map get_unchecked_paths (update_nth _ i f l) = get_unchecked_paths (f c).
Proof.
  revert i. induction l as [|x l IH]; intros [|i] Hl Hn; try discriminate.
  - injection Hn as ->. cbn [update_nth flat_map]. cbn [flat_map] in Hl.
    apply app_eq_nil in Hl as [_ Hl]. rewrite Hl. apply app_nil_r.
  - cbn [update_nth flat_map]. cbn [flat_map] in Hl.
    apply app_eq_nil in Hl as [Hx Hl]. rewrite Hx. cbn [app]. now apply IH.
Qed.

Lemma unchecked_child (l : list tree_node) (i : nat) (c : tree_node) :
  flat_map get_unchecked_paths l = [] -> nth_error l i = Some c ->
  get_unchecked_paths c = [].
Proof.
  revert i. induction l as [|x l IH]; intros [|i] Hl Hn; try discriminate;
    cbn [flat_map] in Hl; apply app_eq_nil in Hl as [Hx Hl].
  - now injection Hn as <-.
  - now apply (IH i).
Qed.

Lemma unchecked_update_at (pos : list nat) (f : tree_node -> tree_node) :
  forall t s,
    get_unchecked_paths t = [] -> node_at pos t = Some s ->
    get_unchecked_paths (update_at pos f t) = get_unchecked_paths (f s).
Proof.
  induction pos as [|i pos IH]; intros t s Ht Hs.
  - cbn [node_at] in Hs. injection Hs as <-. destruct t; reflexivity.
  - destruct t as [text path checked children]. cbn [node_at] in Hs.
    destruct (nth_error children i) as [c|] eqn:En; [|discriminate].
    cbn [get_unchecked_paths] in Ht. apply app_eq_nil in Ht as [Hck Hch].
    cbn [update_at get_unchecked_paths]. rewrite Hck. cbn [app].
    rewrite (unchecked_update_nth i _ children c Hch En).
    apply IH; [|assumption]. now apply (unchecked_child children i).
Qed.

(** X19: a double click on a node of a preview in which every node is
    checked unchecks the node and all the nodes below it, and no other:
    the unchecked paths are then the paths of that subtree, in the order
    of the tree. *)
Theorem double_click_unchecks_subtree (pos : list nat) (t s : tree_node) :
  get_unchecked_paths t = [] ->
  node_at pos t = Some s ->
  get_unchecked_paths (on_item_double_click pos t) = node_paths s.
Proof.
  intros Ht Hs. unfold on_item_double_click. rewrite Hs.
  destruct s as [text path current_state children] eqn:E. rewrite <- E in *.
  assert (Hcs : current_state = true).
  { assert (Hsu : get_unchecked_paths s = []).
    { clear E. revert t Ht Hs. induction pos as [|i pos IH]; intros t Ht Hs.
      - cbn [node_at] in Hs. now injection Hs as <-.
      - destruct t as [tx pa ck ch]. cbn [node_at] in Hs.
        destruct (nth_error ch i) as [c|] eqn:En; [|discriminate].
        cbn [get_unchecked_paths] in Ht. apply app_eq_nil in Ht as [_ Hch].
        apply (IH c); [|assumption]. now apply (unchecked_child ch i). }
    rewrite E in Hsu. cbn [get_unchecked_paths] in Hsu.
    destruct current_state; [reflexivity|discriminate]. }
  subst current_state. cbn [negb].
  rewrite (unchecked_update_at pos _ t s Ht Hs). apply unchecked_after_uncheck.
Qed.

(** The theorem above at a concrete input. *)
Lemma double_click_unchecks_subtree_witness :
  get_unchecked_paths
    (on_item_double_click [0%nat]
       (TreeNode (lit "proj") (lit "/proj") true
          [TreeNode (lit "app") (lit "/proj/app") true
             [TreeNode (lit "Main.kt") (lit "/proj/app/Main.kt") true []];
           TreeNode (lit "notes.txt") (lit "/proj/notes.txt") true []]))
  = [lit "/proj/app"; lit "/proj/app/Main.kt"].
Proof.
  exact (double_click_unchecks_subtree [0%nat]
           (TreeNode (lit "proj") (lit "/proj") true
              [TreeNode (lit "app") (lit "/proj/app") true
                 [TreeNode (lit "Main.kt") (lit "/proj/app/Main.kt") true []];
               TreeNode (lit "notes.txt") (lit "/proj/notes.txt") true []])
           _ eq_refl eq_refl).
Defined.

(** * What the source section holds *)

Lemma find_child_In (c : str) (children : list node) (n : node) :
  find_child c children = Some n -> In n children.
Proof.
  induction children as [|x l IH]; cbn [find_child]; [discriminate|].
  destruct (eqb (node_name x) c).
  - intros H. injection H as <-. now left.
  - intros H. right. now apply IH.
Qed.

Lemma join_all_nonempty_l (a : str) (ns : list str) :
  a <> [] -> join_all a ns <> [].
Proof.
  revert a. induction ns as [|c ns IH]; intros a Ha; [exact Ha|].
  cbn [join_all fold_left]. apply IH. now apply join2_nonempty_l.
Qed.

(** [os.walk] visits the directory found along the names [ns], with its
    files. *)
Lemma walk_entry_at (ns : list str) :
  forall n top nm children,
    lookup n ns = Some (Dir nm children) ->
    In (join_all top ns, dir_names children, file_entries children) (walk top n).
Proof.
  induction ns as [|c cs IH]; intros n top nm children H.
  - cbn [lookup] in H. injection H as ->. cbn [walk join_all fold_left]. now left.
  - destruct n as [nm0 b|nm0 ch]; [discriminate|]. cbn [lookup] in H.
    destruct (find_child c ch) as [child|] eqn:E; [|discriminate].
    pose proof (find_child_In _ _ _ E) as Hin.
    pose proof (find_child_name _ _ _ E) as Hname.
    destruct child as [cn cb|cn cc].
    + destruct cs; discriminate.
    + cbn [node_name] in Hname. subst cn.
      cbn [walk]. right. apply in_flat_map.
      exists (Dir c cc). split; [exact Hin|].
      cbn [join_all fold_left]. now apply (IH _ _ nm).
Qed.

Lemma file_entries_In (file : str) (bytes : list Byte.byte) (children : list node) :
  In (File file bytes) children -> In (file, bytes) (file_entries children).
Proof.
  intros H. unfold file_entries. apply in_flat_map.
  exists (File file bytes). split; [exact H|now left].
Qed.

(** The loops only append to the section. *)
Lemma kotlin_files_extends (cwd directory : str) (pats : list str)
    (root_dir root : str) (files : list (str * list Byte.byte)) (content : str) :
  root <> [] ->
  exists t, kotlin_files cwd directory pats root_dir root files content
            = Ok (content ++ t).
Proof.
  intros Hr. revert content.
  induction files as [|[file bytes] files IH]; intros content.
  - exists []. cbn [kotlin_files]. now rewrite app_nil_r.
  - cbn [kotlin_files]. destruct (endswith file (lit ".kt")); [|apply IH].
    pose proof (join2_nonempty_l root file Hr) as Hp.
    destruct (should_exclude_answers cwd _ root_dir pats Hp) as [b ->]. cbn [bind].
    destruct b; cbn [negb]; [apply IH|].
    destruct (read_bytes_ignore_total bytes) as [text ->]. cbn [bind].
    destruct (relpath_answers cwd _ directory Hp) as [rel ->]. cbn [bind].
    destruct (IH (content ++ kotlin_block rel text)) as [t ->].
    exists (kotlin_block rel text ++ t). now rewrite <- app_assoc.
Qed.

Lemma kotlin_loop_extends (cwd directory : str) (pats : list str) (root_dir : str)
    (entries : list walk_entry) (content : str) :
  Forall (fun e : walk_entry => fst (fst e) <> []) entries ->
  exists t, kotlin_loop cwd directory pats root_dir entries content
            = Ok (content ++ t).
Proof.
  revert content.
  induction entries as [|[[root dirs] files] l IH]; intros content Hw.
  - exists []. cbn [kotlin_loop]. now rewrite app_nil_r.
  - inversion Hw as [|? ? Hx Hl]; subst. cbn [fst] in Hx. cbn [kotlin_loop].
    destruct (should_exclude_answers cwd root root_dir pats Hx) as [b ->].
    cbn [bind]. destruct b; [now apply IH|].
    destruct (kotlin_files_extends cwd directory pats root_dir root files content Hx)
      as [t ->].
    cbn [bind]. destruct (IH (content ++ t) Hl) as [t' ->].
    exists (t ++ t'). now rewrite <- app_assoc.
Qed.

Lemma kotlin_files_block (cwd directory : str) (pats : list str)
    (root_dir root : str) (files : list (str * list Byte.byte))
    (file : str) (bytes : list Byte.byte) (rel text : str) :
  root <> [] ->
  In (file, bytes) files ->
  endswith file (lit ".kt") = true ->
  should_exclude cwd (join2 root file) pats root_dir = Ok false ->
  read_bytes Ignore bytes = Ok text ->
  relpath cwd (join2 root file) directory = Ok rel ->
  forall content,
  exists before after,
    kotlin_files cwd directory pats root_dir root files content
    = Ok (content ++ before ++ kotlin_block rel text ++ after).
Proof.
  intros Hr Hin Hkt Hex Hread Hrel.
  induction files as [|[f b] files IH]; intros content; [contradiction|].
  destruct Hin as [E|Hin].
  - injection E as -> ->. cbn [kotlin_files].
    rewrite Hkt, Hex. cbn [bind negb]. rewrite Hread. cbn [bind].
    rewrite Hrel. cbn [bind].
    destruct (kotlin_files_extends cwd directory pats root_dir root files
                (content ++ kotlin_block rel text) Hr) as [t ->].
    exists [], t. cbn [app]. now rewrite <- app_assoc.
  - assert (Hstep : exists t0,
               kotlin_files cwd directory pats root_dir root ((f, b) :: files) content
               = kotlin_files cwd directory pats root_dir root files (content ++ t0)).
    { cbn [kotlin_files]. destruct (endswith f (lit ".kt")).
      - pose proof (join2_nonempty_l root f Hr) as Hp.
        destruct (should_exclude_answers cwd _ root_dir pats Hp) as [x ->].
        cbn [bind]. destruct x; cbn [negb].
        + exists []. now rewrite app_nil_r.
        + destruct (read_bytes_ignore_total b) as [tx ->]. cbn [bind].
          destruct (relpath_answers cwd _ directory Hp) as [r ->]. cbn [bind].
          now eexists.
      - exists []. now rewrite app_nil_r. }
    destruct Hstep as [t0 ->].
    destruct (IH Hin (content ++ t0)) as (before & after & ->).
    exists (t0 ++ before), after. now rewrite <- !app_assoc.
Qed.

Lemma kotlin_loop_block (cwd directory : str) (pats : list str) (root_dir : str)
    (entries : list walk_entry) (root : str) (dirs : list str)
    (files : list (str * list Byte.byte))
    (file : str) (bytes : list Byte.byte) (rel text : str) :
  Forall (fun e : walk_entry => fst (fst e) <> []) entries ->
  In (root, dirs, files) entries ->
  should_exclude cwd root pats root_dir = Ok false ->
  In (file, bytes) files ->
  endswith file (lit ".kt") = true ->
  should_exclude cwd (join2 root file) pats root_dir = Ok false ->
  read_bytes Ignore bytes = Ok text ->
  relpath cwd (join2 root file) directory = Ok rel ->
  forall content,
  exists before after,
    kotlin_loop cwd directory pats root_dir entries content
    = Ok (content ++ before ++ kotlin_block rel text ++ after).
Proof.
  intros Hw Hin Hroot Hfile Hkt Hex Hread Hrel.
  induction entries as [|[[r d] fl] l IH]; intros content; [contradiction|].
  inversion Hw as [|? ? Hx Hl]; subst. cbn [fst] in Hx.
  destruct Hin as [E|Hin].
  - injection E as -> -> ->. cbn [kotlin_loop]. rewrite Hroot. cbn [bind].
    destruct (kotlin_files_block cwd directory pats root_dir root files file bytes
                rel text Hx Hfile Hkt Hex Hread Hrel content)
      as (before & after & ->).
    cbn [bind].
    destruct (kotlin_loop_extends cwd directory pats root_dir l
                (content ++ before ++ kotlin_block rel text ++ after) Hl) as [t ->].
    exists before, (after ++ t). now rewrite <- !app_assoc.
  - assert (Hstep : exists t0,
               kotlin_loop cwd directory pats root_dir (@cons walk_entry (r, d, fl) l)
                 content
               = kotlin_loop cwd directory pats root_dir l (content ++ t0)).
    { cbn [kotlin_loop].
      destruct (should_exclude_answers cwd r root_dir pats Hx) as [x ->].
      cbn [bind]. destruct x.
      - exists []. now rewrite app_nil_r.
      - destruct (kotlin_files_extends cwd directory pats root_dir r fl content Hx)
          as [t ->].
        cbn [bind]. now eexists. }
    destruct Hstep as [t0 ->].
    destruct (IH Hl Hin (content ++ t0)) as (before & after & ->).
    exists (t0 ++ before), after. now rewrite <- !app_assoc.
Qed.

(** X20: a source file has its block in the source section as soon as
    neither the file nor the directory it lies in is excluded.  For a
    file whose name ends in [.kt], found along the names [ns] below the
    directory of the walk, the section holds the block with the
    relative path of the file and its text; what the patterns say of
    the directories further up does not matter. *)
Theorem kotlin_file_has_block (cwd : str) (fs : node) (directory : str)
    (exclude_patterns : list str) (root_dir : str) (n : node)
    (ns : list str) (nm : str) (children : list node)
    (file : str) (bytes : list Byte.byte) :
  isabs cwd = true ->
  directory <> [] ->
  resolve cwd fs directory = Some n ->
  lookup n ns = Some (Dir nm children) ->
  Forall (fun x => regular x = true) ns ->
  In (File file bytes) children ->
  regular file = true ->
  endswith file (lit ".kt") = true ->
  should_exclude cwd (join_all directory ns) exclude_patterns root_dir = Ok false ->
  should_exclude cwd (join2 (join_all directory ns) file) exclude_patterns root_dir
  = Ok false ->
  exists text before after,
    read_bytes Ignore bytes = Ok text
    /\ include_kotlin_files cwd fs directory exclude_patterns root_dir
       = Ok (before
             ++ kotlin_block (Str.join [SLASH] (ns ++ [file])) text
             ++ after).
Proof.
  intros Hc Hd Hres Hlook Hns Hin Hfile Hkt Hdir Hex.
  destruct (read_bytes_ignore_total bytes) as [text Hread].
  assert (Hrel : relpath cwd (join2 (join_all directory ns) file) directory
                 = Ok (Str.join [SLASH] (ns ++ [file]))).
  { change (join2 (join_all directory ns) file)
      with (fold_left join2 [file] (join_all directory ns)).
    unfold join_all. rewrite <- fold_left_app.
    apply relpath_join_all; [assumption| |now destruct ns].
    apply Forall_app. split; [assumption|now constructor]. }
  unfold include_kotlin_files.
  pose proof (os_walk_roots_nonempty cwd fs directory Hd) as Hw.
  unfold os_walk in *. rewrite Hres in *.
  destruct (kotlin_loop_block cwd directory exclude_patterns root_dir
              (walk directory n) (join_all directory ns) (dir_names children)
              (file_entries children) file bytes _ text Hw
              (walk_entry_at ns n directory nm children Hlook) Hdir
              (file_entries_In file bytes children Hin) Hkt Hex Hread Hrel [])
    as (before & after & ->).
  exists text, before, after. split; [exact Hread|reflexivity].
Qed.

(** The theorem above at a concrete input: below the excluded
    [__pycache__], the directory [sub] is not excluded, and its file
    has its block. *)
Lemma kotlin_file_has_block_witness :
  exists text before after,
    read_bytes Ignore [] = Ok text
    /\ include_kotlin_files (lit "/")
         (Dir [] [Dir (lit "proj")
                    [Dir (lit "__pycache__") [Dir (lit "sub") [File (lit "a.kt") []]]]])
         (lit "/proj") standard_exclusions (lit "/proj")
       = Ok (before
             ++ kotlin_block (Str.join [SLASH] ([lit "__pycache__"; lit "sub"] ++ [lit "a.kt"]))
                  text
             ++ after).
Proof.
  assert (Hd : lit "/proj" <> []) by discriminate.
  assert (Hns : Forall (fun x => regular x = true) [lit "__pycache__"; lit "sub"])
    by (repeat constructor).
  assert (Hin : In (File (lit "a.kt") []) [File (lit "a.kt") []]) by (now left).
  exact (kotlin_file_has_block (lit "/")
           (Dir [] [Dir (lit "proj")
                      [Dir (lit "__pycache__") [Dir (lit "sub") [File (lit "a.kt") []]]]])
           (lit "/proj") standard_exclusions (lit "/proj")
           (Dir (lit "proj")
              [Dir (lit "__pycache__") [Dir (lit "sub") [File (lit "a.kt") []]]])
           [lit "__pycache__"; lit "sub"] (lit "sub") [File (lit "a.kt") []]
           (lit "a.kt") [] eq_refl Hd eq_refl eq_refl Hns Hin eq_refl eq_refl
           eq_refl eq_refl).
Defined.

(** * What the configuration section holds *)

Lemma gradle_files_step (cwd directory root : str)
    (f : str) (b : list Byte.byte)
    (files : list (str * list Byte.byte)) (content : str) :
  root <> [] ->
  exists t0,
    gradle_files cwd directory root ((f, b) :: files) content
    = gradle_files cwd directory root files (content ++ t0).
Proof.
  intros Hr. cbn [gradle_files].
  destruct (endswith f (lit ".gradle.kts") || eqb f (lit "libs.versions.toml")).
  - pose proof (join2_nonempty_l root f Hr) as Hp.
    destruct (read_bytes_ignore_total b) as [text ->]. cbn [bind].
    destruct (relpath_answers cwd _ directory Hp) as [rel ->]. cbn [bind].
    destruct (endswith f (lit ".gradle.kts")); [now eexists|].
    destruct (eqb f (lit "libs.versions.toml")); [now eexists|].
    exists []. now rewrite app_nil_r.
  - exists []. now rewrite app_nil_r.
Qed.

Lemma gradle_files_extends (cwd directory root : str)
    (files : list (str * list Byte.byte)) (content : str) :
  root <> [] ->
  exists t, gradle_files cwd directory root files content = Ok (content ++ t).
Proof.
  intros Hr. revert content.
  induction files as [|[f b] files IH]; intros content.
  - exists []. cbn [gradle_files]. now rewrite app_nil_r.
  - destruct (gradle_files_step cwd directory root f b files content Hr) as [t0 ->].
    destruct (IH (content ++ t0)) as [t ->].
    exists (t0 ++ t). now rewrite <- app_assoc.
Qed.

Lemma gradle_loop_extends (cwd directory : str)
    (entries : list walk_entry) (content : str) :
  Forall (fun e : walk_entry => fst (fst e) <> []) entries ->
  exists t, gradle_loop cwd directory entries content = Ok (content ++ t).
Proof.
  revert content.
  induction entries as [|[[root dirs] files] l IH]; intros content Hw.
  - exists []. cbn [gradle_loop]. now rewrite app_nil_r.
  - inversion Hw as [|? ? Hx Hl]; subst. cbn [fst] in Hx. cbn [gradle_loop].
    destruct (gradle_files_extends cwd directory root files content Hx) as [t ->].
    cbn [bind]. destruct (IH (content ++ t) Hl) as [t' ->].
    exists (t ++ t'). now rewrite <- app_assoc.
Qed.

Lemma gradle_files_block (cwd directory root : str)
    (files : list (str * list Byte.byte))
    (file : str) (bytes : list Byte.byte) (rel text : str) :
  root <> [] ->
  In (file, bytes) files ->
  endswith file (lit ".gradle.kts") || eqb file (lit "libs.versions.toml") = true ->
  read_bytes Ignore bytes = Ok text ->
  relpath cwd (join2 root file) directory = Ok rel ->
  forall content,
  exists before after,
    gradle_files cwd directory root files content
    = Ok (content ++ before
          ++ (if endswith file (lit ".gradle.kts") then gradle_block rel text
              else toml_block rel text)
          ++ after).
Proof.
  intros Hr Hin Hname Hread Hrel.
  induction files as [|[f b] files IH]; intros content; [contradiction|].
  destruct Hin as [E|Hin].
  - injection E as -> ->. cbn [gradle_files].
    rewrite Hname, Hread. cbn [bind]. rewrite Hrel. cbn [bind].
    destruct (endswith file (lit ".gradle.kts")) eqn:Eg.
    + destruct (gradle_files_extends cwd directory root files
                  (content ++ gradle_block rel text) Hr) as [t ->].
      exists [], t. cbn [app]. now rewrite <- app_assoc.
    + cbn [orb] in Hname. rewrite Hname.
      destruct (gradle_files_extends cwd directory root files
                  (content ++ toml_block rel text) Hr) as [t ->].
      exists [], t. cbn [app]. now rewrite <- app_assoc.
  - destruct (gradle_files_step cwd directory root f b files content Hr) as [t0 ->].
    destruct (IH Hin (content ++ t0)) as (before & after & ->).
    exists (t0 ++ before), after. now rewrite <- !app_assoc.
Qed.

Lemma gradle_loop_block (cwd directory : str)
    (entries : list walk_entry) (root : str) (dirs : list str)
    (files : list (str * list Byte.byte))
    (file : str) (bytes : list Byte.byte) (rel text : str) :
  Forall (fun e : walk_entry => fst (fst e) <> []) entries ->
  In (root, dirs, files) entries ->
  In (file, bytes) files ->
  endswith file (lit ".gradle.kts") || eqb file (lit "libs.versions.toml") = true ->
  read_bytes Ignore bytes = Ok text ->
  relpath cwd (join2 root file) directory = Ok rel ->
  forall content,
  exists before after,
    gradle_loop cwd directory entries content
    = Ok (content ++ before
          ++ (if endswith file (lit ".gradle.kts") then gradle_block rel text
              else toml_block rel text)
          ++ after).
Proof.
  intros Hw Hin Hfile Hname Hread Hrel.
  induction entries as [|[[r d] fl] l IH]; intros content; [contradiction|].
  inversion Hw as [|? ? Hx Hl]; subst. cbn [fst] in Hx.
  destruct Hin as [E|Hin].
  - injection E as -> -> ->. cbn [gradle_loop].
    destruct (gradle_files_block cwd directory root files file bytes
                rel text Hx Hfile Hname Hread Hrel content)
      as (before & after & ->).
    cbn [bind].
    match goal with
    | |- context [gradle_loop cwd directory l ?c] =>
        destruct (gradle_loop_extends cwd directory l c Hl) as [t ->]
    end.
    exists before, (after ++ t). now rewrite <- !app_assoc.
  - cbn [gradle_loop].
    destruct (gradle_files_extends cwd directory r fl content Hx) as [t0 ->].
    cbn [bind].
    destruct (IH Hl Hin (content ++ t0)) as (before & after & ->).
    exists (t0 ++ before), after. now rewrite <- !app_assoc.
Qed.

(** X21: every build script and version catalog of the project has its
    block in the configuration section, whatever the patterns exclude.
    For a file whose name ends in [.gradle.kts] or is
    [libs.versions.toml], found along the names [ns] below the
    directory of the walk, the section holds the block of its kind with
    the relative path of the file and its text. *)
Theorem configuration_file_has_block (cwd : str) (fs : node) (directory : str)
    (n : node) (ns : list str) (nm : str) (children : list node)
    (file : str) (bytes : list Byte.byte) :
  isabs cwd = true ->
  directory <> [] ->
  resolve cwd fs directory = Some n ->
  lookup n ns = Some (Dir nm children) ->
  Forall (fun x => regular x = true) ns ->
  In (File file bytes) children ->
  regular file = true ->
  endswith file (lit ".gradle.kts") || eqb file (lit "libs.versions.toml") = true ->
  exists text before after,
    read_bytes Ignore bytes = Ok text
    /\ include_gradle_and_toml_files cwd fs directory
       = Ok (before
             ++ (if endswith file (lit ".gradle.kts")
                 then gradle_block (Str.join [SLASH] (ns ++ [file])) text
                 else toml_block (Str.join [SLASH] (ns ++ [file])) text)
             ++ after).
Proof.
  intros Hc Hd Hres Hlook Hns Hin Hfile Hname.
  destruct (read_bytes_ignore_total bytes) as [text Hread].
  assert (Hrel : relpath cwd (join2 (join_all directory ns) file) directory
                 = Ok (Str.join [SLASH] (ns ++ [file]))).
  { change (join2 (join_all directory ns) file)
      with (fold_left join2 [file] (join_all directory ns)).
    unfold join_all. rewrite <- fold_left_app.
    apply relpath_join_all; [assumption| |now destruct ns].
    apply Forall_app. split; [assumption|now constructor]. }
  unfold include_gradle_and_toml_files.
  pose proof (os_walk_roots_nonempty cwd fs directory Hd) as Hw.
  unfold os_walk in *. rewrite Hres in *.
  destruct (gradle_loop_block cwd directory
              (walk directory n) (join_all directory ns) (dir_names children)
              (file_entries children) file bytes _ text Hw
              (walk_entry_at ns n directory nm children Hlook)
              (file_entries_In file bytes children Hin) Hname Hread Hrel [])
    as (before & after & ->).
  exists text, before, after. split; [exact Hread|reflexivity].
Qed.

(** The theorem above at a concrete input: the build script of the
    excluded directory [build]. *)
Lemma configuration_file_has_block_witness :
  exists text before after,
    read_bytes Ignore [] = Ok text
    /\ include_gradle_and_toml_files (lit "/")
         (Dir [] [Dir (lit "proj") [Dir (lit "build") [File (lit "x.gradle.kts") []]]])
         (lit "/proj")
       = Ok (before
             ++ (if endswith (lit "x.gradle.kts") (lit ".gradle.kts")
                 then gradle_block
                        (Str.join [SLASH] ([lit "build"] ++ [lit "x.gradle.kts"])) text
                 else toml_block
                        (Str.join [SLASH] ([lit "build"] ++ [lit "x.gradle.kts"])) text)
             ++ after).
Proof.
  assert (Hd : lit "/proj" <> []) by discriminate.
  assert (Hns : Forall (fun x => regular x = true) [lit "build"])
    by (repeat constructor).
  assert (Hin : In (File (lit "x.gradle.kts") []) [File (lit "x.gradle.kts") []])
    by (now left).
  exact (configuration_file_has_block (lit "/")
           (Dir [] [Dir (lit "proj") [Dir (lit "build") [File (lit "x.gradle.kts") []]]])
           (lit "/proj")
           (Dir (lit "proj") [Dir (lit "build") [File (lit "x.gradle.kts") []]])
           [lit "build"] (lit "build") [File (lit "x.gradle.kts") []]
           (lit "x.gradle.kts") [] eq_refl Hd eq_refl eq_refl Hns Hin eq_refl eq_refl).
Defined.

(** * The library models on examples *)

Example fnmatch_ex :
  fnmatch (lit "a/b.log") (lit "*.log") = true /\
  fnmatch (lit "a.log") (lit "?.log") = true /\
  fnmatch (lit "src/__pycache__") (lit "__pycache__") = false /\
  fnmatch (lit "b") (lit "[a-c]") = true /\
  fnmatch (lit "d") (lit "[a-c]") = false /\
  fnmatch (lit "d") (lit "[!a-c]") = true /\
  fnmatch (lit "-") (lit "[a-c-e]") = true /\
  fnmatch (lit "d") (lit "[a-c-e]") = false /\
  fnmatch (lit "b") (lit "[z-a]") = false /\
  fnmatch (lit "b") (lit "[!z-a]") = true /\
  fnmatch (lit "[a") (lit "[a") = true /\
  fnmatch (lit "]") (lit "[]]") = true /\
  fnmatch (lit "b") (lit "[a--b]") = true /\
  fnmatch (lit "a") (lit "[a--b]") = false /\
  fnmatch (lit ",") (lit "[+--]") = true /\
  fnmatch (lit "xyz") (lit "x**z") = true.
Proof. vm_compute. repeat split. Qed.

Example relpath_ex1 :
  relpath (lit "/home/u") (lit "proj/a/build") (lit "proj") = Ok (lit "a/build").
Proof. vm_compute. reflexivity. Qed.

Example relpath_ex2 :
  relpath (lit "/home/u") (lit "/x/y") (lit "/x/z/w") = Ok (lit "../../y").
Proof. vm_compute. reflexivity. Qed.

Example relpath_ex3 :
  relpath (lit "/home/u") (lit "proj") (lit "proj/") = Ok (lit ".").
Proof. vm_compute. reflexivity. Qed.

Example dirname_ex :
  dirname (lit "/a/b/c.md") = lit "/a/b" /\ dirname (lit "c.md") = [] /\
  dirname (lit "/c.md") = lit "/" /\ dirname (lit "a//c") = lit "a".
Proof. vm_compute. repeat split. Qed.
